(** * The DNS cache of a validating resolver

    A shallow embedding of [services/cache/dns.c] (message store, lookup
    with DNAME and CNAME synthesis, delegation walk) and of the RRset key
    and data routines of [util/data/packed_rrset.c].

    Conventions of the embedding:
    - C integers are [Z]; [uint32_t] and [size_t] arithmetic is written
      with its wrap-around ([wrap32], [wrap_size]).
    - A name is the list of the bytes of its wire form; a pointer into a
      name is the list of the bytes that remain from that position.
    - The RRset keys that caches and stored replies point to live in a
      heap ([gmap] from addresses to objects); a stored reply holds
      addresses, a served message holds its own copies.
    - The region allocator is an oracle: the list of the outcomes of the
      successive allocations.
    - The clock ([time(NULL)]) is the explicit argument [now].
    - The per-entry reader/writer locks and the LRU bookkeeping of the hash
      tables are not represented: the model is sequential. *)

From stdpp Require Import base numbers list option gmap.
Local Open Scope Z_scope.

(** ** Machine integers *)

(** [uint32_t]. *)
Definition wrap32 (x : Z) : Z := x mod 2 ^ 32.
(** [size_t] on an LP64 host. *)
Definition wrap_size (x : Z) : Z := x mod 2 ^ 64.

(** [ldns_read_uint16] and [ldns_write_uint16]: big-endian, byte by byte. *)
Definition ldns_read_uint16 (b : list Z) : Z :=
  Z.lor (Z.shiftl (nth 0 b 0) 8) (nth 1 b 0).
Definition ldns_write_uint16 (x : Z) : list Z :=
  [Z.land (Z.shiftr x 8) 255; Z.land x 255].

(** [tolower] of the C locale. *)
Definition tolower (c : Z) : Z :=
  if (65 <=? c) && (c <=? 90) then c + 32 else c.

(** Constants of ldns and of [util/net_help.h]. *)
Definition LDNS_RR_TYPE_A : Z := 1.
Definition LDNS_RR_TYPE_NS : Z := 2.
Definition LDNS_RR_TYPE_CNAME : Z := 5.
Definition LDNS_RR_TYPE_AAAA : Z := 28.
Definition LDNS_RR_TYPE_DNAME : Z := 39.
Definition LDNS_RR_TYPE_DS : Z := 43.
Definition LDNS_RR_TYPE_NSEC : Z := 47.
Definition LDNS_MAX_DOMAINLEN : Z := 255.
Definition LDNS_RCODE_YXDOMAIN : Z := 6.
Definition BIT_QR : Z := 32768.

(** ** RRset keys and data (util/data/packed_rrset) *)

(** [enum rrset_trust], in the order of [rrset_trust_to_string]. *)
Inductive rrset_trust : Set :=
  | rrset_trust_none
  | rrset_trust_add_noAA
  | rrset_trust_auth_noAA
  | rrset_trust_add_AA
  | rrset_trust_nonauth_ans_AA
  | rrset_trust_ans_noAA
  | rrset_trust_glue
  | rrset_trust_auth_AA
  | rrset_trust_ans_AA
  | rrset_trust_sec_noglue
  | rrset_trust_prim_noglue
  | rrset_trust_validated
  | rrset_trust_ultimate.

Definition trust_rank (t : rrset_trust) : Z :=
  match t with
  | rrset_trust_none => 0
  | rrset_trust_add_noAA => 1
  | rrset_trust_auth_noAA => 2
  | rrset_trust_add_AA => 3
  | rrset_trust_nonauth_ans_AA => 4
  | rrset_trust_ans_noAA => 5
  | rrset_trust_glue => 6
  | rrset_trust_auth_AA => 7
  | rrset_trust_ans_AA => 8
  | rrset_trust_sec_noglue => 9
  | rrset_trust_prim_noglue => 10
  | rrset_trust_validated => 11
  | rrset_trust_ultimate => 12
  end.

(** [enum sec_status], in the order of [sec_status_to_string]. *)
Inductive sec_status : Set :=
  | sec_status_unchecked
  | sec_status_bogus
  | sec_status_indeterminate
  | sec_status_insecure
  | sec_status_secure.

(** [struct packed_rrset_key]. [rk_type] holds the field as it is stored,
    in network byte order (the source reads it with [ntohs]). *)
Record packed_rrset_key : Type := mk_rk {
  rk_dname : list Z;
  rk_dname_len : Z;
  rk_flags : Z;
  rk_type : Z;
  rk_rrset_class : Z
}.

(** [struct packed_rrset_data]. The three arrays that the source packs
    behind the header are three lists; [packed_rrset_ptr_fixup] and
    [packed_rrset_sizeof], which only concern that layout, have no
    counterpart. *)
Record packed_rrset_data : Type := mk_data {
  d_ttl : Z;
  d_count : Z;
  d_rrsig_count : Z;
  d_trust : rrset_trust;
  d_security : sec_status;
  rr_len : list Z;
  rr_ttl : list Z;
  rr_data : list (list Z)
}.

(** [struct ub_packed_rrset_key]: of the embedded [lruhash_entry] the hash
    and the data pointer are kept. *)
Record ub_packed_rrset_key : Type := mk_key {
  entry_hash : Z;
  entry_data : packed_rrset_data;
  id : Z;
  rk : packed_rrset_key
}.

(** Modelled from the spec: [query_dname_compare] (util/data/dname.c is not
    among the sources). The spec has names "compared case-insensitively"
    and the key order use the "dname compared canonically": the bytes of
    the two wire forms are compared in order after [tolower]; a name that
    ends first is the smaller one. *)
Fixpoint query_dname_compare (d1 d2 : list Z) : Z :=
  match d1, d2 with
  | [], [] => 0
  | [], _ :: _ => -1
  | _ :: _, [] => 1
  | b1 :: r1, b2 :: r2 =>
      if tolower b1 <? tolower b2 then -1
      else if tolower b2 <? tolower b1 then 1
      else query_dname_compare r1 r2
  end.

(** [ub_rrset_compare]. Of the two objects only the [rk] member is read, so
    the model takes those. The source first answers 0 when both arguments
    are the same object; on values that test is subsumed by the remaining
    ones (see [ub_rrset_compare_refl]). *)
Definition ub_rrset_compare (key1 key2 : packed_rrset_key) : Z :=
  if negb (rk_type key1 =? rk_type key2) then
    if rk_type key1 <? rk_type key2 then -1 else 1
  else if negb (rk_dname_len key1 =? rk_dname_len key2) then
    if rk_dname_len key1 <? rk_dname_len key2 then -1 else 1
  else
    let c := query_dname_compare (rk_dname key1) (rk_dname key2) in
    if negb (c =? 0) then c
    else if negb (rk_rrset_class key1 =? rk_rrset_class key2) then
      if rk_rrset_class key1 <? rk_rrset_class key2 then -1 else 1
    else if negb (rk_flags key1 =? rk_flags key2) then
      if rk_flags key1 <? rk_flags key2 then -1 else 1
    else 0.

(** The order the spec describes, written from its words: five three-way
    comparisons combined lexicographically. *)
Definition three_way (x y : Z) : Z :=
  if x <? y then -1 else if y <? x then 1 else 0.

Definition lexico (c rest : Z) : Z := if c =? 0 then rest else c.

Definition rrset_key_order (k1 k2 : packed_rrset_key) : Z :=
  lexico (three_way (rk_type k1) (rk_type k2))
    (lexico (three_way (rk_dname_len k1) (rk_dname_len k2))
       (lexico (query_dname_compare (rk_dname k1) (rk_dname k2))
          (lexico (three_way (rk_rrset_class k1) (rk_rrset_class k2))
             (three_way (rk_flags k1) (rk_flags k2))))).

(** Two keys agree when their type, class and flags are equal and their
    owner names (bytes and length) are equal up to the case of letters. *)
Definition keys_agree (k1 k2 : packed_rrset_key) : Prop :=
  rk_type k1 = rk_type k2 /\
  rk_dname_len k1 = rk_dname_len k2 /\
  tolower <$> rk_dname k1 = tolower <$> rk_dname k2 /\
  rk_rrset_class k1 = rk_rrset_class k2 /\
  rk_flags k1 = rk_flags k2.

(** A three-way comparison that orders its carrier. *)
Class ThreeWay {A : Type} (cmp : A -> A -> Z) : Prop := {
  cmp_range : forall a b, cmp a b = -1 \/ cmp a b = 0 \/ cmp a b = 1;
  cmp_antisym : forall a b, cmp b a = - cmp a b;
  cmp_trans_lt : forall a b c, cmp a b = -1 -> cmp b c = -1 -> cmp a c = -1;
  cmp_trans_eq_l : forall a b c, cmp a b = 0 -> cmp a c = cmp b c
}.

(** ** The host *)

(** What the embedding leaves open about the machine and about the parts
    of the repository that the cache treats as black boxes: the byte order
    of the host, the hash functions (util/storage/lookup3, util/data/dname
    and util/data/msgreply are not among the sources) and the content of
    region memory that was allocated but never written. Every theorem
    holds for all of them. *)
Class Host : Type := {
  big_endian : bool;
  dname_query_hash : list Z -> Z -> Z;
  hashlittle : list Z -> Z -> Z;
  query_info_hash_of : list Z -> Z -> Z -> Z -> Z;
  uninit_word : Z;
  uninit_security : sec_status
}.

Section HostOps.
Context `{Host}.

(** [htons]; [ntohs] is the same function. *)
Definition htons (x : Z) : Z :=
  if big_endian then x
  else Z.lor (Z.shiftl (Z.land x 255) 8) (Z.land (Z.shiftr x 8) 255).
Definition ntohs (x : Z) : Z := htons x.

(** The [n] bytes of an integer as they lie in memory. *)
Fixpoint le_bytes (n : nat) (x : Z) : list Z :=
  match n with
  | O => []
  | S n' => Z.land x 255 :: le_bytes n' (Z.shiftr x 8)
  end.
Definition host_bytes (n : nat) (x : Z) : list Z :=
  if big_endian then rev (le_bytes n x) else le_bytes n x.

(** [rrset_key_hash]. *)
Definition rrset_key_hash (key : packed_rrset_key) : Z :=
  let t := ntohs (rk_type key) in
  let h := 171 in
  let h := dname_query_hash (rk_dname key) h in
  let h := hashlittle (host_bytes 2 t) h in
  let h := hashlittle (host_bytes 2 (rk_rrset_class key)) h in
  let h := hashlittle (host_bytes 4 (rk_flags key)) h in
  h.

End HostOps.

(** [rrsetdata_equal]. *)
Fixpoint rrsetdata_equal_loop (total : nat) (len1 len2 : list Z)
    (dat1 dat2 : list (list Z)) : bool :=
  match total with
  | O => true
  | S total' =>
      match len1, len2, dat1, dat2 with
      | l1 :: len1', l2 :: len2', b1 :: dat1', b2 :: dat2' =>
          if negb (l1 =? l2) then false
          else if negb (bool_decide (take (Z.to_nat l1) b1 = take (Z.to_nat l1) b2))
          then false
          else rrsetdata_equal_loop total' len1' len2' dat1' dat2'
      | _, _, _, _ => false
      end
  end.

Definition rrsetdata_equal (d1 d2 : packed_rrset_data) : bool :=
  if negb (d_count d1 =? d_count d2) || negb (d_rrsig_count d1 =? d_rrsig_count d2)
  then false
  else
    let total := wrap_size (d_count d1 + d_rrsig_count d1) in
    rrsetdata_equal_loop (Z.to_nat total) (rr_len d1) (rr_len d2)
      (rr_data d1) (rr_data d2).

(** The loop [for(i=0; i<total; i++) a[i] = f(a[i])] over an array. *)
Fixpoint for_each_index (total : nat) (f : Z -> Z) (a : list Z) : list Z :=
  match total, a with
  | S total', x :: a' => f x :: for_each_index total' f a'
  | _, _ => a
  end.

(** [packed_rrset_ttl_add]. *)
Definition packed_rrset_ttl_add (data : packed_rrset_data) (add : Z)
    : packed_rrset_data :=
  let total := wrap_size (data.(d_count) + data.(d_rrsig_count)) in
  {| d_ttl := wrap32 (data.(d_ttl) + add);
     d_count := data.(d_count);
     d_rrsig_count := data.(d_rrsig_count);
     d_trust := data.(d_trust);
     d_security := data.(d_security);
     rr_len := data.(rr_len);
     rr_ttl := for_each_index (Z.to_nat total) (fun t => wrap32 (t + add))
                 data.(rr_ttl);
     rr_data := data.(rr_data) |}.

(** [ub_packed_rrset_ttl]. *)
Definition ub_packed_rrset_ttl (key : ub_packed_rrset_key) : Z :=
  d_ttl (entry_data key).

(** Modelled from the spec: [dname_valid] (util/data/dname.c is not among
    the sources). The spec describes a name as "length-prefixed labels,
    terminated by a zero-length root label; length <= 255 bytes": the walk
    follows the labels of [dname] and answers the length of the name, root
    label included, or 0 when the name does not end within [maxlen] bytes
    or is longer than 255 bytes. *)
Fixpoint dname_valid_walk (fuel : nat) (dname : list Z) (len maxlen : Z) : Z :=
  match fuel with
  | O => 0
  | S fuel' =>
      match dname with
      | [] => 0
      | labellen :: rest =>
          if labellen =? 0 then
            if (len + 1 >? maxlen) || (len + 1 >? LDNS_MAX_DOMAINLEN) then 0
            else len + 1
          else
            let len' := len + labellen + 1 in
            if (len' >? maxlen) || (len' >? LDNS_MAX_DOMAINLEN) then 0
            else dname_valid_walk fuel' (drop (Z.to_nat labellen) rest)
                   len' maxlen
      end
  end.

Definition dname_valid (dname : list Z) (maxlen : Z) : Z :=
  dname_valid_walk (S (length dname)) dname 0 maxlen.

Section Target.
Context `{Host}.

(** [get_cname_target]: [None] when the source leaves its two result
    arguments untouched (the caller initialised the name to NULL). The
    name handed back is the pointer [rr_data[0] + 2], that is the bytes
    that follow the length prefix. *)
Definition get_cname_target (rrset : ub_packed_rrset_key)
    : option (list Z * Z) :=
  if negb (ntohs (rk_type (rk rrset)) =? LDNS_RR_TYPE_CNAME) &&
     negb (ntohs (rk_type (rk rrset)) =? LDNS_RR_TYPE_DNAME) then None
  else
    let d := entry_data rrset in
    if d_count d <? 1 then None
    else
      match rr_len d, rr_data d with
      | len0 :: _, data0 :: _ =>
          if len0 <? 3 then None
          else
            let len := ldns_read_uint16 data0 in
            if negb (len =? len0 - 2) then None
            else if negb (dname_valid (drop 2 data0) len =? len) then None
            else Some (drop 2 data0, len)
      | _, _ => None
      end.

End Target.

(** ** The region allocator *)

(** A region is the list of the outcomes of the allocations still to come
    ([true]: memory is handed out; [false]: NULL); once the list is used up
    every allocation succeeds. *)
Definition region : Type := list bool.

(** Computations that allocate: they thread the region. *)
Definition St (A : Type) : Type := region -> A * region.

(** Computations that allocate and may give up with NULL. *)
Definition M (A : Type) : Type := St (option A).

Definition sret {A} (a : A) : St A := fun r => (a, r).
Definition sbind {A B} (m : St A) (f : A -> St B) : St B :=
  fun r => let (a, r') := m r in f a r'.

Definition mret {A} (a : A) : M A := fun r => (Some a, r).
Definition mnull {A} : M A := fun r => (None, r).
Definition bind {A B} (m : M A) (f : A -> M B) : M B :=
  fun r =>
    match m r with
    | (Some a, r') => f a r'
    | (None, r') => (None, r')
    end.

(** [m] and, if it yields NULL, [k] on the region as [m] left it. *)
Definition orelse {A} (m k : M A) : M A :=
  fun r =>
    match m r with
    | (Some a, r') => (Some a, r')
    | (None, r') => k r'
    end.

Notation "x <- m ;; k" := (bind m (fun x => k))
  (at level 100, m at next level, right associativity).
Notation "x <~ m ;; k" := (sbind m (fun x => k))
  (at level 100, m at next level, right associativity).

(** [region_alloc] and [region_alloc_init]: the size asked for and the
    bytes copied play no part in the outcome. *)
Definition region_alloc : M unit :=
  fun r =>
    match r with
    | [] => (Some (), [])
    | ok :: r' => (if ok then Some () else None, r')
    end.

(** The first [n] allocations from [r] succeed. *)
Fixpoint region_ok (n : nat) (r : region) : bool :=
  match n, r with
  | O, _ => true
  | S _, [] => true
  | S n', ok :: r' => ok && region_ok n' r'
  end.

(** ** Queries, replies and the two caches *)

(** [struct query_info]. *)
Record query_info : Type := mk_qinfo {
  qname : list Z;
  qname_len : Z;
  qtype : Z;
  qclass : Z
}.

(** Addresses of [ub_packed_rrset_key] objects. *)
Definition ptr : Type := nat.

(** [struct rrset_ref]. *)
Record rrset_ref : Type := mk_ref {
  ref_key : ptr;
  ref_id : Z
}.

(** [struct reply_info]. [K] is what the [rrsets] array holds: addresses
    of cache objects in a stored reply, the copies themselves in a reply
    that lives in a region. A region reply has no [ref] array. *)
Record reply_info (K : Type) : Type := mk_rep {
  rep_flags : Z;
  qdcount : Z;
  rep_ttl : Z;
  an_numrrsets : Z;
  ns_numrrsets : Z;
  ar_numrrsets : Z;
  rrset_count : Z;
  rrsets : list K;
  ref : list rrset_ref
}.
Arguments mk_rep {K}.
Arguments rep_flags {K}.
Arguments qdcount {K}.
Arguments rep_ttl {K}.
Arguments an_numrrsets {K}.
Arguments ns_numrrsets {K}.
Arguments ar_numrrsets {K}.
Arguments rrset_count {K}.
Arguments rrsets {K}.
Arguments ref {K}.

(** [struct msgreply_entry] with the reply its [entry.data] points to. *)
Record msgreply_entry : Type := mk_mentry {
  me_key : query_info;
  me_hash : Z;
  me_data : reply_info ptr
}.

(** [struct dns_msg]. *)
Record dns_msg : Type := mk_msg {
  qinfo : query_info;
  rep : reply_info ub_packed_rrset_key
}.

(** [struct module_env]: the message cache, the keys that are in the RRset
    hash table, the memory that holds RRset key objects, and the counter
    that hands out ids. *)
Record module_env : Type := mk_env {
  msg_cache : list msgreply_entry;
  rrset_cache : list ptr;
  heap : gmap ptr ub_packed_rrset_key;
  next_id : Z
}.

(** What [copy_rrset] writes into the memory it obtained: the key with its
    name, and the data with every TTL made relative to [now]. *)
Definition rrset_copy (key : ub_packed_rrset_key) (now : Z)
    : ub_packed_rrset_key :=
  let data := entry_data key in
  let dname := take (Z.to_nat (rk_dname_len (rk key))) (rk_dname (rk key)) in
  let total := wrap_size (d_count data + d_rrsig_count data) in
  let d :=
    {| d_ttl := wrap32 (d_ttl data - now);
       d_count := d_count data;
       d_rrsig_count := d_rrsig_count data;
       d_trust := d_trust data;
       d_security := d_security data;
       rr_len := rr_len data;
       rr_ttl := for_each_index (Z.to_nat total) (fun t => wrap32 (t - now))
                   (rr_ttl data);
       rr_data := rr_data data |} in
  {| entry_hash := entry_hash key;
     entry_data := d;
     id := id key;
     rk := {| rk_dname := dname;
              rk_dname_len := rk_dname_len (rk key);
              rk_flags := rk_flags (rk key);
              rk_type := rk_type (rk key);
              rk_rrset_class := rk_rrset_class (rk key) |} |}.

(** [copy_rrset] (and [packed_rrset_copy_region], its twin over a
    [struct regional]): three allocations (the key, its name, the data),
    each of which may end the routine with NULL. *)
Definition copy_rrset (key : ub_packed_rrset_key) (now : Z)
    : M ub_packed_rrset_key :=
  _ <- region_alloc ;;
  _ <- region_alloc ;;
  _ <- region_alloc ;;
  mret (rrset_copy key now).

Section Lookup.
Context `{Host}.

(** Modelled from the spec: [rrset_cache_lookup] (services/cache/rrset.c is
    not among the sources). "Finds an entry whose key equals the argument,
    verifies entry.data.ttl > now ... An expired entry is treated as a
    miss." Key equality is that of the table, [ub_rrset_compare]; the key
    looked for carries type and class in network order, as stored keys
    do. The entry is only read by the callers, so the object is handed
    back. *)
Definition rrset_cache_lookup (env : module_env) (qname : list Z)
    (qnamelen qtype qclass flags now : Z) (wr : bool)
    : option ub_packed_rrset_key :=
  let key := {| rk_dname := qname; rk_dname_len := qnamelen;
                rk_flags := flags; rk_type := htons qtype;
                rk_rrset_class := htons qclass |} in
  let same (k : ub_packed_rrset_key) := ub_rrset_compare (rk k) key =? 0 in
  match
    list_find (fun k => same k = true)
      (omap (fun p => heap env !! p) (rrset_cache env))
  with
  | Some (_, k) => if d_ttl (entry_data k) >? now then Some k else None
  | None => None
  end.

(** [find_closest_of_type]. [qname] is the rest of the name from the
    current position. Each round moves past at least one byte, so
    [S (length qname)] rounds are enough. Where the source would read the
    label length past the end of the name, the walk stops with NULL. *)
Fixpoint find_closest_of_type_loop (fuel : nat) (env : module_env)
    (qname : list Z) (qnamelen qclass now searchtype : Z)
    : option ub_packed_rrset_key :=
  match fuel with
  | O => None
  | S fuel' =>
      if qnamelen >? 0 then
        match
          rrset_cache_lookup env qname qnamelen searchtype qclass 0 now false
        with
        | Some rrset => Some rrset
        | None =>
            match qname with
            | [] => None
            | lablen :: _ =>
                find_closest_of_type_loop fuel' env
                  (drop (Z.to_nat (lablen + 1)) qname)
                  (wrap_size (qnamelen - (lablen + 1))) qclass now searchtype
            end
        end
      else None
  end.

Definition find_closest_of_type (env : module_env) (qname : list Z)
    (qnamelen qclass now searchtype : Z) : option ub_packed_rrset_key :=
  find_closest_of_type_loop (S (length qname)) env qname qnamelen qclass now
    searchtype.

End Lookup.

(** ** Serving a lookup (services/cache/dns.c) *)

Section Serve.
Context `{Host}.

(** Modelled from the spec: [query_info_compare] (util/data/msgreply.c is
    not among the sources). A query key is "(qname, qtype, qclass). Names
    compared case-insensitively." *)
Definition query_info_compare (a b : query_info) : bool :=
  (qtype a =? qtype b) && (qclass a =? qclass b) &&
  (qname_len a =? qname_len b) &&
  (query_dname_compare (qname a) (qname b) =? 0).

(** [query_info_hash] on the fields of the query. *)
Definition query_info_hash (k : query_info) : Z :=
  query_info_hash_of (qname k) (qname_len k) (qtype k) (qclass k).

(** Modelled from the spec: [slabhash_lookup] on the message cache (the
    hash table is not among the sources). "lookup(qkey): returns a
    read-locked entry": the entry stored under hash [h] whose key equals
    [k]. *)
Definition slabhash_lookup (cache : list msgreply_entry) (h : Z)
    (k : query_info) (wr : bool) : option msgreply_entry :=
  snd <$> list_find
    (fun e => (me_hash e =? h) && query_info_compare (me_key e) k = true)
    cache.

(** Modelled from the spec: [rrset_array_lock] (services/cache/rrset.c is
    not among the sources). "For each ref, acquire a read lock on the
    entry whose key matches and whose tag equals ref.id. On any mismatch
    (stale or expired), release all previously acquired locks and return
    false", where expired is "TTL <= now". *)
Definition rrset_array_lock (env : module_env) (refs : list rrset_ref)
    (count now : Z) : bool :=
  forallb
    (fun r =>
       match heap env !! ref_key r with
       | Some k => (id k =? ref_id r) && (d_ttl (entry_data k) >? now)
       | None => false
       end)
    (take (Z.to_nat count) refs).

(** A reply in fresh region memory: no field has been written. *)
Definition uninit_reply : reply_info ub_packed_rrset_key :=
  {| rep_flags := uninit_word; qdcount := uninit_word; rep_ttl := uninit_word;
     an_numrrsets := uninit_word; ns_numrrsets := uninit_word;
     ar_numrrsets := uninit_word; rrset_count := uninit_word;
     rrsets := []; ref := [] |}.

(** The query of a served message: the fields of [q] and a copy of its
    name. *)
Definition qinfo_copy (q : query_info) : query_info :=
  {| qname := take (Z.to_nat (qname_len q)) (qname q);
     qname_len := qname_len q;
     qtype := qtype q; qclass := qclass q |}.

(** [gen_dns_msg]: the message, the name, the reply and the array of
    [num] keys are four allocations. *)
Definition gen_dns_msg (q : query_info) (num : Z) : M dns_msg :=
  _ <- region_alloc ;;
  _ <- region_alloc ;;
  _ <- region_alloc ;;
  _ <- region_alloc ;;
  mret {| qinfo := qinfo_copy q; rep := uninit_reply |}.

(** The loop of [tomsg] that fills [msg->rep->rrsets]. *)
Fixpoint copy_rrsets (env : module_env) (keys : list ptr) (now : Z)
    : M (list ub_packed_rrset_key) :=
  match keys with
  | [] => mret []
  | p :: keys' =>
      match heap env !! p with
      | None => mnull
      | Some key =>
          ck <- copy_rrset key now ;;
          rest <- copy_rrsets env keys' now ;;
          mret (ck :: rest)
      end
  end.

(** [tomsg]. *)
Definition tomsg (env : module_env) (e : msgreply_entry)
    (r : reply_info ptr) (now : Z) : M dns_msg :=
  if now >? rep_ttl r then mnull
  else
    msg <- gen_dns_msg (me_key e) (rrset_count r) ;;
    if negb (rrset_array_lock env (ref r) (rrset_count r) now) then mnull
    else
      cks <- copy_rrsets env (take (Z.to_nat (rrset_count r)) (rrsets r)) now ;;
      mret {| qinfo := qinfo msg;
              rep := {| rep_flags := rep_flags r;
                        qdcount := qdcount r;
                        rep_ttl := rep_ttl r;
                        an_numrrsets := an_numrrsets r;
                        ns_numrrsets := ns_numrrsets r;
                        ar_numrrsets := ar_numrrsets r;
                        rrset_count := rrset_count r;
                        rrsets := cks;
                        ref := [] |} |}.

(** The reply that [cname_msg] and [synth_dname_msg] set up around the
    copy [ck] of the RRset with data [d]: a reply without error, one
    answer RRset, the TTL that remains. *)
Definition one_rrset_reply (d : packed_rrset_data) (now : Z)
    (ck : ub_packed_rrset_key) : reply_info ub_packed_rrset_key :=
  {| rep_flags := BIT_QR;
     qdcount := 1;
     rep_ttl := wrap32 (d_ttl d - now);
     an_numrrsets := 1;
     ns_numrrsets := 0;
     ar_numrrsets := 0;
     rrset_count := 1;
     rrsets := [ck];
     ref := [] |}.

(** [cname_msg]. *)
Definition cname_msg (rrset : ub_packed_rrset_key) (now : Z)
    (q : query_info) : M dns_msg :=
  let d := entry_data rrset in
  if now >? d_ttl d then mnull
  else
    msg <- gen_dns_msg q 1 ;;
    ck <- copy_rrset rrset now ;;
    mret {| qinfo := qinfo msg; rep := one_rrset_reply d now ck |}.

(** The CNAME that [synth_dname_msg] builds: owner [q->qname], one record
    whose rdata is the length [newlen] followed by [newname]. *)
Definition synth_cname (rrset : ub_packed_rrset_key) (q : query_info)
    (newname : list Z) (newlen : Z) : ub_packed_rrset_key :=
  let ckrk := {| rk_dname := take (Z.to_nat (qname_len q)) (qname q);
                 rk_dname_len := qname_len q;
                 rk_flags := 0;
                 rk_type := htons LDNS_RR_TYPE_CNAME;
                 rk_rrset_class := rk_rrset_class (rk rrset) |} in
  let newd := {| d_ttl := 0;
                 d_count := 1;
                 d_rrsig_count := 0;
                 d_trust := rrset_trust_ans_noAA;
                 d_security := uninit_security;
                 rr_len := [wrap_size (newlen + 2)];
                 rr_ttl := [0];
                 rr_data := [ldns_write_uint16 newlen ++
                             take (Z.to_nat newlen) newname] |} in
  {| entry_hash := rrset_key_hash ckrk;
     entry_data := newd;
     id := uninit_word;
     rk := ckrk |}.

(** The length and the bytes of the name that [synth_dname_msg] puts
    together: the front of [q->qname], without the owner of the DNAME,
    and then the target of the DNAME. *)
Definition synth_newlen (rrset : ub_packed_rrset_key) (q : query_info)
    (dtarglen : Z) : Z :=
  wrap_size (qname_len q + dtarglen - rk_dname_len (rk rrset)).

Definition synth_newname (rrset : ub_packed_rrset_key) (q : query_info)
    (dtarg : list Z) (dtarglen : Z) : list Z :=
  let front := wrap_size (qname_len q - rk_dname_len (rk rrset)) in
  take (Z.to_nat front) (qname q) ++ take (Z.to_nat dtarglen) dtarg.

(** [msg->rep->flags |= LDNS_RCODE_YXDOMAIN]. *)
Definition rep_set_yxdomain {K} (r : reply_info K) : reply_info K :=
  mk_rep (Z.lor (rep_flags r) LDNS_RCODE_YXDOMAIN) (qdcount r) (rep_ttl r)
    (an_numrrsets r) (ns_numrrsets r) (ar_numrrsets r) (rrset_count r)
    (rrsets r) (ref r).

(** The last statements of [synth_dname_msg]: the CNAME becomes the second
    RRset, the TTL of the reply becomes that of the CNAME, and the two
    counters move up. *)
Definition rep_add_cname (r : reply_info ub_packed_rrset_key)
    (ck : ub_packed_rrset_key) : reply_info ub_packed_rrset_key :=
  {| rep_flags := rep_flags r;
     qdcount := qdcount r;
     rep_ttl := d_ttl (entry_data ck);
     an_numrrsets := wrap_size (an_numrrsets r + 1);
     ns_numrrsets := ns_numrrsets r;
     ar_numrrsets := ar_numrrsets r;
     rrset_count := wrap_size (rrset_count r + 1);
     rrsets := rrsets r ++ [ck];
     ref := ref r |}.

(** [synth_dname_msg]. *)
Definition synth_dname_msg (rrset : ub_packed_rrset_key) (now : Z)
    (q : query_info) : M dns_msg :=
  let d := entry_data rrset in
  if now >? d_ttl d then mnull
  else
    msg <- gen_dns_msg q 2 ;;
    ck0 <- copy_rrset rrset now ;;
    let rep0 := one_rrset_reply d now ck0 in
    match get_cname_target rrset with
    | None => mnull
    | Some (dtarg, dtarglen) =>
        let newlen := synth_newlen rrset q dtarglen in
        if newlen >? LDNS_MAX_DOMAINLEN then
          mret {| qinfo := qinfo msg; rep := rep_set_yxdomain rep0 |}
        else
          _ <- region_alloc ;;
          let newname := synth_newname rrset q dtarg dtarglen in
          _ <- region_alloc ;;
          _ <- region_alloc ;;
          _ <- region_alloc ;;
          let ck := synth_cname rrset q newname newlen in
          mret {| qinfo := qinfo msg; rep := rep_add_cname rep0 ck |}
    end.

(** The three attempts of [dns_cache_lookup], each NULL when it has no
    message to give: the message cache, a DNAME at the name or above it,
    a CNAME at the name. *)
Definition lookup_message (env : module_env) (k : query_info) (now : Z)
    : M dns_msg :=
  let h := query_info_hash k in
  match slabhash_lookup (msg_cache env) h k false with
  | Some e => tomsg env e (me_data e) now
  | None => mnull
  end.

Definition lookup_dname (env : module_env) (k : query_info) (now : Z)
    : M dns_msg :=
  match
    find_closest_of_type env (qname k) (qname_len k) (qclass k) now
      LDNS_RR_TYPE_DNAME
  with
  | Some rrset => synth_dname_msg rrset now k
  | None => mnull
  end.

Definition lookup_cname (env : module_env) (k : query_info) (now : Z)
    : M dns_msg :=
  match
    rrset_cache_lookup env (qname k) (qname_len k) LDNS_RR_TYPE_CNAME
      (qclass k) 0 now false
  with
  | Some rrset => cname_msg rrset now k
  | None => mnull
  end.

(** [dns_cache_lookup]. *)
Definition dns_cache_lookup (env : module_env) (qname : list Z)
    (qnamelen qtype qclass now : Z) : M dns_msg :=
  let k := {| qname := qname; qname_len := qnamelen;
              qtype := qtype; qclass := qclass |} in
  orelse (lookup_message env k now)
    (orelse (lookup_dname env k now)
       (orelse (lookup_cname env k now) mnull)).

End Serve.

(** ** Delegation points (iterator/iter_delegpt, services/cache/dns.c) *)

(** [struct delegpt_ns] and [struct delegpt], as far as the cache reads
    and fills them. *)
Record delegpt_ns : Type := mk_ns {
  ns_name : list Z;
  ns_namelen : Z
}.

Record delegpt : Type := mk_dp {
  dp_name : list Z;
  dp_namelen : Z;
  nslist : list delegpt_ns;
  target_list : list ub_packed_rrset_key
}.

(** Modelled from the spec: [delegpt_create] (iterator/iter_delegpt.c is
    not among the sources): an empty DelegationPoint in the caller's
    arena; NULL when the arena gives no memory. *)
Definition delegpt_create : M delegpt :=
  _ <- region_alloc ;;
  mret {| dp_name := []; dp_namelen := 0; nslist := []; target_list := [] |}.

(** Modelled from the spec: [delegpt_set_name] (iterator/iter_delegpt.c is
    not among the sources). "Initialize DelegationPoint at the NS rrset's
    owner": the name is copied into the arena. *)
Definition delegpt_set_name (dp : delegpt) (name : list Z) : M delegpt :=
  _ <- region_alloc ;;
  mret {| dp_name := name; dp_namelen := Z.of_nat (length name);
          nslist := nslist dp; target_list := target_list dp |}.

(** Modelled from the spec: [delegpt_rrset_add_ns] (iterator/iter_delegpt.c
    is not among the sources). "Populate its NS name list from the rdata":
    one nameserver per record, its name the rdata behind the 16-bit length;
    each takes memory from the arena, and the first failure ends the
    routine with 0, the names added so far staying in place. *)
Fixpoint delegpt_add_ns_each (dp : delegpt) (rdatas : list (list Z))
    : St (bool * delegpt) :=
  match rdatas with
  | [] => sret (true, dp)
  | rdata :: rdatas' =>
      ok <~ region_alloc ;;
      match ok with
      | None => sret (false, dp)
      | Some _ =>
          let name := drop 2 rdata in
          let ns := {| ns_name := name;
                       ns_namelen := Z.of_nat (length name) |} in
          delegpt_add_ns_each
            {| dp_name := dp_name dp; dp_namelen := dp_namelen dp;
               nslist := nslist dp ++ [ns];
               target_list := target_list dp |}
            rdatas'
      end
  end.

Definition delegpt_rrset_add_ns (dp : delegpt) (nskey : ub_packed_rrset_key)
    : St (bool * delegpt) :=
  let nsdata := entry_data nskey in
  delegpt_add_ns_each dp (take (Z.to_nat (d_count nsdata)) (rr_data nsdata)).

(** Modelled from the spec: [delegpt_add_rrset_A] and
    [delegpt_add_rrset_AAAA] (iterator/iter_delegpt.c is not among the
    sources), both as this one routine. "On each hit, attach to the
    DelegationPoint's address table"; "each address set is ... copied
    into the arena". *)
Definition delegpt_add_rrset (dp : delegpt) (akey : ub_packed_rrset_key)
    : St (bool * delegpt) :=
  ok <~ region_alloc ;;
  match ok with
  | None => sret (false, dp)
  | Some _ =>
      sret (true, {| dp_name := dp_name dp; dp_namelen := dp_namelen dp;
                     nslist := nslist dp;
                     target_list := target_list dp ++ [akey] |})
  end.

(** The two statements [msg->rep->rrsets[msg->rep->rrset_count] = ck] and
    [msg->rep->rrset_count++], with the section counter that goes with
    them. *)
Definition msg_push_ns (msg : dns_msg) (ck : ub_packed_rrset_key) : dns_msg :=
  let r := rep msg in
  {| qinfo := qinfo msg;
     rep := mk_rep (rep_flags r) (qdcount r) (rep_ttl r) (an_numrrsets r)
              (wrap_size (ns_numrrsets r + 1)) (ar_numrrsets r)
              (wrap_size (rrset_count r + 1)) (rrsets r ++ [ck]) (ref r) |}.

Definition msg_push_ar (msg : dns_msg) (ck : ub_packed_rrset_key) : dns_msg :=
  let r := rep msg in
  {| qinfo := qinfo msg;
     rep := mk_rep (rep_flags r) (qdcount r) (rep_ttl r) (an_numrrsets r)
              (ns_numrrsets r) (wrap_size (ar_numrrsets r + 1))
              (wrap_size (rrset_count r + 1)) (rrsets r ++ [ck]) (ref r) |}.

(** [addr_to_additional]. *)
Definition addr_to_additional (rrset : ub_packed_rrset_key) (msg : dns_msg)
    (now : Z) : St dns_msg :=
  ck <~ copy_rrset rrset now ;;
  match ck with
  | Some ck => sret (msg_push_ar msg ck)
  | None => sret msg
  end.

Section Delegation.
Context `{Host}.

(** One address type of one nameserver in [find_add_addrs]: [None] is the
    [return 0] of the source. *)
Definition find_add_addr (env : module_env) (qclass : Z) (ns : delegpt_ns)
    (atype : Z) (dp : delegpt) (now : Z) (msg : option dns_msg)
    : St (option (delegpt * option dns_msg)) :=
  match
    rrset_cache_lookup env (ns_name ns) (ns_namelen ns) atype qclass 0 now
      false
  with
  | Some akey =>
      added <~ delegpt_add_rrset dp akey ;;
      match added with
      | (false, _) => sret None
      | (true, dp') =>
          match msg with
          | Some m =>
              m' <~ addr_to_additional akey m now ;;
              sret (Some (dp', Some m'))
          | None => sret (Some (dp', None))
          end
      end
  | None => sret (Some (dp, msg))
  end.

(** [find_add_addrs]: the result carries the delegation point and the
    message as the routine leaves them, also when it answers 0. *)
Fixpoint find_add_addrs_loop (env : module_env) (qclass : Z)
    (nss : list delegpt_ns) (dp : delegpt) (now : Z) (msg : option dns_msg)
    : St (bool * delegpt * option dns_msg) :=
  match nss with
  | [] => sret (true, dp, msg)
  | ns :: nss' =>
      a <~ find_add_addr env qclass ns LDNS_RR_TYPE_A dp now msg ;;
      match a with
      | None => sret (false, dp, msg)
      | Some (dp1, msg1) =>
          aaaa <~ find_add_addr env qclass ns LDNS_RR_TYPE_AAAA dp1 now msg1 ;;
          match aaaa with
          | None => sret (false, dp1, msg1)
          | Some (dp2, msg2) =>
              find_add_addrs_loop env qclass nss' dp2 now msg2
          end
      end
  end.

Definition find_add_addrs (env : module_env) (qclass : Z) (dp : delegpt)
    (now : Z) (msg : option dns_msg) : St (bool * delegpt * option dns_msg) :=
  find_add_addrs_loop env qclass (nslist dp) dp now msg.

(** [find_add_ds]. *)
Definition find_add_ds (env : module_env) (msg : dns_msg) (dp : delegpt)
    (now : Z) : St dns_msg :=
  let rrset :=
    match
      rrset_cache_lookup env (dp_name dp) (dp_namelen dp) LDNS_RR_TYPE_DS
        (qclass (qinfo msg)) 0 now false
    with
    | Some rrset => Some rrset
    | None =>
        rrset_cache_lookup env (dp_name dp) (dp_namelen dp) LDNS_RR_TYPE_NSEC
          (qclass (qinfo msg)) 0 now false
    end in
  match rrset with
  | Some rrset =>
      ck <~ copy_rrset rrset now ;;
      match ck with
      | Some ck => sret (msg_push_ns msg ck)
      | None => sret msg
      end
  | None => sret msg
  end.

(** [create_msg]. *)
Definition create_msg (qname : list Z) (qnamelen qtype qclass : Z)
    (nskey : ub_packed_rrset_key) (nsdata : packed_rrset_data) (now : Z)
    : M dns_msg :=
  _ <- region_alloc ;;
  _ <- region_alloc ;;
  let qi := {| qname := take (Z.to_nat qnamelen) qname;
               qname_len := qnamelen; qtype := qtype; qclass := qclass |} in
  _ <- region_alloc ;;
  let rep0 : reply_info ub_packed_rrset_key :=
    mk_rep BIT_QR 1 0 0 0 0 0 [] [] in
  _ <- region_alloc ;;
  ck <- copy_rrset nskey now ;;
  mret (msg_push_ns {| qinfo := qi; rep := rep0 |} ck).

(** [dns_cache_find_delegation]. [want_msg] tells whether the caller
    passed a place for the referral message; the result is the delegation
    point and the message put there. *)
Definition dns_cache_find_delegation (env : module_env) (qname : list Z)
    (qnamelen qtype qclass now : Z) (want_msg : bool)
    : M (delegpt * option dns_msg) :=
  match
    find_closest_of_type env qname qnamelen qclass now LDNS_RR_TYPE_NS
  with
  | None => mnull
  | Some nskey =>
      let nsdata := entry_data nskey in
      dp <- delegpt_create ;;
      dp <- delegpt_set_name dp (rk_dname (rk nskey)) ;;
      msg <- (if want_msg then
                m <- create_msg qname qnamelen qtype qclass nskey nsdata now ;;
                mret (Some m)
              else mret None) ;;
      added <~ delegpt_rrset_add_ns dp nskey ;;
      let dp := snd added in
      msg <~ match msg with
             | Some m => m' <~ find_add_ds env m dp now ;; sret (Some m')
             | None => sret None
             end ;;
      found <~ find_add_addrs env qclass dp now msg ;;
      let '(_, dp, msg) := found in
      mret (dp, msg)
  end.

End Delegation.

(** ** Storing a reply (services/cache/dns.c) *)

Definition rep_with_ref {K} (r : reply_info K) (refs : list rrset_ref)
    : reply_info K :=
  mk_rep (rep_flags r) (qdcount r) (rep_ttl r) (an_numrrsets r)
    (ns_numrrsets r) (ar_numrrsets r) (rrset_count r) (rrsets r) refs.

Definition rep_with_rrsets {K} (r : reply_info K) (keys : list K)
    : reply_info K :=
  mk_rep (rep_flags r) (qdcount r) (rep_ttl r) (an_numrrsets r)
    (ns_numrrsets r) (ar_numrrsets r) (rrset_count r) keys (ref r).

Definition rep_with_ttl {K} (r : reply_info K) (ttl : Z) : reply_info K :=
  mk_rep (rep_flags r) (qdcount r) ttl (an_numrrsets r)
    (ns_numrrsets r) (ar_numrrsets r) (rrset_count r) (rrsets r) (ref r).

Definition key_with_data (k : ub_packed_rrset_key) (d : packed_rrset_data)
    : ub_packed_rrset_key :=
  {| entry_hash := entry_hash k; entry_data := d; id := id k; rk := rk k |}.

Definition key_with_id (k : ub_packed_rrset_key) (i : Z)
    : ub_packed_rrset_key :=
  {| entry_hash := entry_hash k; entry_data := entry_data k; id := i;
     rk := rk k |}.

Definition env_with_heap (env : module_env)
    (h : gmap ptr ub_packed_rrset_key) : module_env :=
  {| msg_cache := msg_cache env; rrset_cache := rrset_cache env; heap := h;
     next_id := next_id env |}.

(** [key->id] read through a pointer. *)
Definition obj_id (h : gmap ptr ub_packed_rrset_key) (p : ptr) : Z :=
  from_option id 0 (h !! p).

(** The order of two references by the keys they point to. *)
Definition ref_le (h : gmap ptr ub_packed_rrset_key) (a b : rrset_ref)
    : bool :=
  match h !! ref_key a, h !! ref_key b with
  | Some ka, Some kb => ub_rrset_compare (rk ka) (rk kb) <=? 0
  | None, _ => true
  | Some _, None => false
  end.

Fixpoint ref_insert (h : gmap ptr ub_packed_rrset_key) (a : rrset_ref)
    (l : list rrset_ref) : list rrset_ref :=
  match l with
  | [] => [a]
  | b :: l' => if ref_le h a b then a :: l else b :: ref_insert h a l'
  end.

(** Modelled from the spec: [reply_info_sortref] (util/data/msgreply.c is
    not among the sources). The references of a reply are "sorted by a
    total order on RRsetKey", the order of [ub_rrset_compare]. *)
Definition reply_info_sortref (env : module_env) (rep : reply_info ptr)
    : reply_info ptr :=
  let n := Z.to_nat (rrset_count rep) in
  rep_with_ref rep
    (foldr (ref_insert (heap env)) [] (take n (ref rep)) ++ drop n (ref rep)).

(** Modelled from the spec: [reply_info_set_ttls] (util/data/msgreply.c is
    not among the sources). TTLs are "absolute in cache": the reply's [ttl]
    and, once for every RRset object the reply refers to, the TTLs of the
    RRset ([packed_rrset_ttl_add]) are moved from seconds to expiry
    times. *)
Definition reply_info_set_ttls (env : module_env) (rep : reply_info ptr)
    (timenow : Z) : module_env * reply_info ptr :=
  let n := Z.to_nat (rrset_count rep) in
  let keys := remove_dups (ref_key <$> take n (ref rep)) in
  let h :=
    foldl
      (fun h p =>
         match h !! p with
         | Some k =>
             <[p := key_with_data k
                      (packed_rrset_ttl_add (entry_data k) timenow)]> h
         | None => h
         end)
      (heap env) keys in
  (env_with_heap env h, rep_with_ttl rep (wrap32 (rep_ttl rep + timenow))).

(** Per-record maximum of two TTL arrays. *)
Definition data_max_ttl (old new : packed_rrset_data) : packed_rrset_data :=
  {| d_ttl := Z.max (d_ttl old) (d_ttl new);
     d_count := d_count old;
     d_rrsig_count := d_rrsig_count old;
     d_trust := d_trust old;
     d_security := d_security old;
     rr_len := rr_len old;
     rr_ttl := zip_with Z.max (rr_ttl old) (rr_ttl new);
     rr_data := rr_data old |}.

(** The address in the table of the entry with the key of [k]. *)
Definition rrset_cache_find (env : module_env) (key : packed_rrset_key)
    : option ptr :=
  snd <$> list_find
    (fun q =>
       match heap env !! q with
       | Some e => ub_rrset_compare (rk e) key =? 0
       | None => false
       end = true)
    (rrset_cache env).

(** Modelled from the spec: [rrset_cache_update] (services/cache/rrset.c is
    not among the sources), the spec's [insert(ref, allocator, now)]:
    - no entry with the key: "install the new one, assign a fresh non-zero
      id, write it into ref.id" (the counter [next_id] starts above 0);
    - an entry with "strictly higher trust" is kept, and the reference is
      set to its key and id;
    - otherwise, data that is equal ([rrsetdata_equal]) only raises the
      TTLs of the entry "to the max of existing and new per-record TTLs";
    - otherwise the data is replaced "in place, bumping id".
    "Return value tells the caller whether to adopt the store's existing
    key." Eviction, which belongs to the hash table, is left out. *)
Definition rrset_cache_update (env : module_env) (r : rrset_ref) (now : Z)
    : module_env * rrset_ref * bool :=
  match heap env !! ref_key r with
  | None => (env, r, false)
  | Some k =>
      match rrset_cache_find env (rk k) with
      | None =>
          let i := next_id env in
          ({| msg_cache := msg_cache env;
              rrset_cache := ref_key r :: rrset_cache env;
              heap := <[ref_key r := key_with_id k i]> (heap env);
              next_id := i + 1 |},
           {| ref_key := ref_key r; ref_id := i |}, false)
      | Some q =>
          match heap env !! q with
          | None => (env, r, false)
          | Some e =>
              if trust_rank (d_trust (entry_data e)) >?
                 trust_rank (d_trust (entry_data k))
              then (env, {| ref_key := q; ref_id := id e |}, true)
              else if rrsetdata_equal (entry_data k) (entry_data e) then
                (env_with_heap env
                   (<[q := key_with_data e
                             (data_max_ttl (entry_data e) (entry_data k))]>
                      (heap env)),
                 {| ref_key := q; ref_id := id e |}, true)
              else
                let i := next_id env in
                ({| msg_cache := msg_cache env;
                    rrset_cache := rrset_cache env;
                    heap := <[q := key_with_id
                                      (key_with_data e (entry_data k)) i]>
                              (heap env);
                    next_id := i + 1 |},
                 {| ref_key := q; ref_id := i |}, true)
          end
      end
  end.

(** One round of the loop of [store_rrsets]. *)
Definition store_rrsets_step (now : Z) (st : module_env * reply_info ptr)
    (i : nat) : module_env * reply_info ptr :=
  let '(env, rep) := st in
  match rrsets rep !! i with
  | None => st
  | Some p =>
      let r := {| ref_key := p; ref_id := obj_id (heap env) p |} in
      let '(env', r', in_cache) := rrset_cache_update env r now in
      let rep1 := rep_with_ref rep (<[i := r']> (ref rep)) in
      (env',
       if in_cache then rep_with_rrsets rep1 (<[i := ref_key r']> (rrsets rep1))
       else rep1)
  end.

(** [store_rrsets]. *)
Definition store_rrsets (env : module_env) (rep : reply_info ptr) (now : Z)
    : module_env * reply_info ptr :=
  foldl (store_rrsets_step now) (env, rep)
    (seq 0 (Z.to_nat (rrset_count rep))).

(** Modelled from the spec: [query_info_entrysetup] (util/data/msgreply.c
    is not among the sources): the entry that the message store installs
    for a query and its reply; NULL when [malloc] fails. *)
Definition query_info_entrysetup (malloc_ok : bool) (q : query_info)
    (rep : reply_info ptr) (h : Z) : option msgreply_entry :=
  if malloc_ok then Some {| me_key := q; me_hash := h; me_data := rep |}
  else None.

(** Modelled from the spec: [slabhash_insert] on the message cache (the
    hash table is not among the sources). "store(qkey, reply_info):
    installs the entry", in the place of an entry with the same key. *)
Definition slabhash_insert (cache : list msgreply_entry) (h : Z)
    (e : msgreply_entry) : list msgreply_entry :=
  e :: filter
         (fun e' =>
            ((me_hash e' =? h) && query_info_compare (me_key e') (me_key e))
            = false)
         cache.

(** [dns_cache_store_msg]. The reply is changed in place, so it is handed
    back next to the environment. [malloc_ok] is the outcome of the
    [malloc] in [query_info_entrysetup]. *)
Definition dns_cache_store_msg (env : module_env) (qinfo : query_info)
    (hash : Z) (rep : reply_info ptr) (now : Z) (malloc_ok : bool)
    : module_env * reply_info ptr :=
  let ttl := rep_ttl rep in
  let n := Z.to_nat (rrset_count rep) in
  let rep :=
    rep_with_ref rep
      ((fun p => {| ref_key := p; ref_id := obj_id (heap env) p |})
         <$> take n (rrsets rep)) in
  let rep := reply_info_sortref env rep in
  let '(env, rep) := reply_info_set_ttls env rep now in
  let '(env, rep) := store_rrsets env rep now in
  if ttl =? 0 then (env, rep)
  else
    let rep := reply_info_sortref env rep in
    match query_info_entrysetup malloc_ok qinfo rep hash with
    | None => (env, rep)
    | Some e =>
        ({| msg_cache := slabhash_insert (msg_cache env) hash e;
            rrset_cache := rrset_cache env;
            heap := heap env;
            next_id := next_id env |}, rep)
    end.

(** ** Vocabulary of the statements *)

(** [m] needs exactly the next [n] allocations: if they all succeed it
    yields [a] and leaves the rest of the region, and if one of them fails
    it yields NULL. *)
Definition takes {A} (m : M A) (n : nat) (a : A) : Prop :=
  forall r,
    if region_ok n r then m r = (Some a, drop n r) else (m r).1 = None.

(** The wire form of a name given by its labels, and the names obtained
    by taking labels off the front, the name itself first and the root
    last. *)
Definition wire (labels : list (list Z)) : list Z :=
  concat ((fun l => Z.of_nat (length l) :: l) <$> labels) ++ [0].

Fixpoint suffixes {A} (l : list A) : list (list A) :=
  l :: match l with
       | [] => []
       | _ :: l' => suffixes l'
       end.

Definition ancestors (labels : list (list Z)) : list (list Z) :=
  wire <$> suffixes labels.

(** A label has a length that fits its length byte. *)
Definition label_ok (l : list Z) : Prop := (0 < length l < 256)%nat.

(** The first element of a list on which [f] has a result. *)
Fixpoint first_hit {A B} (f : A -> option B) (l : list A) : option B :=
  match l with
  | [] => None
  | a :: l' =>
      match f a with
      | Some b => Some b
      | None => first_hit f l'
      end
  end.

(** ** Example data *)

(** A little-endian host whose hash functions ignore their input and whose
    fresh memory is zero. *)
Definition example_host : Host :=
  {| big_endian := false;
     dname_query_hash := fun _ h => h;
     hashlittle := fun _ h => h;
     query_info_hash_of := fun _ _ _ _ => 0;
     uninit_word := 0;
     uninit_security := sec_status_unchecked |}.

Definition lbl_www : list Z := [119; 119; 119].
Definition lbl_old : list Z := [111; 108; 100].
Definition lbl_example : list Z := [101; 120; 97; 109; 112; 108; 101].
Definition lbl_com : list Z := [99; 111; 109].
Definition lbl_net : list Z := [110; 101; 116].
Definition lbl_ns1 : list Z := [110; 115; 49].
Definition lbl_long : list Z := replicate 63 97.

Definition www_example_com : list Z := wire [lbl_www; lbl_example; lbl_com].
Definition old_example_com : list Z := wire [lbl_old; lbl_example; lbl_com].
Definition example_com : list Z := wire [lbl_example; lbl_com].
Definition example_net : list Z := wire [lbl_example; lbl_net].
Definition ns1_example_com : list Z := wire [lbl_ns1; lbl_example; lbl_com].
Definition long_target : list Z := wire [lbl_long; lbl_example; lbl_net].

Definition CLASS_IN : Z := 1.

(** An RRset with one record, stored with expiry time [ttl]; [rdata] is
    the record without its length prefix. *)
Definition example_rrset (owner : list Z) (type : Z) (rdata : list Z)
    (ttl ident : Z) (trust : rrset_trust) : ub_packed_rrset_key :=
  {| entry_hash := 0;
     entry_data :=
       {| d_ttl := ttl; d_count := 1; d_rrsig_count := 0; d_trust := trust;
          d_security := sec_status_unchecked;
          rr_len := [Z.of_nat (length rdata) + 2];
          rr_ttl := [ttl];
          rr_data := [ldns_write_uint16 (Z.of_nat (length rdata)) ++ rdata] |};
     id := ident;
     rk := {| rk_dname := owner;
              rk_dname_len := Z.of_nat (length owner);
              rk_flags := 0;
              rk_type := @htons example_host type;
              rk_rrset_class := @htons example_host CLASS_IN |} |}.

Definition dname_example_com : ub_packed_rrset_key :=
  example_rrset example_com LDNS_RR_TYPE_DNAME example_net 3700 1
    rrset_trust_ans_AA.

Definition cname_www_example_com : ub_packed_rrset_key :=
  example_rrset www_example_com LDNS_RR_TYPE_CNAME old_example_com 3700 2
    rrset_trust_ans_AA.

Definition dname_long_target : ub_packed_rrset_key :=
  example_rrset example_com LDNS_RR_TYPE_DNAME long_target 3700 1
    rrset_trust_ans_AA.

(** The cache of the spec's third scenario: a DNAME at example.com. and a
    CNAME at www.example.com. *)
Definition env_dname_cname : module_env :=
  {| msg_cache := [];
     rrset_cache := [2; 1]%nat;
     heap := <[2%nat := cname_www_example_com]>
               (<[1%nat := dname_example_com]> ∅);
     next_id := 3 |}.


(** The fourth edge case of the lookup as the spec words it: with a DNAME
    cached at the name itself and the query type DNAME, the message
    answered holds "just the DNAME with no CNAME". *)
Definition dname_at_owner_degenerates `{Host} (env : module_env)
    (qname : list Z) (qnamelen qclass now : Z) (r : region) : Prop :=
  forall rrset msg r',
    rrset_cache_lookup env qname qnamelen LDNS_RR_TYPE_DNAME qclass 0 now false
      = Some rrset ->
    dns_cache_lookup env qname qnamelen LDNS_RR_TYPE_DNAME qclass now r
      = (Some msg, r') ->
    rrsets (rep msg) = [rrset_copy rrset now].

(** The key under which the RRset cache is asked for an RRset. *)
Definition lookup_key `{Host} (qname : list Z) (qnamelen qtype qclass flags : Z)
    : packed_rrset_key :=
  {| rk_dname := qname; rk_dname_len := qnamelen; rk_flags := flags;
     rk_type := htons qtype; rk_rrset_class := htons qclass |}.

(** Every RRset that the RRset cache holds under [key] has an expiry time
    [ttl <= now]. *)
Definition rrset_expired_under (env : module_env) (key : packed_rrset_key)
    (now : Z) : Prop :=
  forall p e,
    p ∈ rrset_cache env -> heap env !! p = Some e ->
    ub_rrset_compare (rk e) key = 0 ->
    d_ttl (entry_data e) <= now.

(** The error-handling rule of the spec for expired entries, as it is
    worded: a lookup at time [now] treats an entry whose expiry time
    satisfies [ttl <= now] as a miss and goes on with the next step. For
    the message of the query the next steps are the DNAME walk and the
    CNAME; a DNAME step all of whose DNAME RRsets have expired, and a CNAME
    step whose CNAME has expired, answer NULL and leave the region as it
    is. *)
Definition expired_entries_refused `{Host} (now : Z) : Prop :=
  (forall env qname qnamelen qtype qclass region e,
     let k := mk_qinfo qname qnamelen qtype qclass in
     slabhash_lookup (msg_cache env) (query_info_hash k) k false = Some e ->
     rep_ttl (me_data e) <= now ->
     dns_cache_lookup env qname qnamelen qtype qclass now region =
     orelse (lookup_dname env k now) (orelse (lookup_cname env k now) mnull)
       region) /\
  (forall env k region,
     (forall nm len,
        rrset_expired_under env
          (lookup_key nm len LDNS_RR_TYPE_DNAME (qclass k) 0) now) ->
     lookup_dname env k now region = (None, region)) /\
  (forall env k region,
     rrset_expired_under env
       (lookup_key (qname k) (qname_len k) LDNS_RR_TYPE_CNAME (qclass k) 0)
       now ->
     lookup_cname env k now region = (None, region)).

(** The rule of the spec for allocation failures in the delegation
    search, as it is worded: once the NS RRset is found, the delegation
    point is handed back whatever allocation fails. *)
Definition delegation_survives_allocation_failure `{Host} (env : module_env)
    (qname : list Z) (qnamelen qtype qclass now : Z) (want_msg : bool) : Prop :=
  forall nskey r,
    find_closest_of_type env qname qnamelen qclass now LDNS_RR_TYPE_NS
      = Some nskey ->
    exists dp msg r',
      dns_cache_find_delegation env qname qnamelen qtype qclass now want_msg r
        = (Some (dp, msg), r').

(** The part of [dns_cache_find_delegation] whose failures end it with
    NULL: the delegation point, its name and, if asked for, the referral
    message. *)
Definition delegation_setup `{Host} (qname : list Z)
    (qnamelen qtype qclass now : Z) (want_msg : bool)
    (nskey : ub_packed_rrset_key) : M (delegpt * option dns_msg) :=
  dp <- delegpt_create ;;
  dp <- delegpt_set_name dp (rk_dname (rk nskey)) ;;
  msg <- (if want_msg then
            m <- create_msg qname qnamelen qtype qclass nskey
                   (entry_data nskey) now ;;
            mret (Some m)
          else mret None) ;;
  mret (dp, msg).

(** What the setup hands on when its allocations succeed: a delegation
    point that has its name and nothing else, and the referral message
    of [create_msg], whose only RRset is the copy of the NS RRset. *)
Definition delegation_setup_result (qname : list Z)
    (qnamelen qtype qclass now : Z) (want_msg : bool)
    (nskey : ub_packed_rrset_key) : delegpt * option dns_msg :=
  ({| dp_name := rk_dname (rk nskey);
      dp_namelen := Z.of_nat (length (rk_dname (rk nskey)));
      nslist := []; target_list := [] |},
   if want_msg then
     Some (msg_push_ns
             {| qinfo := {| qname := take (Z.to_nat qnamelen) qname;
                            qname_len := qnamelen; qtype := qtype;
                            qclass := qclass |};
                rep := mk_rep BIT_QR 1 0 0 0 0 0 [] [] |}
             (rrset_copy nskey now))
   else None).

(** The number of allocations of the setup. *)
Definition delegation_setup_allocs (want_msg : bool) : nat :=
  if want_msg then 9%nat else 2%nat.

(** The rest of [dns_cache_find_delegation], whose failures are only
    logged. *)
Definition delegation_fill `{Host} (env : module_env) (qclass now : Z)
    (nskey : ub_packed_rrset_key) (dp : delegpt) (msg : option dns_msg)
    : St (delegpt * option dns_msg) :=
  added <~ delegpt_rrset_add_ns dp nskey ;;
  let dp := snd added in
  msg <~ match msg with
         | Some m => m' <~ find_add_ds env m dp now ;; sret (Some m')
         | None => sret None
         end ;;
  found <~ find_add_addrs env qclass dp now msg ;;
  let '(_, dp, msg) := found in
  sret (dp, msg).

(** A cache with the delegation of example.com. to ns1.example.com. and
    the address of that nameserver. *)
Definition ns_example_com : ub_packed_rrset_key :=
  example_rrset example_com LDNS_RR_TYPE_NS ns1_example_com 3700 1
    rrset_trust_auth_noAA.

Definition a_ns1_example_com : ub_packed_rrset_key :=
  example_rrset ns1_example_com LDNS_RR_TYPE_A [192; 0; 2; 1] 3700 2
    rrset_trust_add_noAA.

Definition env_delegation : module_env :=
  {| msg_cache := [];
     rrset_cache := [1; 2]%nat;
     heap := <[2%nat := a_ns1_example_com]> (<[1%nat := ns_example_com]> ∅);
     next_id := 3 |}.

(** A cache whose message for example.com. A expires at time 100, while
    the RRset the message refers to lives until 200. *)
Definition a_example_com : ub_packed_rrset_key :=
  example_rrset example_com LDNS_RR_TYPE_A [192; 0; 2; 1] 200 1
    rrset_trust_ans_AA.

Definition msg_example_com : msgreply_entry :=
  {| me_key := mk_qinfo example_com 13 LDNS_RR_TYPE_A CLASS_IN;
     me_hash := 0;
     me_data := mk_rep BIT_QR 1 100 1 0 0 1 [1%nat] [mk_ref 1%nat 1] |}.

Definition env_message : module_env :=
  {| msg_cache := [msg_example_com];
     rrset_cache := [1]%nat;
     heap := <[1%nat := a_example_com]> ∅;
     next_id := 2 |}.

(** The caches before anything is stored. *)
Definition env_empty : module_env :=
  {| msg_cache := []; rrset_cache := []; heap := ∅; next_id := 1 |}.

(** The invariants of the spec on what the caches hold. An RRset has one
    TTL per record, each a [uint32_t], and its own [ttl] is the least of
    them; the RRsets of a stored reply are among its references. *)
Definition ttl_is_min (d : packed_rrset_data) : Prop :=
  Forall (fun t => d_ttl d <= t) (rr_ttl d) /\
  (rr_ttl d <> [] -> d_ttl d ∈ rr_ttl d).

Definition data_wf (d : packed_rrset_data) : Prop :=
  length (rr_ttl d) = Z.to_nat (wrap_size (d_count d + d_rrsig_count d)) /\
  Forall (fun t => 0 <= t < 2 ^ 32) (rr_ttl d) /\
  ttl_is_min d.

Definition reply_refs_cover (r : reply_info ptr) : Prop :=
  Forall
    (fun p => p ∈ ref_key <$> take (Z.to_nat (rrset_count r)) (ref r))
    (take (Z.to_nat (rrset_count r)) (rrsets r)).

Definition cache_wf (env : module_env) : Prop :=
  map_Forall (fun _ k => data_wf (entry_data k)) (heap env) /\
  Forall (fun e => reply_refs_cover (me_data e)) (msg_cache env).

(** [served] is the copy of the cache object [stored] made at time
    [now], and each of its TTLs is the TTL of the stored record less
    [now], without wrap-around, hence at most the stored TTL. *)
Definition rebased_from (now : Z) (stored served : ub_packed_rrset_key)
    : Prop :=
  served = rrset_copy stored now /\
  Forall2 (fun s t => s = t - now /\ 0 <= s <= t)
    (rr_ttl (entry_data served)) (rr_ttl (entry_data stored)).

(** The RRset cache holds an entry under [key]. *)
Definition rrset_cached (env : module_env) (key : packed_rrset_key) : Prop :=
  exists q e,
    q ∈ rrset_cache env /\ heap env !! q = Some e /\
    ub_rrset_compare (rk e) key = 0.

(** From [env0] to [env] the message cache is the same, every key object
    is still there under its key fields, and the RRset cache has an entry
    for every key it had one for. *)
Definition env_extends (env0 env : module_env) : Prop :=
  msg_cache env = msg_cache env0 /\
  (forall q e, heap env0 !! q = Some e ->
     exists e', heap env !! q = Some e' /\ rk e' = rk e) /\
  (forall key, rrset_cached env0 key -> rrset_cached env key).

(** A reply with TTL 0 that carries the NS RRset of example.com., as the
    parser hands it over: the TTLs are still in seconds. *)
Definition ns_example_com_fresh : ub_packed_rrset_key :=
  example_rrset example_com LDNS_RR_TYPE_NS ns1_example_com 60 1
    rrset_trust_auth_noAA.

Definition env_before_store : module_env :=
  {| msg_cache := []; rrset_cache := [];
     heap := <[1%nat := ns_example_com_fresh]> ∅; next_id := 2 |}.

Definition reply_ttl_zero : reply_info ptr :=
  mk_rep BIT_QR 1 0 0 1 0 1 [1%nat] [mk_ref 0%nat 0].

(** The first scenario of the spec: a reply for example.com. A with one
    address and 300 seconds to live, stored at time 1000; and a second
    reply, with TTL 0, that brings another address for the same name. *)
Definition a_example_com_fresh : ub_packed_rrset_key :=
  example_rrset example_com LDNS_RR_TYPE_A [192; 0; 2; 1] 300 0
    rrset_trust_ans_AA.

Definition a_example_com_other : ub_packed_rrset_key :=
  example_rrset example_com LDNS_RR_TYPE_A [192; 0; 2; 2] 300 0
    rrset_trust_ans_AA.

Definition query_example_com_a : query_info :=
  mk_qinfo example_com 13 LDNS_RR_TYPE_A CLASS_IN.

Definition env_round_trip : module_env :=
  (dns_cache_store_msg
     {| msg_cache := []; rrset_cache := [];
        heap := <[2%nat := a_example_com_other]>
                  (<[1%nat := a_example_com_fresh]> ∅);
        next_id := 1 |}
     query_example_com_a 0
     (mk_rep BIT_QR 1 300 1 0 0 1 [1%nat] [mk_ref 0%nat 0]) 1000 true).1.

Definition env_replaced : module_env :=
  (dns_cache_store_msg env_round_trip query_example_com_a 0
     (mk_rep BIT_QR 1 0 1 0 0 1 [2%nat] [mk_ref 0%nat 0]) 1000 true).1.

(** The same address stored twice at time 1000: first in a reply with 300
    seconds to live, then, with 400 seconds to live, in a reply with TTL
    0. The data being equal, the second store only raises the TTLs of the
    RRset. *)
Definition a_example_com_longer : ub_packed_rrset_key :=
  example_rrset example_com LDNS_RR_TYPE_A [192; 0; 2; 1] 400 0
    rrset_trust_ans_AA.

Definition env_ttl_raised : module_env :=
  let env0 :=
    {| msg_cache := []; rrset_cache := [];
       heap := <[3%nat := a_example_com_longer]>
                 (<[1%nat := a_example_com_fresh]> ∅);
       next_id := 1 |} in
  let env1 :=
    (dns_cache_store_msg env0 query_example_com_a 0
       (mk_rep BIT_QR 1 300 1 0 0 1 [1%nat] [mk_ref 0%nat 0]) 1000 true).1 in
  (dns_cache_store_msg env1 query_example_com_a 0
     (mk_rep BIT_QR 1 0 1 0 0 1 [3%nat] [mk_ref 0%nat 0]) 1000 true).1.

(** ** Further routines of util/data/packed_rrset *)

(** [ub_rrset_key_delete], the callback of the RRset table for a key it
    lets go: the id becomes 0 and the name is freed (the pointer is set to
    NULL, here the empty list). The object itself goes back to the
    allocator of keys and stays where references can still find it. *)
Definition ub_rrset_key_delete (k : ub_packed_rrset_key)
    : ub_packed_rrset_key :=
  {| entry_hash := entry_hash k;
     entry_data := entry_data k;
     id := 0;
     rk := {| rk_dname := [];
              rk_dname_len := rk_dname_len (rk k);
              rk_flags := rk_flags (rk k);
              rk_type := rk_type (rk k);
              rk_rrset_class := rk_rrset_class (rk k) |} |}.

(** The arrays of an RRset hold an entry for each of its [count +
    rrsig_count] records. *)
Definition arrays_complete (d : packed_rrset_data) : Prop :=
  (Z.to_nat (wrap_size (d_count d + d_rrsig_count d)) <= length (rr_len d))%nat /\
  (Z.to_nat (wrap_size (d_count d + d_rrsig_count d)) <= length (rr_data d))%nat.

(** A cache that holds the CNAME of www.example.com. and nothing else. *)
Definition env_cname : module_env :=
  {| msg_cache := []; rrset_cache := [1]%nat;
     heap := <[1%nat := cname_www_example_com]> ∅; next_id := 2 |}.

(** The cache of [env_message] after the RRset table has let the address
    of example.com. go. *)
Definition env_message_deleted : module_env :=
  {| msg_cache := [msg_example_com]; rrset_cache := [];
     heap := <[1%nat := ub_rrset_key_delete a_example_com]> ∅;
     next_id := 2 |}.

(** The shape of a referral message under construction: flags QR only,
    one question, no answer RRset, [first] as its first RRset, [ns]
    authority and [ar] additional RRsets, and these are all the RRsets
    its array holds. *)
Definition referral_shape (msg : dns_msg) (first : ub_packed_rrset_key)
    (ns ar : Z) : Prop :=
  rep_flags (rep msg) = BIT_QR /\
  qdcount (rep msg) = 1 /\
  an_numrrsets (rep msg) = 0 /\
  ns_numrrsets (rep msg) = ns /\
  ar_numrrsets (rep msg) = ar /\
  rrset_count (rep msg) = ns + ar /\
  Z.of_nat (length (rrsets (rep msg))) = ns + ar /\
  head (rrsets (rep msg)) = Some first.

(** Every address set of the delegation point's table is what the RRset
    cache holds, unexpired, as the A or AAAA RRset of one of the
    nameservers [nss]. *)
Definition table_from_cache `{Host} (env : module_env) (cl now : Z)
    (nss : list delegpt_ns) (dp : delegpt) : Prop :=
  forall a, a ∈ target_list dp ->
    exists ns atype,
      ns ∈ nss /\
      (atype = LDNS_RR_TYPE_A \/ atype = LDNS_RR_TYPE_AAAA) /\
      rrset_cache_lookup env (ns_name ns) (ns_namelen ns) atype cl 0 now false
        = Some a.

(** The RRsets of the referral message are the authority RRsets [auth]
    followed by copies of address sets of the table, in the table's
    order. *)
Definition additional_from_table (now : Z) (auth : list ub_packed_rrset_key)
    (dp : delegpt) (msg : option dns_msg) : Prop :=
  match msg with
  | Some m =>
      ns_numrrsets (rep m) = Z.of_nat (length auth) /\
      exists l,
        sublist l (target_list dp) /\
        rrsets (rep m) = auth ++ ((fun k => rrset_copy k now) <$> l)
  | None => True
  end.

(** The same with no address set left out. *)
Definition additional_is_table (now : Z) (auth : list ub_packed_rrset_key)
    (dp : delegpt) (msg : option dns_msg) : Prop :=
  match msg with
  | Some m =>
      rrsets (rep m) = auth ++ ((fun k => rrset_copy k now) <$> target_list dp)
  | None => True
  end.

(** No allocation from the region fails. *)
Definition region_sound (r : region) : Prop := Forall (fun ok => ok = true) r.

(** Every message of the message cache has a reference for each of its
    RRset pointers. *)
Definition messages_covered (env : module_env) : Prop :=
  Forall (fun e => reply_refs_cover (me_data e)) (msg_cache env).

(** Reference [i] of the reply names the key object that RRset pointer
    [i] points to, for each of the first [n] places both arrays have. *)
Definition refs_aligned (n : nat) (r : reply_info ptr) : Prop :=
  forall i p, (i < n)%nat -> rrsets r !! i = Some p ->
    ref_key <$> ref r !! i = Some p.

(** ** The packed layout of RRset data (util/data/packed_rrset.c)

    The data of an RRset is one block: the structure, then the array of
    lengths, the array of pointers to the records, the array of TTLs and
    the records themselves. Addresses are counted in bytes from the start
    of the block; [hdr] is [sizeof(struct packed_rrset_data)]. A length
    and a pointer take 8 bytes, a TTL 4. *)

(** The loop of [packed_rrset_ptr_fixup]: [rr_data[i] = nextrdata;
    nextrdata += rr_len[i]]. *)
Fixpoint fixup_rdata (lens : list Z) (nextrdata : Z) : list Z :=
  match lens with
  | [] => []
  | len :: lens' => nextrdata :: fixup_rdata lens' (wrap_size (nextrdata + len))
  end.

Record packed_layout : Type := mk_layout {
  at_rr_len : Z;
  at_rr_data : Z;
  at_rr_ttl : Z;
  at_rdata : list Z
}.

(** [packed_rrset_ptr_fixup]: where the three arrays start, and the
    pointers written into [rr_data]. *)
Definition packed_rrset_ptr_fixup (hdr : Z) (data : packed_rrset_data)
    : packed_layout :=
  let total := wrap_size (d_count data + d_rrsig_count data) in
  let rr_len_at := hdr in
  let rr_data_at := wrap_size (rr_len_at + 8 * total) in
  let rr_ttl_at := wrap_size (rr_data_at + 8 * total) in
  let nextrdata := wrap_size (rr_ttl_at + 4 * total) in
  {| at_rr_len := rr_len_at; at_rr_data := rr_data_at; at_rr_ttl := rr_ttl_at;
     at_rdata := fixup_rdata (take (Z.to_nat total) (rr_len data)) nextrdata |}.

(** [packed_rrset_sizeof], given the pointers in [rr_data]: [None] where
    the assertion [d->count > 0] fails or the source reads outside the
    arrays. *)
Definition packed_rrset_sizeof (rdata_at : list Z) (d : packed_rrset_data)
    : option Z :=
  let size_at (i : Z) :=
    match rdata_at !! Z.to_nat i, rr_len d !! Z.to_nat i with
    | Some p, Some len => Some (wrap_size (p + len))
    | _, _ => None
    end in
  if d_rrsig_count d >? 0 then
    size_at (wrap_size (d_count d + d_rrsig_count d - 1))
  else if d_count d >? 0 then size_at (wrap_size (d_count d - 1))
  else None.

(** The bytes of all records together. *)
Definition rdata_bytes (lens : list Z) : Z := foldr Z.add 0 lens.

(** ** A reply on its way through the store *)

(** The key object [k] as the store leaves it in the RRset cache: TTLs
    moved to expiry times, and the id [i]. *)
Definition stored_key (k : ub_packed_rrset_key) (now i : Z)
    : ub_packed_rrset_key :=
  key_with_id (key_with_data k (packed_rrset_ttl_add (entry_data k) now)) i.

(** A reply as the parser hands it over, with RRsets new to the cache:
    the array holds [rrset_count] pointers, they point to the key
    objects [ks], no two of which have the same key, and the RRset cache
    has no entry under any of these keys. *)
Definition fresh_reply (env : module_env) (rep : reply_info ptr)
    (ks : list ub_packed_rrset_key) : Prop :=
  rrset_count rep = Z.of_nat (length (rrsets rep)) /\
  Forall2 (fun p k => heap env !! p = Some k) (rrsets rep) ks /\
  (forall i j ki kj, i <> j -> ks !! i = Some ki -> ks !! j = Some kj ->
     ub_rrset_compare (rk ki) (rk kj) <> 0) /\
  Forall (fun k => ~ rrset_cached env (rk k)) ks.

(** The loop of [store_rrsets] after [i] rounds on a fresh reply with
    pointers [ps] to the keys [ks], started in [env0]. *)
Definition store_progress (env0 : module_env) (now : Z) (ps : list ptr)
    (ks : list ub_packed_rrset_key) (i : nat) (env : module_env)
    (rep : reply_info ptr) : Prop :=
  msg_cache env = msg_cache env0 /\
  (forall q, q ∈ rrset_cache env -> q ∈ take i ps \/ q ∈ rrset_cache env0) /\
  next_id env = next_id env0 + Z.of_nat i /\
  (forall j p k, ps !! j = Some p -> ks !! j = Some k ->
     heap env !! p =
     Some (if decide (j < i)%nat
           then stored_key k now (next_id env0 + Z.of_nat j)
           else key_with_data k (packed_rrset_ttl_add (entry_data k) now))) /\
  (forall q, q ∉ ps -> heap env !! q = heap env0 !! q) /\
  rrsets rep = ps /\
  length (ref rep) = length ps /\
  (forall j p, (j < i)%nat -> ps !! j = Some p ->
     ref rep !! j = Some (mk_ref p (next_id env0 + Z.of_nat j))).

(** The fields of a reply other than its two arrays. *)
Definition rep_header {K} (r : reply_info K) : Z * Z * Z * Z * Z * Z * Z :=
  (rep_flags r, qdcount r, rep_ttl r, an_numrrsets r, ns_numrrsets r,
   ar_numrrsets r, rrset_count r).

(** A cache that holds nothing yet, and a reply for example.com. A with
    the address in the answer section and the NS RRset in the authority
    section, as the parser hands it over. *)
Definition env_two_fresh : module_env :=
  {| msg_cache := []; rrset_cache := [];
     heap := <[2%nat := ns_example_com_fresh]>
               (<[1%nat := a_example_com_fresh]> ∅);
     next_id := 1 |}.

Definition reply_two_rrsets : reply_info ptr :=
  mk_rep BIT_QR 1 300 1 1 0 2 [1%nat; 2%nat] [mk_ref 0%nat 0; mk_ref 0%nat 0].

(** ** The host tool (checkconf/unbound-host.c)

    A C string is the list of its characters before the terminating
    NUL. *)
From stdpp Require strings pretty.

Module unbound_host.
Import Stdlib.Strings.String Stdlib.Strings.Ascii.
Import stdpp.strings stdpp.pretty.
Local Open Scope Z_scope.

Definition cstr (s : string) : list ascii := list_ascii_of_string s.

(** [snprintf(buf, size, ...)] of the libc, given the text that the
    format produces: at most [size - 1] characters are stored. *)
Definition snprintf (size : nat) (text : list ascii) : list ascii :=
  take (size - 1) text.

(** The conversion [%u]: the decimal digits of a number. *)
Definition percent_u (n : Z) : list ascii := cstr (pretty (Z.to_N n)).

Definition dot : ascii := "."%char.

(** [isip4], behind [inet_pton]: [addr] is the address it stored, in
    network byte order. *)
Definition isip4_name (addr : list Z) : list ascii :=
  snprintf 32
    (percent_u (nth 3 addr 0) ++ [dot] ++ percent_u (nth 2 addr 0) ++ [dot] ++
     percent_u (nth 1 addr 0) ++ [dot] ++ percent_u (nth 0 addr 0) ++
     cstr ".in-addr.arpa").

(** [isip4]: [None] is the answer 0. [inet_pton] is the libc's, for the
    family [AF_INET]: the address, or nothing where its result is not
    positive. *)
Definition isip4 (inet_pton : list ascii -> option (list Z))
    (nm : list ascii) : option (list ascii) :=
  match inet_pton nm with
  | None => None
  | Some addr => Some (isip4_name addr)
  end.

Definition hex : list ascii := cstr "0123456789abcdef".

(** [hex[n]]. *)
Definition hex_at (n : Z) : ascii := nth (Z.to_nat n) hex "000"%char.

(** The loop of [isip6], from [i - 1] down to 0. *)
Fixpoint isip6_loop (i : nat) (addr : list Z) : list ascii :=
  match i with
  | O => []
  | S i' =>
      let b := nth i' addr 0 in
      hex_at (Z.land b 15) :: dot ::
      hex_at (Z.shiftr (Z.land b 240) 4) :: dot :: isip6_loop i' addr
  end.

Definition isip6_name (addr : list Z) : list ascii :=
  isip6_loop 16 addr ++ snprintf (128 - 16 * 4) (cstr "ip6.arpa").

(** [isip6], with [inet_pton] for the family [AF_INET6]. *)
Definition isip6 (inet_pton : list ascii -> option (list Z))
    (nm : list ascii) : option (list ascii) :=
  match inet_pton nm with
  | None => None
  | Some addr => Some (isip6_name addr)
  end.

(** [massage_qname]: the name to ask for and the flag [reverse]. The
    copies made with [strdup] are taken to succeed. *)
Definition massage_qname (inet_pton4 inet_pton6 : list ascii -> option (list Z))
    (nm : list ascii) : list ascii * bool :=
  match isip4 inet_pton4 nm with
  | Some res => (res, true)
  | None =>
      match isip6 inet_pton6 nm with
      | Some res => (res, true)
      | None => (nm, false)
      end
  end.

(** The place of a character in [hex]. *)
Definition hex_index (c : ascii) : Z :=
  match list_find (fun c' => c' = c) hex with
  | Some (i, _) => Z.of_nat i
  | None => 16
  end.

(** A list of bytes of the given length. *)
Definition address (n : nat) (addr : list Z) : Prop :=
  length addr = n /\ Forall (fun b => 0 <= b < 256) addr.

(** The memory of [print_rd]: whether the buffer [rd] and the record
    [rr] are allocated, and what has been printed. *)
Record rd_state : Type := mk_rd_state {
  rd_live : bool;
  rr_live : bool;
  printed : list (list ascii)
}.

(** How [print_rd] ends: it returns, it leaves through [exit(1)], or it
    hands [free] a block that is not allocated. *)
Inductive rd_outcome : Type :=
  | Returned (st : rd_state)
  | Exited
  | FreedTwice.

Definition printf (text : list ascii) (st : rd_state) : rd_state :=
  mk_rd_state (rd_live st) (rr_live st) (printed st ++ [text]).

(** [free(rd)]: [None] when [rd] is not allocated. *)
Definition free_rd (st : rd_state) : option rd_state :=
  if rd_live st then Some (mk_rd_state false (rr_live st) (printed st))
  else None.

(** The loop of [print_rd] over the fields of the record. *)
Definition print_fields (rdf : nat -> list ascii) (count : nat)
    (st : rd_state) : rd_state :=
  foldl (fun st i => printf (rdf i) (printf (cstr " ") st)) st (seq 0 count).

(** [print_rd]. [malloc_ok] and [rr_ok] are the outcomes of [malloc] and
    [ldns_rr_new], [status_ok] tells whether [ldns_wire2rdf] answered
    [LDNS_STATUS_OK], [count] is [ldns_rr_rd_count(rr)] and [rdf i] the
    text of field [i]. *)
Definition print_rd (malloc_ok rr_ok status_ok : bool) (count : nat)
    (rdf : nat -> list ascii) : rd_outcome :=
  if negb malloc_ok || negb rr_ok then Exited
  else
    let st := mk_rd_state true true [] in
    let after_status :=
      if status_ok then Some st
      else printf (cstr "error_printing_data") <$> free_rd st in
    match after_status with
    | None => FreedTwice
    | Some st =>
        let st := print_fields rdf count st in
        let st := mk_rd_state (rd_live st) false (printed st) in
        match free_rd st with
        | Some st => Returned st
        | None => FreedTwice
        end
    end.

(** What [inet_pton] makes of 192.0.2.1 and of 2001:db8::1, and of no
    other text. *)
Definition example_inet_pton4 (nm : list ascii) : option (list Z) :=
  if decide (nm = cstr "192.0.2.1") then Some [192; 0; 2; 1] else None.

Definition example_inet_pton6 (nm : list ascii) : option (list Z) :=
  if decide (nm = cstr "2001:db8::1")
  then Some [32; 1; 13; 184; 0; 0; 0; 0; 0; 0; 0; 0; 0; 0; 0; 1]
  else None.

End unbound_host.

(** ** Facts on three-way comparisons *)

Lemma three_way_cases x y :
  (x < y /\ three_way x y = -1) \/ (x = y /\ three_way x y = 0) \/
  (y < x /\ three_way x y = 1).
Proof.
  unfold three_way.
  destruct (Z.ltb_spec x y); [left; done|].
  destruct (Z.ltb_spec y x); [right; right; done|].
  right; left; split; [lia|done].
Qed.

#[export] Instance three_way_ThreeWay : ThreeWay three_way.
Proof.
  split.
  - intros a b. destruct (three_way_cases a b) as [[_ ->]|[[_ ->]|[_ ->]]]; auto.
  - intros a b.
    destruct (three_way_cases a b) as [[? ->]|[[? ->]|[? ->]]],
             (three_way_cases b a) as [[? ->]|[[? ->]|[? ->]]]; lia.
  - intros a b c Hab Hbc.
    destruct (three_way_cases a b) as [[? E1]|[[? E1]|[? E1]]]; try congruence.
    destruct (three_way_cases b c) as [[? E2]|[[? E2]|[? E2]]]; try congruence.
    destruct (three_way_cases a c) as [[? E3]|[[? E3]|[? E3]]]; try done; lia.
  - intros a b c Hab.
    destruct (three_way_cases a b) as [[? E1]|[[? E1]|[? E1]]]; congruence.
Qed.

Lemma query_dname_compare_range d1 d2 :
  query_dname_compare d1 d2 = -1 \/ query_dname_compare d1 d2 = 0 \/
  query_dname_compare d1 d2 = 1.
Proof.
  revert d2; induction d1 as [|b1 r1 IH]; intros [|b2 r2]; simpl; auto.
  destruct (Z.ltb_spec (tolower b1) (tolower b2)); auto.
  destruct (Z.ltb_spec (tolower b2) (tolower b1)); auto.
Qed.

Lemma query_dname_compare_antisym d1 d2 :
  query_dname_compare d2 d1 = - query_dname_compare d1 d2.
Proof.
  revert d2; induction d1 as [|b1 r1 IH]; intros [|b2 r2]; simpl; auto.
  destruct (Z.ltb_spec (tolower b1) (tolower b2)),
           (Z.ltb_spec (tolower b2) (tolower b1)); auto; lia.
Qed.

Lemma query_dname_compare_zero d1 d2 :
  query_dname_compare d1 d2 = 0 <-> tolower <$> d1 = tolower <$> d2.
Proof.
  revert d2; induction d1 as [|b1 r1 IH]; intros [|b2 r2];
    rewrite ?fmap_cons; simpl; try done.
  destruct (Z.ltb_spec (tolower b1) (tolower b2)).
  { split; [done|]. intros [= ? _]; lia. }
  destruct (Z.ltb_spec (tolower b2) (tolower b1)).
  { split; [done|]. intros [= ? _]; lia. }
  rewrite IH. split.
  - intros ->. f_equal. lia.
  - by intros [= _ ?].
Qed.

Lemma query_dname_compare_trans_lt d1 d2 d3 :
  query_dname_compare d1 d2 = -1 -> query_dname_compare d2 d3 = -1 ->
  query_dname_compare d1 d3 = -1.
Proof.
  revert d2 d3; induction d1 as [|b1 r1 IH]; intros [|b2 r2] [|b3 r3];
    simpl; try done.
  destruct (Z.ltb_spec (tolower b1) (tolower b2)),
           (Z.ltb_spec (tolower b2) (tolower b3)),
           (Z.ltb_spec (tolower b1) (tolower b3)); try done; try lia;
  destruct (Z.ltb_spec (tolower b2) (tolower b1)); try done; try lia;
  destruct (Z.ltb_spec (tolower b3) (tolower b2)); try done; try lia;
  destruct (Z.ltb_spec (tolower b3) (tolower b1)); try done; try lia;
  apply IH.
Qed.

Lemma query_dname_compare_trans_eq_l d1 d2 d3 :
  query_dname_compare d1 d2 = 0 ->
  query_dname_compare d1 d3 = query_dname_compare d2 d3.
Proof.
  revert d2 d3; induction d1 as [|b1 r1 IH]; intros [|b2 r2] [|b3 r3];
    simpl; try done.
  destruct (Z.ltb_spec (tolower b1) (tolower b2)); [done|].
  destruct (Z.ltb_spec (tolower b2) (tolower b1)); [done|].
  assert (tolower b1 = tolower b2) as -> by lia.
  intros H12.
  destruct (Z.ltb_spec (tolower b2) (tolower b3)); [done|].
  destruct (Z.ltb_spec (tolower b3) (tolower b2)); [done|].
  by apply IH.
Qed.

#[export] Instance query_dname_compare_ThreeWay : ThreeWay query_dname_compare.
Proof.
  split.
  - apply query_dname_compare_range.
  - apply query_dname_compare_antisym.
  - apply query_dname_compare_trans_lt.
  - apply query_dname_compare_trans_eq_l.
Qed.

Lemma lexico_ThreeWay {A} (c1 c2 : A -> A -> Z) :
  ThreeWay c1 -> ThreeWay c2 -> ThreeWay (fun a b => lexico (c1 a b) (c2 a b)).
Proof.
  intros T1 T2. unfold lexico. split.
  - intros a b.
    destruct (cmp_range (cmp:=c1) a b) as [E|[E|E]]; rewrite E; simpl; auto.
    apply cmp_range.
  - intros a b. rewrite (cmp_antisym (cmp:=c1) a b), (cmp_antisym (cmp:=c2) a b).
    destruct (cmp_range (cmp:=c1) a b) as [E|[E|E]]; rewrite E; simpl; auto.
  - intros a b c.
    destruct (cmp_range (cmp:=c1) a b) as [E1|[E1|E1]]; rewrite E1; simpl;
      try done;
    destruct (cmp_range (cmp:=c1) b c) as [E2|[E2|E2]]; rewrite E2; simpl;
      try done; intros H1 H2.
    + by rewrite (cmp_trans_lt a b c E1 E2).
    + assert (c1 a c = -1) as ->; [|done].
      pose proof (cmp_antisym (cmp:=c1) b c) as Ha. rewrite E2 in Ha.
      pose proof (cmp_trans_eq_l c b a Ha) as Hb.
      rewrite (cmp_antisym (cmp:=c1) a c), (cmp_antisym (cmp:=c1) a b) in Hb.
      lia.
    + by rewrite (cmp_trans_eq_l a b c E1), E2.
    + rewrite (cmp_trans_eq_l a b c E1), E2. simpl.
      by apply (cmp_trans_lt (cmp:=c2) a b c).
  - intros a b c.
    destruct (cmp_range (cmp:=c1) a b) as [E1|[E1|E1]]; rewrite E1; simpl;
      try done.
    intros E. rewrite (cmp_trans_eq_l a b c E1), (cmp_trans_eq_l a b c E).
    done.
Qed.

Lemma on_ThreeWay {A B} (f : A -> B) (cmp : B -> B -> Z) :
  ThreeWay cmp -> ThreeWay (fun a b => cmp (f a) (f b)).
Proof.
  intros T. split; intros.
  - apply cmp_range.
  - apply cmp_antisym.
  - by eapply cmp_trans_lt.
  - by apply cmp_trans_eq_l.
Qed.

Lemma ThreeWay_trans_le {A} (cmp : A -> A -> Z) `{!ThreeWay cmp} a b c :
  cmp a b <= 0 -> cmp b c <= 0 -> cmp a c <= 0.
Proof.
  intros Hab Hbc.
  destruct (cmp_range (cmp:=cmp) a b) as [E1|[E1|E1]]; [| |lia].
  - destruct (cmp_range (cmp:=cmp) b c) as [E2|[E2|E2]]; [| |lia].
    + rewrite (cmp_trans_lt a b c E1 E2). lia.
    + pose proof (cmp_antisym (cmp:=cmp) b c) as Ha. rewrite E2 in Ha.
      pose proof (cmp_trans_eq_l c b a Ha) as Hb.
      rewrite (cmp_antisym (cmp:=cmp) a c), (cmp_antisym (cmp:=cmp) a b) in Hb.
      lia.
  - by rewrite (cmp_trans_eq_l a b c E1).
Qed.

Lemma ThreeWay_refl {A} (cmp : A -> A -> Z) `{!ThreeWay cmp} a : cmp a a = 0.
Proof. pose proof (cmp_antisym (cmp:=cmp) a a). lia. Qed.

#[export] Instance rrset_key_order_ThreeWay : ThreeWay rrset_key_order.
Proof.
  unfold rrset_key_order.
  apply (lexico_ThreeWay (fun k1 k2 => three_way (rk_type k1) (rk_type k2)));
    [apply (on_ThreeWay rk_type), _|].
  apply (lexico_ThreeWay
           (fun k1 k2 => three_way (rk_dname_len k1) (rk_dname_len k2)));
    [apply (on_ThreeWay rk_dname_len), _|].
  apply (lexico_ThreeWay
           (fun k1 k2 => query_dname_compare (rk_dname k1) (rk_dname k2)));
    [apply (on_ThreeWay rk_dname), _|].
  apply (lexico_ThreeWay
           (fun k1 k2 => three_way (rk_rrset_class k1) (rk_rrset_class k2)));
    [apply (on_ThreeWay rk_rrset_class), _|].
  apply (on_ThreeWay rk_flags), _.
Qed.

Lemma ub_rrset_compare_order k1 k2 :
  ub_rrset_compare k1 k2 = rrset_key_order k1 k2.
Proof.
  unfold ub_rrset_compare, rrset_key_order, lexico.
  destruct (three_way_cases (rk_type k1) (rk_type k2))
    as [[? ->]|[[E ->]|[? ->]]]; simpl.
  - rewrite (proj2 (Z.eqb_neq _ _)) by lia. simpl.
    by rewrite (proj2 (Z.ltb_lt _ _)).
  - rewrite E, Z.eqb_refl. simpl.
    destruct (three_way_cases (rk_dname_len k1) (rk_dname_len k2))
      as [[? ->]|[[E2 ->]|[? ->]]]; simpl.
    + rewrite (proj2 (Z.eqb_neq _ _)) by lia. simpl.
      by rewrite (proj2 (Z.ltb_lt _ _)).
    + rewrite E2, Z.eqb_refl. simpl.
      destruct (Z.eqb_spec
                  (query_dname_compare (rk_dname k1) (rk_dname k2)) 0);
        simpl; [|done].
      destruct (three_way_cases (rk_rrset_class k1) (rk_rrset_class k2))
        as [[? ->]|[[E3 ->]|[? ->]]]; simpl.
      * rewrite (proj2 (Z.eqb_neq _ _)) by lia. simpl.
        by rewrite (proj2 (Z.ltb_lt _ _)).
      * rewrite E3, Z.eqb_refl. simpl.
        destruct (three_way_cases (rk_flags k1) (rk_flags k2))
          as [[? ->]|[[E4 ->]|[? ->]]]; simpl.
        -- rewrite (proj2 (Z.eqb_neq _ _)) by lia. simpl.
           by rewrite (proj2 (Z.ltb_lt _ _)).
        -- by rewrite E4, Z.eqb_refl.
        -- rewrite (proj2 (Z.eqb_neq _ _)) by lia. simpl.
           by rewrite (proj2 (Z.ltb_ge _ _)) by lia.
      * rewrite (proj2 (Z.eqb_neq _ _)) by lia. simpl.
        by rewrite (proj2 (Z.ltb_ge _ _)) by lia.
    + rewrite (proj2 (Z.eqb_neq _ _)) by lia. simpl.
      by rewrite (proj2 (Z.ltb_ge _ _)) by lia.
  - rewrite (proj2 (Z.eqb_neq _ _)) by lia. simpl.
    by rewrite (proj2 (Z.ltb_ge _ _)) by lia.
Qed.

#[export] Instance ub_rrset_compare_ThreeWay : ThreeWay ub_rrset_compare.
Proof.
  split; intros *; rewrite !ub_rrset_compare_order.
  - apply cmp_range.
  - apply cmp_antisym.
  - apply cmp_trans_lt.
  - apply cmp_trans_eq_l.
Qed.

Lemma ub_rrset_compare_refl k : ub_rrset_compare k k = 0.
Proof. apply (ThreeWay_refl ub_rrset_compare). Qed.

Lemma three_way_zero x y : three_way x y = 0 <-> x = y.
Proof. destruct (three_way_cases x y) as [[? ->]|[[? ->]|[? ->]]]; lia. Qed.

Lemma lexico_zero c rest : lexico c rest = 0 <-> c = 0 /\ rest = 0.
Proof. unfold lexico. destruct (Z.eqb_spec c 0); lia. Qed.

Lemma ub_rrset_compare_zero k1 k2 :
  ub_rrset_compare k1 k2 = 0 <-> keys_agree k1 k2.
Proof.
  rewrite ub_rrset_compare_order. unfold rrset_key_order, keys_agree.
  rewrite !lexico_zero, !three_way_zero, query_dname_compare_zero. tauto.
Qed.

(** C9: [ub_rrset_compare] is the lexicographic order by type, then length
    of the owner name, then owner name compared without regard to case,
    then class, then flags; its result is -1, 0 or 1; it is 0 exactly when
    the two keys agree (for keys whose [dname_len] is the length of their
    name: exactly when type, class and flags are equal and the names are
    equal up to case); it is antisymmetric and transitive. *)
Theorem ub_rrset_compare_total_order :
  (forall k1 k2, ub_rrset_compare k1 k2 = rrset_key_order k1 k2) /\
  (forall k1 k2, ub_rrset_compare k1 k2 = -1 \/ ub_rrset_compare k1 k2 = 0 \/
                 ub_rrset_compare k1 k2 = 1) /\
  (forall k1 k2, ub_rrset_compare k1 k2 = 0 <-> keys_agree k1 k2) /\
  (forall k1 k2,
     rk_dname_len k1 = Z.of_nat (length (rk_dname k1)) ->
     rk_dname_len k2 = Z.of_nat (length (rk_dname k2)) ->
     (ub_rrset_compare k1 k2 = 0 <->
      rk_type k1 = rk_type k2 /\
      tolower <$> rk_dname k1 = tolower <$> rk_dname k2 /\
      rk_rrset_class k1 = rk_rrset_class k2 /\
      rk_flags k1 = rk_flags k2)) /\
  (forall k1 k2, ub_rrset_compare k2 k1 = - ub_rrset_compare k1 k2) /\
  (forall k1 k2 k3,
     ub_rrset_compare k1 k2 <= 0 -> ub_rrset_compare k2 k3 <= 0 ->
     ub_rrset_compare k1 k3 <= 0) /\
  (forall k1 k2 k3,
     ub_rrset_compare k1 k2 = -1 -> ub_rrset_compare k2 k3 = -1 ->
     ub_rrset_compare k1 k3 = -1).
Proof.
  split_and!.
  - apply ub_rrset_compare_order.
  - apply cmp_range.
  - apply ub_rrset_compare_zero.
  - intros k1 k2 L1 L2. rewrite ub_rrset_compare_zero. unfold keys_agree.
    split; [tauto|]. intros (? & Hn & ? & ?). split_and!; try done.
    rewrite L1, L2. f_equal.
    by rewrite <-(length_fmap tolower (rk_dname k1)), Hn, length_fmap.
  - apply cmp_antisym.
  - apply (ThreeWay_trans_le ub_rrset_compare).
  - apply cmp_trans_lt.
Qed.

(** ** Facts on the region allocator *)

Lemma gtb_false x y : x <= y -> (x >? y) = false.
Proof. intros. rewrite Z.gtb_ltb. by apply Z.ltb_ge. Qed.

Lemma gtb_true x y : y < x -> (x >? y) = true.
Proof. intros. rewrite Z.gtb_ltb. by apply Z.ltb_lt. Qed.

Lemma region_ok_add n n' r :
  region_ok (n + n') r = region_ok n r && region_ok n' (drop n r).
Proof.
  revert r; induction n as [|n IH]; intros r; simpl.
  - by rewrite drop_0.
  - destruct r as [|ok r]; simpl.
    + by destruct n'.
    + rewrite IH. by destruct ok.
Qed.

Lemma region_ok_nil n : region_ok n [] = true.
Proof. by destruct n. Qed.

Lemma takes_ret {A} (a : A) : takes (mret a) 0 a.
Proof. intros r. simpl. by rewrite drop_0. Qed.

Lemma takes_alloc : takes region_alloc 1 ().
Proof.
  intros [|[] r]; simpl; by rewrite ?drop_0.
Qed.

Lemma takes_bind {A B} (m : M A) (f : A -> M B) n n' a b :
  takes m n a -> takes (f a) n' b -> takes (bind m f) (n + n') b.
Proof.
  intros Hm Hf r. specialize (Hm r). rewrite region_ok_add. unfold bind.
  destruct (region_ok n r); simpl.
  - rewrite Hm. specialize (Hf (drop n r)).
    destruct (region_ok n' (drop n r)).
    + by rewrite Hf, drop_drop.
    + done.
  - destruct (m r) as [[x|] r']; simpl in *; [done|done].
Qed.

Lemma takes_map {A B} (m : M A) (g : A -> B) n a :
  takes m n a -> takes (x <- m ;; mret (g x)) n (g a).
Proof.
  intros Hm. rewrite <-(Nat.add_0_r n).
  apply (takes_bind _ _ n 0 a); [done|apply takes_ret].
Qed.

Lemma takes_bind_alloc {B} (f : unit -> M B) n b :
  takes (f ()) n b -> takes (bind region_alloc f) (S n) b.
Proof. apply (takes_bind _ _ 1 n ()), takes_alloc. Qed.

(** Runs through a chain of allocations that ends in [mret]. *)
Ltac takes_allocs := repeat first [apply takes_ret | apply takes_bind_alloc].

Lemma takes_some {A} (m : M A) n a r a' r' :
  takes m n a -> m r = (Some a', r') ->
  region_ok n r = true /\ a' = a /\ r' = drop n r.
Proof.
  intros Hm E. specialize (Hm r). destruct (region_ok n r).
  - rewrite E in Hm. by injection Hm as -> ->.
  - by rewrite E in Hm.
Qed.

Lemma takes_ok {A} (m : M A) n a r :
  takes m n a -> region_ok n r = true -> m r = (Some a, drop n r).
Proof. intros Hm E. specialize (Hm r). by rewrite E in Hm. Qed.

Lemma takes_copy_rrset key now : takes (copy_rrset key now) 3 (rrset_copy key now).
Proof.
  unfold copy_rrset.
  takes_allocs.
Qed.

Section ServeFacts.
Context `{Host}.

Lemma takes_gen_dns_msg q num :
  takes (gen_dns_msg q num) 4 {| qinfo := qinfo_copy q; rep := uninit_reply |}.
Proof.
  unfold gen_dns_msg.
  takes_allocs.
Qed.

Lemma takes_cname_msg rrset now q :
  now <= d_ttl (entry_data rrset) ->
  takes (cname_msg rrset now q) 7
    {| qinfo := qinfo_copy q;
       rep := one_rrset_reply (entry_data rrset) now (rrset_copy rrset now) |}.
Proof.
  intros Hnow. unfold cname_msg.
  rewrite gtb_false by lia.
  apply (takes_bind _ _ 4 3 _ _ (takes_gen_dns_msg _ _)).
  apply (takes_bind _ _ 3 0 _ _ (takes_copy_rrset _ _)).
  apply takes_ret.
Qed.

End ServeFacts.

(** ** DNAME synthesis *)

Section SynthFacts.
Context `{Host}.

Lemma synth_dname_msg_expired rrset now q r :
  d_ttl (entry_data rrset) < now -> synth_dname_msg rrset now q r = (None, r).
Proof. intros. unfold synth_dname_msg. by rewrite gtb_true. Qed.

Lemma takes_synth_yxdomain rrset now q dtarg dtarglen :
  now <= d_ttl (entry_data rrset) ->
  get_cname_target rrset = Some (dtarg, dtarglen) ->
  LDNS_MAX_DOMAINLEN < synth_newlen rrset q dtarglen ->
  takes (synth_dname_msg rrset now q) 7
    {| qinfo := qinfo_copy q;
       rep := rep_set_yxdomain
                (one_rrset_reply (entry_data rrset) now
                   (rrset_copy rrset now)) |}.
Proof.
  intros Hnow Ht Hlen. unfold synth_dname_msg.
  rewrite gtb_false by lia.
  apply (takes_bind _ _ 4 3 _ _ (takes_gen_dns_msg _ _)).
  apply (takes_bind _ _ 3 0 _ _ (takes_copy_rrset _ _)).
  rewrite Ht, gtb_true by lia. apply takes_ret.
Qed.

Lemma takes_synth_cname rrset now q dtarg dtarglen :
  now <= d_ttl (entry_data rrset) ->
  get_cname_target rrset = Some (dtarg, dtarglen) ->
  synth_newlen rrset q dtarglen <= LDNS_MAX_DOMAINLEN ->
  takes (synth_dname_msg rrset now q) 11
    {| qinfo := qinfo_copy q;
       rep := rep_add_cname
                (one_rrset_reply (entry_data rrset) now (rrset_copy rrset now))
                (synth_cname rrset q (synth_newname rrset q dtarg dtarglen)
                   (synth_newlen rrset q dtarglen)) |}.
Proof.
  intros Hnow Ht Hlen. unfold synth_dname_msg.
  rewrite gtb_false by lia.
  apply (takes_bind _ _ 4 7 _ _ (takes_gen_dns_msg _ _)).
  apply (takes_bind _ _ 3 4 _ _ (takes_copy_rrset _ _)).
  rewrite Ht, gtb_false by lia.
  takes_allocs.
Qed.

Lemma synth_dname_msg_no_target rrset now q r :
  get_cname_target rrset = None -> (synth_dname_msg rrset now q r).1 = None.
Proof.
  intros Ht. unfold synth_dname_msg.
  destruct (now >? d_ttl (entry_data rrset)); [done|].
  unfold bind. destruct (gen_dns_msg q 2 r) as [[m|] r1]; [|done].
  destruct (copy_rrset rrset now r1) as [[ck|] r2]; [|done].
  by rewrite Ht.
Qed.

(** What a message that [synth_dname_msg] hands back looks like. *)
Lemma synth_dname_msg_some rrset now q r msg r' :
  synth_dname_msg rrset now q r = (Some msg, r') ->
  now <= d_ttl (entry_data rrset) /\
  exists dtarg dtarglen,
    get_cname_target rrset = Some (dtarg, dtarglen) /\
    let rep0 := one_rrset_reply (entry_data rrset) now (rrset_copy rrset now) in
    qinfo msg = qinfo_copy q /\
    ((LDNS_MAX_DOMAINLEN < synth_newlen rrset q dtarglen /\
      rep msg = rep_set_yxdomain rep0 /\ r' = drop 7 r) \/
     (synth_newlen rrset q dtarglen <= LDNS_MAX_DOMAINLEN /\
      rep msg = rep_add_cname rep0
                  (synth_cname rrset q (synth_newname rrset q dtarg dtarglen)
                     (synth_newlen rrset q dtarglen)) /\
      r' = drop 11 r)).
Proof.
  intros E.
  destruct (Z.lt_ge_cases (d_ttl (entry_data rrset)) now) as [Hexp|Hnow].
  { by rewrite synth_dname_msg_expired in E. }
  split; [done|].
  destruct (get_cname_target rrset) as [[dtarg dtarglen]|] eqn:Ht.
  2:{ pose proof (synth_dname_msg_no_target rrset now q r Ht) as Hn.
      by rewrite E in Hn. }
  exists dtarg, dtarglen. split; [done|]. simpl.
  destruct (Z.lt_ge_cases LDNS_MAX_DOMAINLEN (synth_newlen rrset q dtarglen))
    as [Hbig|Hfit].
  - destruct (takes_some _ _ _ _ _ _
                (takes_synth_yxdomain rrset now q _ _ Hnow Ht Hbig) E)
      as (_ & -> & ->).
    split; [done|]. by left.
  - destruct (takes_some _ _ _ _ _ _
                (takes_synth_cname rrset now q _ _ Hnow Ht Hfit) E)
      as (_ & -> & ->).
    split; [done|]. by right.
Qed.

End SynthFacts.

(** ** Facts on the RRset cache and on the walk over the ancestors *)

Section LookupFacts.
Context `{Host}.

Lemma rrset_cache_lookup_some env qname qnamelen qtype qclass flags now wr k :
  rrset_cache_lookup env qname qnamelen qtype qclass flags now wr = Some k ->
  (exists p, p ∈ rrset_cache env /\ heap env !! p = Some k) /\
  now < d_ttl (entry_data k) /\
  ub_rrset_compare (rk k)
    {| rk_dname := qname; rk_dname_len := qnamelen; rk_flags := flags;
       rk_type := htons qtype; rk_rrset_class := htons qclass |} = 0.
Proof.
  unfold rrset_cache_lookup.
  destruct (list_find _ _) as [[i k']|] eqn:E; [|done].
  destruct (Z.gtb_spec (d_ttl (entry_data k')) now); [|done].
  intros [= ->]. apply list_find_Some in E as (Hi & Hsame & _).
  apply list_elem_of_lookup_2, list_elem_of_omap in Hi as (p & Hp & Hk).
  split_and!; [by exists p|lia|by apply Z.eqb_eq].
Qed.

Lemma first_hit_some {A B} (f : A -> option B) l b :
  first_hit f l = Some b ->
  exists i a, l !! i = Some a /\ f a = Some b /\
    forall j a', (j < i)%nat -> l !! j = Some a' -> f a' = None.
Proof.
  induction l as [|a l IH]; simpl; [done|].
  destruct (f a) as [b'|] eqn:E.
  - intros [= ->]. exists 0%nat, a. split_and!; [done|done|lia].
  - intros (i & a' & Hi & Ha' & Hlt)%IH. exists (S i), a'.
    split_and!; [done|done|].
    intros [|j] a'' Hj; simpl; [by intros [= <-]|].
    intros. apply (Hlt j); [lia|done].
Qed.

Lemma first_hit_none {A B} (f : A -> option B) l :
  first_hit f l = None <-> Forall (fun a => f a = None) l.
Proof.
  induction l as [|a l IH]; simpl; [by split|].
  rewrite Forall_cons. destruct (f a); [|by rewrite IH; intuition].
  split; [done|]. by intros [? _].
Qed.

Lemma suffixes_lookup {A} (l : list A) i s :
  suffixes l !! i = Some s -> s = drop i l /\ (i <= length l)%nat.
Proof.
  revert i; induction l as [|a l IH]; intros [|i]; simpl; try done.
  - intros [= <-]. split; [done|lia].
  - intros [= <-]. split; [done|lia].
  - intros [-> ?]%IH. split; [done|lia].
Qed.

Lemma wire_cons l ls :
  wire (l :: ls) = Z.of_nat (length l) :: l ++ wire ls.
Proof. unfold wire. rewrite fmap_cons. simpl. by rewrite <-app_assoc. Qed.

Lemma wire_app pre ls :
  wire (pre ++ ls) =
  concat ((fun l => Z.of_nat (length l) :: l) <$> pre) ++ wire ls.
Proof.
  induction pre as [|l pre IH]; [done|].
  rewrite <-app_comm_cons, wire_cons, IH, fmap_cons. simpl.
  by rewrite <-!app_assoc.
Qed.

Lemma wire_length_pos ls : (0 < length (wire ls))%nat.
Proof. unfold wire. rewrite length_app. simpl. lia. Qed.

(** The walk of [find_closest_of_type] over a name in wire form looks the
    type up at the name and at each of its ancestors in turn and stops at
    the first hit. *)
Lemma find_closest_of_type_loop_wire env ls qclass now searchtype fuel :
  Forall label_ok ls ->
  Z.of_nat (length (wire ls)) < 2 ^ 64 ->
  (length ls < fuel)%nat ->
  find_closest_of_type_loop fuel env (wire ls) (Z.of_nat (length (wire ls)))
    qclass now searchtype =
  first_hit
    (fun name =>
       rrset_cache_lookup env name (Z.of_nat (length name)) searchtype qclass
         0 now false)
    (ancestors ls).
Proof.
  revert fuel; induction ls as [|l ls IH]; intros [|fuel] Hok Hlen Hfuel;
    try (simpl in Hfuel; lia).
  - simpl. destruct (rrset_cache_lookup _ _ _ _ _ _ _ _); [done|].
    by destruct fuel.
  - apply Forall_cons in Hok as [Hl Hok]. unfold ancestors. simpl suffixes.
    rewrite fmap_cons. cbn [first_hit find_closest_of_type_loop].
    pose proof (wire_length_pos (l :: ls)).
    rewrite gtb_true by lia.
    destruct (rrset_cache_lookup _ _ _ _ _ _ _ _); [done|].
    rewrite wire_cons in *. simpl length in *. rewrite length_app in *.
    replace (Z.to_nat (Z.of_nat (length l) + 1)) with (S (length l)) by lia.
    simpl drop. rewrite drop_app_length.
    replace (wrap_size _) with (Z.of_nat (length (wire ls))).
    + apply IH; [done|lia|simpl in Hfuel; lia].
    + unfold wrap_size. rewrite Z.mod_small; lia.
Qed.

Lemma find_closest_of_type_wire env ls qclass now searchtype :
  Forall label_ok ls ->
  Z.of_nat (length (wire ls)) < 2 ^ 64 ->
  find_closest_of_type env (wire ls) (Z.of_nat (length (wire ls))) qclass now
    searchtype =
  first_hit
    (fun name =>
       rrset_cache_lookup env name (Z.of_nat (length name)) searchtype qclass
         0 now false)
    (ancestors ls).
Proof.
  intros Hok Hlen. apply find_closest_of_type_loop_wire; [done|done|].
  unfold wire. rewrite length_app, length_concat. simpl.
  assert (length ls <=
          list_sum (map length ((fun l => Z.of_nat (length l) :: l) <$> ls)))%nat;
    [|lia].
  clear. induction ls as [|l ls IH]; [simpl; lia|].
  rewrite fmap_cons. simpl. lia.
Qed.

(** On any name made of bytes the walk ends within [S (length qname)]
    rounds: more fuel gives the same result. *)
Lemma find_closest_of_type_loop_fuel env qclass now searchtype fuel1 fuel2
    qname qnamelen :
  Forall (fun b => 0 <= b) qname ->
  (length qname < fuel1)%nat -> (length qname < fuel2)%nat ->
  find_closest_of_type_loop fuel1 env qname qnamelen qclass now searchtype =
  find_closest_of_type_loop fuel2 env qname qnamelen qclass now searchtype.
Proof.
  revert fuel2 qname qnamelen.
  induction fuel1 as [|fuel1 IH]; intros [|fuel2] qname qnamelen Hbytes H1 H2;
    try lia.
  cbn [find_closest_of_type_loop].
  destruct (qnamelen >? 0); [|done].
  destruct (rrset_cache_lookup _ _ _ _ _ _ _ _); [done|].
  destruct qname as [|lablen rest]; [done|].
  pose proof (Forall_inv Hbytes) as Hlab. simpl in Hlab, H1, H2.
  apply IH.
  - by apply Forall_drop.
  - rewrite length_drop. simpl. lia.
  - rewrite length_drop. simpl. lia.
Qed.

Lemma find_closest_of_type_loop_some fuel env qname qnamelen qclass now ty k :
  find_closest_of_type_loop fuel env qname qnamelen qclass now ty = Some k ->
  (exists p, p ∈ rrset_cache env /\ heap env !! p = Some k) /\
  now < d_ttl (entry_data k).
Proof.
  revert qname qnamelen; induction fuel as [|fuel IH]; intros qname qnamelen;
    simpl; [done|].
  destruct (qnamelen >? 0); [|done].
  destruct (rrset_cache_lookup _ _ _ _ _ _ _ _) as [k'|] eqn:E.
  - intros [= ->]. apply rrset_cache_lookup_some in E. tauto.
  - destruct qname as [|lablen rest]; [done|]. apply IH.
Qed.

Lemma find_closest_of_type_some env qname qnamelen qclass now ty k :
  find_closest_of_type env qname qnamelen qclass now ty = Some k ->
  (exists p, p ∈ rrset_cache env /\ heap env !! p = Some k) /\
  now < d_ttl (entry_data k).
Proof. apply find_closest_of_type_loop_some. Qed.

End LookupFacts.

(** ** Facts on names and on the target of a CNAME or DNAME *)

Lemma dname_valid_walk_bound fuel dname len maxlen :
  dname_valid_walk fuel dname len maxlen <> 0 ->
  dname_valid_walk fuel dname len maxlen <= LDNS_MAX_DOMAINLEN /\
  dname_valid_walk fuel dname len maxlen - len <= Z.of_nat (length dname).
Proof.
  revert dname len; induction fuel as [|fuel IH]; intros dname len; simpl;
    [done|].
  destruct dname as [|labellen rest]; [done|].
  destruct (Z.eqb_spec labellen 0).
  - destruct (Z.gtb_spec (len + 1) maxlen); simpl; [done|].
    destruct (Z.gtb_spec (len + 1) LDNS_MAX_DOMAINLEN); simpl; [done|].
    lia.
  - destruct (Z.gtb_spec (len + labellen + 1) maxlen); simpl; [done|].
    destruct (Z.gtb_spec (len + labellen + 1) LDNS_MAX_DOMAINLEN); simpl;
      [done|].
    intros Hne. destruct (IH _ _ Hne) as [Hmax Hlen]. split; [done|].
    rewrite length_drop in Hlen.
    destruct (decide (Z.to_nat labellen <= length rest)%nat); [lia|].
    exfalso. apply Hne. rewrite drop_ge by lia. by destruct fuel.
Qed.

Section TargetFacts.
Context `{Host}.

Lemma get_cname_target_some rrset dtarg dtarglen :
  get_cname_target rrset = Some (dtarg, dtarglen) ->
  1 <= dtarglen <= LDNS_MAX_DOMAINLEN /\
  dtarglen <= Z.of_nat (length dtarg) /\
  exists len0 lens data0 datas,
    rr_len (entry_data rrset) = len0 :: lens /\
    rr_data (entry_data rrset) = data0 :: datas /\
    dtarg = drop 2 data0 /\ dtarglen = len0 - 2 /\
    dtarglen = ldns_read_uint16 data0.
Proof.
  unfold get_cname_target.
  destruct (_ && _); [done|].
  destruct (d_count (entry_data rrset) <? 1); [done|].
  destruct (rr_len (entry_data rrset)) as [|len0 lens]; [done|].
  destruct (rr_data (entry_data rrset)) as [|data0 datas]; [done|].
  destruct (Z.ltb_spec len0 3); [done|].
  destruct (Z.eqb_spec (ldns_read_uint16 data0) (len0 - 2)) as [E|];
    simpl; [|done].
  destruct (Z.eqb_spec (dname_valid (drop 2 data0) (ldns_read_uint16 data0))
              (ldns_read_uint16 data0)) as [Ev|]; simpl; [|done].
  intros [= <- <-].
  destruct (dname_valid_walk_bound (S (length (drop 2 data0))) (drop 2 data0) 0
              (ldns_read_uint16 data0)) as [Hmax Hlen].
  { fold (dname_valid (drop 2 data0) (ldns_read_uint16 data0)). lia. }
  fold (dname_valid (drop 2 data0) (ldns_read_uint16 data0)) in Hmax, Hlen.
  split_and!; [lia|lia|lia|].
  exists len0, lens, data0, datas. split_and!; try done; lia.
Qed.

End TargetFacts.

(** ** Facts on [dns_cache_lookup] *)

Section LookupStepFacts.
Context `{Host}.

Lemma dns_cache_lookup_message env qname qnamelen qtype qclass now r msg r1 :
  lookup_message env (mk_qinfo qname qnamelen qtype qclass) now r
    = (Some msg, r1) ->
  dns_cache_lookup env qname qnamelen qtype qclass now r = (Some msg, r1).
Proof. intros E. unfold dns_cache_lookup, orelse. by rewrite E. Qed.

Lemma dns_cache_lookup_dname env qname qnamelen qtype qclass now r r1 msg r2 :
  lookup_message env (mk_qinfo qname qnamelen qtype qclass) now r
    = (None, r1) ->
  lookup_dname env (mk_qinfo qname qnamelen qtype qclass) now r1
    = (Some msg, r2) ->
  dns_cache_lookup env qname qnamelen qtype qclass now r = (Some msg, r2).
Proof. intros E1 E2. unfold dns_cache_lookup, orelse. by rewrite E1, E2. Qed.

Lemma dns_cache_lookup_cname env qname qnamelen qtype qclass now r r1 r2 :
  lookup_message env (mk_qinfo qname qnamelen qtype qclass) now r
    = (None, r1) ->
  lookup_dname env (mk_qinfo qname qnamelen qtype qclass) now r1
    = (None, r2) ->
  dns_cache_lookup env qname qnamelen qtype qclass now r =
  lookup_cname env (mk_qinfo qname qnamelen qtype qclass) now r2.
Proof.
  intros E1 E2. unfold dns_cache_lookup, orelse. rewrite E1, E2.
  by destruct (lookup_cname _ _ _ _) as [[?|] ?].
Qed.

(** A message that [dns_cache_lookup] hands back comes from one of the
    three attempts. *)
Lemma dns_cache_lookup_some env qname qnamelen qtype qclass now r msg r' :
  dns_cache_lookup env qname qnamelen qtype qclass now r = (Some msg, r') ->
  let k := mk_qinfo qname qnamelen qtype qclass in
  (exists r0, lookup_message env k now r0 = (Some msg, r')) \/
  (exists r0, lookup_dname env k now r0 = (Some msg, r')) \/
  (exists r0, lookup_cname env k now r0 = (Some msg, r')).
Proof.
  unfold dns_cache_lookup, orelse.
  destruct (lookup_message _ _ _ r) as [[m|] r1] eqn:E1.
  { intros [= <- <-]. left. by exists r. }
  destruct (lookup_dname _ _ _ r1) as [[m|] r2] eqn:E2.
  { intros [= <- <-]. right; left. by exists r1. }
  destruct (lookup_cname _ _ _ r2) as [[m|] r3] eqn:E3; [|done].
  intros [= <- <-]. right; right. by exists r2.
Qed.

End LookupStepFacts.

(** ** DNAME synthesis in [dns_cache_lookup] *)

Section DnameTheorems.
Context `{Host}.

(** C10: whenever [synth_dname_msg] appends the synthesized CNAME as a
    second RRset, the TTL of the reply itself is 0, the TTL of that
    CNAME. *)
Theorem synth_dname_msg_cname_reply_ttl_zero rrset now q r msg r' ck :
  synth_dname_msg rrset now q r = (Some msg, r') ->
  rrsets (rep msg) !! 1%nat = Some ck ->
  rep_ttl (rep msg) = 0 /\
  d_ttl (entry_data ck) = 0 /\
  rr_ttl (entry_data ck) = [0] /\
  rk_type (rk ck) = htons LDNS_RR_TYPE_CNAME.
Proof.
  intros E Hck.
  apply synth_dname_msg_some in E
    as (_ & dtarg & dtarglen & _ & _ & [(_ & Hrep & _)|(_ & Hrep & _)]);
    rewrite Hrep in Hck |- *; simpl in Hck; [done|].
  by injection Hck as <-.
Qed.



(** C4, as the code has it: a DNAME cached at the name asked for, the
    query type being DNAME, goes through the same synthesis as any other
    DNAME hit. The answer is not the DNAME alone: it is the copy of the
    DNAME followed by a synthesized CNAME whose owner is the name and
    whose target is the target of the DNAME (the front that is kept is
    empty). *)
Theorem dname_query_at_owner_synthesizes_cname env qname qnamelen qclass now r
    r1 rrset dtarg dtarglen :
  let k := mk_qinfo qname qnamelen LDNS_RR_TYPE_DNAME qclass in
  0 < qnamelen < 2 ^ 64 ->
  lookup_message env k now r = (None, r1) ->
  rrset_cache_lookup env qname qnamelen LDNS_RR_TYPE_DNAME qclass 0 now false
    = Some rrset ->
  get_cname_target rrset = Some (dtarg, dtarglen) ->
  region_ok 11 r1 = true ->
  exists msg ck,
    dns_cache_lookup env qname qnamelen LDNS_RR_TYPE_DNAME qclass now r
      = (Some msg, drop 11 r1) /\
    rrsets (rep msg) = [rrset_copy rrset now; ck] /\
    an_numrrsets (rep msg) = 2 /\
    rrset_count (rep msg) = 2 /\
    rk_dname (rk ck) = take (Z.to_nat qnamelen) qname /\
    rk_dname_len (rk ck) = qnamelen /\
    rk_type (rk ck) = htons LDNS_RR_TYPE_CNAME /\
    rr_data (entry_data ck) =
      [ldns_write_uint16 dtarglen ++ take (Z.to_nat dtarglen) dtarg] /\
    d_ttl (entry_data ck) = 0.
Proof.
  intros k Hqlen Hmiss Hhit Ht Hmem.
  destruct (rrset_cache_lookup_some _ _ _ _ _ _ _ _ _ Hhit)
    as (_ & Hnow & Hcmp).
  apply ub_rrset_compare_zero in Hcmp as (_ & Hdl & _). simpl in Hdl.
  destruct (get_cname_target_some _ _ _ Ht) as (Hd1 & Hd2 & _).
  unfold LDNS_MAX_DOMAINLEN in *.
  assert (find_closest_of_type env qname qnamelen qclass now
            LDNS_RR_TYPE_DNAME = Some rrset) as Hfind.
  { unfold find_closest_of_type. simpl. rewrite gtb_true by lia.
    by rewrite Hhit. }
  assert (synth_newlen rrset k dtarglen = dtarglen) as Enewlen.
  { unfold synth_newlen, wrap_size. simpl. rewrite Hdl.
    rewrite Z.mod_small; lia. }
  assert (synth_newname rrset k dtarg dtarglen = take (Z.to_nat dtarglen) dtarg)
    as Enewname.
  { unfold synth_newname, wrap_size. simpl. rewrite Hdl, Z.sub_diag.
    by rewrite Z.mod_0_l. }
  eexists _, _. split.
  { eapply dns_cache_lookup_dname; [exact Hmiss|].
    unfold lookup_dname. simpl. rewrite Hfind.
    apply (takes_ok _ _ _ _
             (takes_synth_cname rrset now k dtarg dtarglen ltac:(lia) Ht
                ltac:(unfold LDNS_MAX_DOMAINLEN; lia)) Hmem). }
  simpl. rewrite Enewlen, Enewname.
  split_and!; try done.
  unfold synth_cname. simpl. by rewrite take_take, Nat.min_id.
Qed.

End DnameTheorems.



(** A query of type DNAME for example.com., where the DNAME is cached. *)
Lemma dname_query_at_owner_synthesizes_cname_witness :
  exists msg ck,
    dns_cache_lookup (H:=example_host) env_dname_cname example_com 13
      LDNS_RR_TYPE_DNAME CLASS_IN 100 [] = (Some msg, []) /\
    rrsets (rep msg) = [rrset_copy dname_example_com 100; ck] /\
    an_numrrsets (rep msg) = 2 /\
    rrset_count (rep msg) = 2 /\
    rk_dname (rk ck) = take (Z.to_nat 13) example_com /\
    rk_dname_len (rk ck) = 13 /\
    rk_type (rk ck) = htons (H:=example_host) LDNS_RR_TYPE_CNAME /\
    rr_data (entry_data ck) =
      [ldns_write_uint16 13 ++ take (Z.to_nat 13) example_net] /\
    d_ttl (entry_data ck) = 0.
Proof.
  apply (dname_query_at_owner_synthesizes_cname (H:=example_host)
           env_dname_cname example_com 13 CLASS_IN 100 [] []
           dname_example_com example_net 13).
  - lia.
  - vm_compute. reflexivity.
  - vm_compute. reflexivity.
  - vm_compute. reflexivity.
  - reflexivity.
Defined.

(** C4 as the spec words it fails on that query: the answer holds two
    RRsets. *)
Lemma dname_at_owner_degenerates_counterexample :
  ~ dname_at_owner_degenerates (H:=example_host) env_dname_cname example_com 13
      CLASS_IN 100 [].
Proof.
  intros Hclaim.
  specialize (Hclaim dname_example_com
                (default (mk_msg (mk_qinfo [] 0 0 0) (mk_rep 0 0 0 0 0 0 0 [] []))
                   (dns_cache_lookup (H:=example_host) env_dname_cname
                      example_com 13 LDNS_RR_TYPE_DNAME CLASS_IN 100 []).1)
                []).
  vm_compute in Hclaim.
  specialize (Hclaim eq_refl eq_refl). discriminate Hclaim.
Qed.

(** The DNAME at example.com. serving www.example.com. *)
Lemma synth_dname_msg_cname_reply_ttl_zero_witness :
  exists msg ck,
    synth_dname_msg (H:=example_host) dname_example_com 100
      (mk_qinfo www_example_com 17 LDNS_RR_TYPE_A CLASS_IN) []
      = (Some msg, []) /\
    rrsets (rep msg) !! 1%nat = Some ck /\
    rep_ttl (rep msg) = 0 /\
    d_ttl (entry_data ck) = 0 /\
    rr_ttl (entry_data ck) = [0] /\
    rk_type (rk ck) = htons (H:=example_host) LDNS_RR_TYPE_CNAME.
Proof.
  eexists _, _.
  split; [vm_compute; reflexivity|].
  split; [reflexivity|].
  eapply (synth_dname_msg_cname_reply_ttl_zero (H:=example_host)
            dname_example_com 100
            (mk_qinfo www_example_com 17 LDNS_RR_TYPE_A CLASS_IN) []).
  - vm_compute. reflexivity.
  - reflexivity.
Defined.

(** Three keys in ascending order: a CNAME, and two DNAMEs with owner
    names of 13 and of 17 bytes. *)
Lemma ub_rrset_compare_total_order_witness :
  ub_rrset_compare (rk cname_www_example_com) (rk dname_example_com) <= 0 /\
  ub_rrset_compare (rk dname_example_com)
    (mk_rk www_example_com 17 0 9984 256) <= 0 /\
  ub_rrset_compare (rk cname_www_example_com)
    (mk_rk www_example_com 17 0 9984 256) <= 0 /\
  (ub_rrset_compare (rk dname_example_com) (rk dname_long_target) = 0 <->
   rk_type (rk dname_example_com) = rk_type (rk dname_long_target) /\
   tolower <$> rk_dname (rk dname_example_com)
     = tolower <$> rk_dname (rk dname_long_target) /\
   rk_rrset_class (rk dname_example_com)
     = rk_rrset_class (rk dname_long_target) /\
   rk_flags (rk dname_example_com) = rk_flags (rk dname_long_target)).
Proof.
  destruct ub_rrset_compare_total_order
    as (_ & _ & _ & Hzero & _ & Htrans & _).
  assert (ub_rrset_compare (rk cname_www_example_com) (rk dname_example_com)
          <= 0) as H1 by (vm_compute; discriminate).
  assert (ub_rrset_compare (rk dname_example_com)
            (mk_rk www_example_com 17 0 9984 256) <= 0) as H2
    by (vm_compute; discriminate).
  split_and!; [exact H1|exact H2| |].
  - exact (Htrans _ _ _ H1 H2).
  - apply Hzero; reflexivity.
Defined.

(** ** Expired entries *)

Lemma takes_copy_rrsets env keys now :
  Forall (fun p => is_Some (heap env !! p)) keys ->
  takes (copy_rrsets env keys now) (3 * length keys)
    (omap (fun p => (fun k => rrset_copy k now) <$> heap env !! p) keys).
Proof.
  induction 1 as [|p keys [k Hk] _ IH]; [apply takes_ret|].
  remember (3 * length keys)%nat as n eqn:En.
  replace (3 * length (p :: keys))%nat with (3 + (n + 0))%nat
    by (simpl; lia).
  simpl. rewrite Hk. simpl.
  apply (takes_bind _ _ 3 (n + 0) _ _ (takes_copy_rrset k now)).
  apply (takes_bind _ _ n 0 _ _ IH). apply takes_ret.
Qed.

Section ExpiryTheorems.
Context `{Host}.

Lemma tomsg_expired env e r now region :
  rep_ttl r < now -> tomsg env e r now region = (None, region).
Proof. intros. unfold tomsg. by rewrite gtb_true. Qed.

Lemma cname_msg_expired rrset now q region :
  d_ttl (entry_data rrset) < now -> cname_msg rrset now q region = (None, region).
Proof. intros. unfold cname_msg. by rewrite gtb_true. Qed.

(** The RRset cache hands out no RRset under a key whose RRsets have all
    expired. *)
Lemma rrset_cache_lookup_expired env qname qnamelen qtype qclass flags now wr :
  rrset_expired_under env (lookup_key qname qnamelen qtype qclass flags) now ->
  rrset_cache_lookup env qname qnamelen qtype qclass flags now wr = None.
Proof.
  intros Hexp.
  destruct (rrset_cache_lookup env qname qnamelen qtype qclass flags now wr)
    as [k|] eqn:E; [|done].
  apply rrset_cache_lookup_some in E as ((p & Hp & Hk) & Hlive & Hc).
  specialize (Hexp p k Hp Hk Hc). lia.
Qed.

Lemma find_closest_of_type_loop_expired fuel env qname qnamelen qclass now ty :
  (forall nm len,
     rrset_expired_under env (lookup_key nm len ty qclass 0) now) ->
  find_closest_of_type_loop fuel env qname qnamelen qclass now ty = None.
Proof.
  intros Hexp. revert qname qnamelen.
  induction fuel as [|fuel IH]; intros qname qnamelen; simpl; [done|].
  destruct (qnamelen >? 0); [|done].
  rewrite rrset_cache_lookup_expired by apply Hexp.
  destruct qname; [done|apply IH].
Qed.

Lemma lookup_dname_expired env k now region :
  (forall nm len,
     rrset_expired_under env
       (lookup_key nm len LDNS_RR_TYPE_DNAME (qclass k) 0) now) ->
  lookup_dname env k now region = (None, region).
Proof.
  intros Hexp. unfold lookup_dname, find_closest_of_type.
  by rewrite find_closest_of_type_loop_expired.
Qed.

Lemma lookup_cname_expired env k now region :
  rrset_expired_under env
    (lookup_key (qname k) (qname_len k) LDNS_RR_TYPE_CNAME (qclass k) 0) now ->
  lookup_cname env k now region = (None, region).
Proof.
  intros Hexp. unfold lookup_cname.
  by rewrite rrset_cache_lookup_expired.
Qed.

(** A message that expires at [now] itself passes the test [now > ttl] of
    [tomsg]. *)
Lemma takes_tomsg_at_expiry env e (r : reply_info ptr) now :
  now <= rep_ttl r ->
  rrset_array_lock env (ref r) (rrset_count r) now = true ->
  Forall (fun p => is_Some (heap env !! p))
    (take (Z.to_nat (rrset_count r)) (rrsets r)) ->
  takes (tomsg env e r now)
    (4 + 3 * length (take (Z.to_nat (rrset_count r)) (rrsets r)))
    {| qinfo := qinfo_copy (me_key e);
       rep := mk_rep (rep_flags r) (qdcount r) (rep_ttl r) (an_numrrsets r)
                (ns_numrrsets r) (ar_numrrsets r) (rrset_count r)
                (omap (fun p => (fun k => rrset_copy k now) <$> heap env !! p)
                   (take (Z.to_nat (rrset_count r)) (rrsets r))) [] |}.
Proof.
  intros Hnow Hlock Hkeys. unfold tomsg. rewrite gtb_false by lia.
  apply (takes_bind _ _ 4 _ _ _ (takes_gen_dns_msg _ _)).
  rewrite Hlock. cbn [negb].
  rewrite <-(Nat.add_0_r (3 * length _)).
  apply (takes_bind _ _ _ 0 _ _ (takes_copy_rrsets env _ now Hkeys)).
  apply takes_ret.
Qed.

(** C1, as the code has it. A message whose expiry time lies before [now]
    and an RRset whose expiry time is [now] or lies before it are a miss
    for a lookup at time [now]:
    - [tomsg], [synth_dname_msg] and [cname_msg] answer NULL and leave the
      region as it is when [ttl < now];
    - when the message found for the query has [ttl < now], the lookup goes
      on with the DNAME walk and the CNAME;
    - the DNAME walk and the CNAME step get from the RRset cache only
      RRsets with [ttl > now]; the DNAME step answers NULL, the region as
      it is, when every DNAME RRset of the class has [ttl <= now], and so
      does the CNAME step when the CNAME of the name has [ttl <= now];
    - with a message of [ttl < now], or none, and these RRsets at
      [ttl <= now], the lookup answers NULL and has allocated nothing.
    A message with [ttl = now] is not refused, the test being [now > ttl]:
    with its references locked, its RRset pointers in place and memory
    for the message and three allocations per RRset, the lookup serves
    it. *)
Theorem expired_entries_are_refused :
  (forall env e (r : reply_info ptr) now region,
     rep_ttl r < now -> tomsg env e r now region = (None, region)) /\
  (forall rrset now q region,
     d_ttl (entry_data rrset) < now ->
     synth_dname_msg rrset now q region = (None, region)) /\
  (forall rrset now q region,
     d_ttl (entry_data rrset) < now ->
     cname_msg rrset now q region = (None, region)) /\
  (forall env qname qnamelen qtype qclass now region e,
     let k := mk_qinfo qname qnamelen qtype qclass in
     slabhash_lookup (msg_cache env) (query_info_hash k) k false = Some e ->
     rep_ttl (me_data e) < now ->
     dns_cache_lookup env qname qnamelen qtype qclass now region =
     orelse (lookup_dname env k now) (orelse (lookup_cname env k now) mnull)
       region) /\
  (forall env nm len cl now rrset,
     find_closest_of_type env nm len cl now LDNS_RR_TYPE_DNAME = Some rrset \/
     rrset_cache_lookup env nm len LDNS_RR_TYPE_CNAME cl 0 now false
       = Some rrset ->
     now < d_ttl (entry_data rrset)) /\
  (forall env k now region,
     (forall nm len,
        rrset_expired_under env
          (lookup_key nm len LDNS_RR_TYPE_DNAME (qclass k) 0) now) ->
     lookup_dname env k now region = (None, region)) /\
  (forall env k now region,
     rrset_expired_under env
       (lookup_key (qname k) (qname_len k) LDNS_RR_TYPE_CNAME (qclass k) 0)
       now ->
     lookup_cname env k now region = (None, region)) /\
  (forall env qname qnamelen qtype qclass now region,
     let k := mk_qinfo qname qnamelen qtype qclass in
     match slabhash_lookup (msg_cache env) (query_info_hash k) k false with
     | Some e => rep_ttl (me_data e) < now
     | None => True
     end ->
     (forall nm len,
        rrset_expired_under env
          (lookup_key nm len LDNS_RR_TYPE_DNAME qclass 0) now) ->
     rrset_expired_under env
       (lookup_key qname qnamelen LDNS_RR_TYPE_CNAME qclass 0) now ->
     dns_cache_lookup env qname qnamelen qtype qclass now region
       = (None, region)) /\
  (forall env qname qnamelen qtype qclass now region e,
     let k := mk_qinfo qname qnamelen qtype qclass in
     let r := me_data e in
     let keys := take (Z.to_nat (rrset_count r)) (rrsets r) in
     slabhash_lookup (msg_cache env) (query_info_hash k) k false = Some e ->
     rep_ttl r = now ->
     rrset_array_lock env (ref r) (rrset_count r) now = true ->
     Forall (fun p => is_Some (heap env !! p)) keys ->
     region_ok (4 + 3 * length keys) region = true ->
     exists msg,
       dns_cache_lookup env qname qnamelen qtype qclass now region
         = (Some msg, drop (4 + 3 * length keys) region) /\
       rep_ttl (rep msg) = now /\
       Forall2
         (fun p ck => exists k, heap env !! p = Some k /\ ck = rrset_copy k now)
         keys (rrsets (rep msg))).
Proof.
  assert (forall env qname qnamelen qtype qclass now region e,
            let k := mk_qinfo qname qnamelen qtype qclass in
            slabhash_lookup (msg_cache env) (query_info_hash k) k false
              = Some e ->
            rep_ttl (me_data e) < now ->
            dns_cache_lookup env qname qnamelen qtype qclass now region =
            orelse (lookup_dname env k now)
              (orelse (lookup_cname env k now) mnull) region) as Hfall.
  { intros env qname qnamelen qtype qclass now region e k He Hexp.
    unfold dns_cache_lookup. fold k. unfold orelse at 1.
    unfold lookup_message. rewrite He. by rewrite tomsg_expired. }
  split_and!.
  - apply tomsg_expired.
  - apply synth_dname_msg_expired.
  - apply cname_msg_expired.
  - exact Hfall.
  - intros env nm len cl now rrset [E|E].
    + by apply find_closest_of_type_some in E as [_ ?].
    + by apply rrset_cache_lookup_some in E as (_ & ? & _).
  - apply lookup_dname_expired.
  - apply lookup_cname_expired.
  - intros env qname qnamelen qtype qclass now region k Hmsg Hdname Hcname.
    assert (dns_cache_lookup env qname qnamelen qtype qclass now region =
            orelse (lookup_dname env k now)
              (orelse (lookup_cname env k now) mnull) region) as ->.
    { destruct (slabhash_lookup (msg_cache env) (query_info_hash k) k false)
        as [e|] eqn:He; [by apply (Hfall _ _ _ _ _ _ _ e)|].
      unfold dns_cache_lookup. fold k. unfold orelse at 1.
      unfold lookup_message. by rewrite He. }
    unfold orelse.
    rewrite (lookup_dname_expired env k now region) by exact Hdname.
    by rewrite (lookup_cname_expired env k now region) by exact Hcname.
  - intros env qname qnamelen qtype qclass now region e k r keys He Httl Hlock
      Hkeys Hmem.
    pose proof (takes_tomsg_at_expiry env e r now ltac:(lia) Hlock Hkeys)
      as Htakes.
    eexists. split.
    + apply dns_cache_lookup_message. unfold lookup_message. fold k.
      rewrite He. fold r. apply (takes_ok _ _ _ _ Htakes Hmem).
    + cbn [rep rep_ttl rrsets]. split; [done|]. fold keys.
      clear -Hkeys. induction Hkeys as [|p keys [k Hk] _ IH]; simpl; [done|].
      rewrite Hk. simpl. constructor; [by exists k|done].
Qed.

End ExpiryTheorems.

(** The message of [env_message], which expires at 100: refused at 101,
    the lookup going on with the DNAME walk and the CNAME, and served at
    100; and the CNAME of [env_dname_cname], which expires at 3700: a miss
    for the CNAME step at 3700. *)
Lemma expired_entries_are_refused_witness :
  tomsg (H:=example_host) env_message msg_example_com
    (me_data msg_example_com) 101 [] = (None, []) /\
  dns_cache_lookup (H:=example_host) env_message example_com 13
    LDNS_RR_TYPE_A CLASS_IN 101 [] =
  orelse
    (lookup_dname (H:=example_host) env_message
       (mk_qinfo example_com 13 LDNS_RR_TYPE_A CLASS_IN) 101)
    (orelse
       (lookup_cname (H:=example_host) env_message
          (mk_qinfo example_com 13 LDNS_RR_TYPE_A CLASS_IN) 101)
       mnull) [] /\
  lookup_cname (H:=example_host) env_dname_cname
    (mk_qinfo www_example_com 17 LDNS_RR_TYPE_A CLASS_IN) 3700 []
    = (None, []) /\
  exists msg,
    dns_cache_lookup (H:=example_host) env_message example_com 13
      LDNS_RR_TYPE_A CLASS_IN 100 []
      = (Some msg, drop (4 + 3 * 1) []) /\
    rep_ttl (rep msg) = 100 /\
    Forall2
      (fun p ck =>
         exists k, heap env_message !! p = Some k /\ ck = rrset_copy k 100)
      [1%nat] (rrsets (rep msg)).
Proof.
  destruct (expired_entries_are_refused (H:=example_host))
    as (Hmsg & _ & _ & Hlookup & _ & _ & Hcname & _ & Hserved).
  split_and!.
  - apply Hmsg. vm_compute. reflexivity.
  - apply (Hlookup env_message example_com 13 LDNS_RR_TYPE_A CLASS_IN 101 []
             msg_example_com).
    + vm_compute. reflexivity.
    + vm_compute. reflexivity.
  - apply Hcname. intros p e Hp Hheap _.
    apply elem_of_cons in Hp as [->|Hp].
    + vm_compute in Hheap. injection Hheap as <-. vm_compute. discriminate.
    + apply list_elem_of_singleton in Hp as ->.
      vm_compute in Hheap. injection Hheap as <-. vm_compute. discriminate.
  - apply (Hserved env_message example_com 13 LDNS_RR_TYPE_A CLASS_IN 100 []
             msg_example_com).
    + vm_compute. reflexivity.
    + reflexivity.
    + vm_compute. reflexivity.
    + repeat constructor. by eexists.
    + reflexivity.
Defined.

(** The message at the second it expires ([ttl = now = 100]) is served
    with the address of example.com. *)
Lemma message_served_at_expiry :
  exists msg,
    dns_cache_lookup (H:=example_host) env_message example_com 13
      LDNS_RR_TYPE_A CLASS_IN 100 [] = (Some msg, []) /\
    rrsets (rep msg) = [rrset_copy a_example_com 100].
Proof. eexists. split; vm_compute; reflexivity. Qed.

(** C1 as the spec words it ([ttl <= now]) fails for a message at
    [ttl = now]: the lookup serves the message of [env_message] at time
    100, while the DNAME walk and the CNAME step, with which it would
    have to go on, find nothing. *)
Lemma expired_entries_refused_counterexample :
  ~ expired_entries_refused (H:=example_host) 100.
Proof.
  intros (Hmsg & _ & _).
  specialize (Hmsg env_message example_com 13 LDNS_RR_TYPE_A CLASS_IN []
                msg_example_com).
  cbv zeta in Hmsg.
  specialize (Hmsg ltac:(vm_compute; reflexivity)
                   ltac:(vm_compute; discriminate)).
  vm_compute in Hmsg. discriminate Hmsg.
Qed.

(** ** The delegation search *)

Lemma delegpt_add_ns_each_name dp rdatas r :
  dp_name (delegpt_add_ns_each dp rdatas r).1.2 = dp_name dp.
Proof.
  revert dp r; induction rdatas as [|rdata rdatas IH]; intros dp r; simpl;
    [done|].
  unfold sbind. destruct (region_alloc r) as [[[]|] r1]; simpl; [|done].
  by rewrite IH.
Qed.

Lemma delegpt_add_rrset_name dp akey r :
  dp_name (delegpt_add_rrset dp akey r).1.2 = dp_name dp.
Proof.
  unfold delegpt_add_rrset, sbind.
  by destruct (region_alloc r) as [[[]|] r1].
Qed.

Lemma takes_delegpt_create :
  takes delegpt_create 1
    {| dp_name := []; dp_namelen := 0; nslist := []; target_list := [] |}.
Proof.
  unfold delegpt_create.
  takes_allocs.
Qed.

Lemma takes_delegpt_set_name dp name :
  takes (delegpt_set_name dp name) 1
    {| dp_name := name; dp_namelen := Z.of_nat (length name);
       nslist := nslist dp; target_list := target_list dp |}.
Proof.
  unfold delegpt_set_name.
  takes_allocs.
Qed.

Section DelegationFacts.
Context `{Host}.

Lemma find_add_addr_name env qclass ns atype dp now msg r dp' msg' :
  (find_add_addr env qclass ns atype dp now msg r).1 = Some (dp', msg') ->
  dp_name dp' = dp_name dp.
Proof.
  unfold find_add_addr.
  destruct (rrset_cache_lookup _ _ _ _ _ _ _ _) as [akey|];
    [|by intros [= <- _]].
  unfold sbind. pose proof (delegpt_add_rrset_name dp akey r) as Hn.
  destruct (delegpt_add_rrset dp akey r) as [[[] dp1] r1]; simpl in *;
    [|done].
  destruct msg as [m|]; [|by intros [= <- _]].
  destruct (addr_to_additional akey m now r1) as [m' r2]. by intros [= <- _].
Qed.

Lemma find_add_addrs_loop_name env qclass nss dp now msg r :
  dp_name (find_add_addrs_loop env qclass nss dp now msg r).1.1.2 = dp_name dp.
Proof.
  revert dp msg r; induction nss as [|ns nss IH]; intros dp msg r; simpl;
    [done|].
  unfold sbind.
  destruct (find_add_addr env qclass ns LDNS_RR_TYPE_A dp now msg r)
    as [[[dp1 msg1]|] r1] eqn:E1; [|done].
  pose proof (find_add_addr_name env qclass ns LDNS_RR_TYPE_A dp now msg r
                dp1 msg1) as N1.
  rewrite E1 in N1. specialize (N1 eq_refl).
  destruct (find_add_addr env qclass ns LDNS_RR_TYPE_AAAA dp1 now msg1 r1)
    as [[[dp2 msg2]|] r2] eqn:E2; [|done].
  pose proof (find_add_addr_name env qclass ns LDNS_RR_TYPE_AAAA dp1 now msg1
                r1 dp2 msg2) as N2.
  rewrite E2 in N2. specialize (N2 eq_refl).
  rewrite IH. congruence.
Qed.

Lemma delegation_fill_name env qclass now nskey dp msg r :
  dp_name (delegation_fill env qclass now nskey dp msg r).1.1 = dp_name dp.
Proof.
  unfold delegation_fill, sbind.
  pose proof (delegpt_add_ns_each_name dp
                (take (Z.to_nat (d_count (entry_data nskey)))
                   (rr_data (entry_data nskey))) r) as N1.
  unfold delegpt_rrset_add_ns.
  destruct (delegpt_add_ns_each dp _ r) as [[ok dp1] r1]. simpl in *.
  unfold find_add_addrs.
  destruct msg as [m|].
  - unfold sbind, sret. destruct (find_add_ds env m dp1 now r1) as [m' r2].
    pose proof (find_add_addrs_loop_name env qclass (nslist dp1) dp1 now
                  (Some m') r2) as N2.
    destruct (find_add_addrs_loop env qclass (nslist dp1) dp1 now (Some m') r2)
      as [[[ok2 dp2] msg2] r3].
    simpl in *. congruence.
  - unfold sret.
    pose proof (find_add_addrs_loop_name env qclass (nslist dp1) dp1 now
                  None r1) as N2.
    destruct (find_add_addrs_loop env qclass (nslist dp1) dp1 now None r1)
      as [[[ok2 dp2] msg2] r3].
    simpl in *. congruence.
Qed.

(** [dns_cache_find_delegation] in two parts: the setup, which can end it
    with NULL, and the filling, which cannot. *)
Lemma dns_cache_find_delegation_parts env qname qnamelen qtype qclass now
    want_msg r :
  dns_cache_find_delegation env qname qnamelen qtype qclass now want_msg r =
  match
    find_closest_of_type env qname qnamelen qclass now LDNS_RR_TYPE_NS
  with
  | None => (None, r)
  | Some nskey =>
      match
        delegation_setup qname qnamelen qtype qclass now want_msg nskey r
      with
      | (Some (dp, msg), r1) =>
          let (res, r2) := delegation_fill env qclass now nskey dp msg r1 in
          (Some res, r2)
      | (None, r1) => (None, r1)
      end
  end.
Proof.
  unfold dns_cache_find_delegation, delegation_setup, delegation_fill.
  destruct (find_closest_of_type _ _ _ _ _ _) as [nskey|]; [|done].
  unfold bind, sbind, mret, sret.
  destruct (delegpt_create r) as [[dp|] r1]; [|done].
  destruct (delegpt_set_name dp _ r1) as [[dp1|] r2]; [|done].
  destruct want_msg.
  - destruct (create_msg _ _ _ _ _ _ _ r2) as [[m|] r3]; [|done].
    destruct (delegpt_rrset_add_ns dp1 nskey r3) as [added r4].
    destruct (find_add_ds env m added.2 now r4) as [m' r5].
    by destruct (find_add_addrs env qclass added.2 now (Some m') r5)
      as [[[ok dp2] msg2] r6].
  - destruct (delegpt_rrset_add_ns dp1 nskey r2) as [added r4].
    by destruct (find_add_addrs env qclass added.2 now None r4)
      as [[[ok dp2] msg2] r6].
Qed.

(** The referral message as [create_msg] leaves it. *)
Lemma takes_create_msg qname qnamelen qtype qclass nskey nsdata now :
  takes (create_msg qname qnamelen qtype qclass nskey nsdata now) 7
    (msg_push_ns
       {| qinfo := {| qname := take (Z.to_nat qnamelen) qname;
                      qname_len := qnamelen; qtype := qtype;
                      qclass := qclass |};
          rep := mk_rep BIT_QR 1 0 0 0 0 0 [] [] |}
       (rrset_copy nskey now)).
Proof.
  unfold create_msg.
  do 4 apply takes_bind_alloc.
  apply (takes_bind _ _ 3 0 _ _ (takes_copy_rrset _ _)).
  apply takes_ret.
Qed.

Lemma takes_delegation_setup qname qnamelen qtype qclass now want_msg nskey :
  takes (delegation_setup qname qnamelen qtype qclass now want_msg nskey)
    (delegation_setup_allocs want_msg)
    (delegation_setup_result qname qnamelen qtype qclass now want_msg nskey).
Proof.
  unfold delegation_setup, delegation_setup_result, delegation_setup_allocs.
  destruct want_msg.
  - apply (takes_bind _ _ 1 8 _ _ takes_delegpt_create).
    apply (takes_bind _ _ 1 7 _ _ (takes_delegpt_set_name _ _)).
    apply (takes_bind _ _ 7 0 _ _
             (takes_map _ Some _ _ (takes_create_msg _ _ _ _ _ _ _))).
    apply takes_ret.
  - apply (takes_bind _ _ 1 1 _ _ takes_delegpt_create).
    apply (takes_bind _ _ 1 0 _ _ (takes_delegpt_set_name _ _)).
    apply (takes_bind _ _ 0 0 _ _ (takes_ret _)).
    apply takes_ret.
Qed.

(** C7, as the code has it: once the NS RRset is found, the outcome of
    [dns_cache_find_delegation] is decided by the allocations of the
    delegation point, of its name and, when a referral message is asked
    for, of that message (2 allocations, or 9). If they succeed, the
    delegation point, named after the NS RRset, is handed back whatever
    fails later; if one of them fails, the result is NULL. *)
Theorem find_delegation_allocation_failures env qname qnamelen qtype qclass
    now want_msg nskey r :
  find_closest_of_type env qname qnamelen qclass now LDNS_RR_TYPE_NS
    = Some nskey ->
  (region_ok (delegation_setup_allocs want_msg) r = true ->
   exists dp msg r',
     dns_cache_find_delegation env qname qnamelen qtype qclass now want_msg r
       = (Some (dp, msg), r') /\
     dp_name dp = rk_dname (rk nskey)) /\
  (region_ok (delegation_setup_allocs want_msg) r = false ->
   (dns_cache_find_delegation env qname qnamelen qtype qclass now want_msg
      r).1 = None).
Proof.
  intros Hfind. rewrite dns_cache_find_delegation_parts, Hfind.
  pose proof (takes_delegation_setup qname qnamelen qtype qclass now want_msg
                nskey r) as Hsetup.
  split; intros Hmem; rewrite Hmem in Hsetup.
  - rewrite Hsetup.
    pose proof (delegation_fill_name env qclass now nskey
                  (delegation_setup_result qname qnamelen qtype qclass now
                     want_msg nskey).1
                  (delegation_setup_result qname qnamelen qtype qclass now
                     want_msg nskey).2
                  (drop (delegation_setup_allocs want_msg) r)) as Hname.
    cbn [delegation_setup_result fst snd] in *.
    destruct (delegation_fill _ _ _ _ _ _ _) as [[dp msg] r2].
    by exists dp, msg, r2.
  - destruct (delegation_setup _ _ _ _ _ _ _ r) as [[[dp msg]|] r1];
      simpl in *; done.
Qed.

(** C6: on a name in wire form [dns_cache_find_delegation] looks type NS
    up at the name and at its ancestors, one label further up each time,
    the root last; the first hit, that is the longest of these names with
    an NS RRset, names the delegation point; and when none of them has an
    NS RRset the result is NULL. *)
Theorem find_delegation_walks_ancestors env ls qtype qclass now want_msg :
  let qname := wire ls in
  let qnamelen := Z.of_nat (length qname) in
  let hit name :=
    rrset_cache_lookup env name (Z.of_nat (length name)) LDNS_RR_TYPE_NS
      qclass 0 now false in
  Forall label_ok ls ->
  qnamelen < 2 ^ 64 ->
  find_closest_of_type env qname qnamelen qclass now LDNS_RR_TYPE_NS
    = first_hit hit (ancestors ls) /\
  last (ancestors ls) = Some [0] /\
  (Forall (fun name => hit name = None) (ancestors ls) ->
   forall r,
     dns_cache_find_delegation env qname qnamelen qtype qclass now want_msg r
       = (None, r)) /\
  (forall nskey,
     first_hit hit (ancestors ls) = Some nskey ->
     (exists i,
        (i <= length ls)%nat /\
        hit (wire (drop i ls)) = Some nskey /\
        forall j, (j < i)%nat -> hit (wire (drop j ls)) = None) /\
     forall r,
       region_ok (delegation_setup_allocs want_msg) r = true ->
       exists dp msg r',
         dns_cache_find_delegation env qname qnamelen qtype qclass now
           want_msg r = (Some (dp, msg), r') /\
         dp_name dp = rk_dname (rk nskey)).
Proof.
  intros qname qnamelen hit Hls Hlen.
  assert (find_closest_of_type env qname qnamelen qclass now LDNS_RR_TYPE_NS
          = first_hit hit (ancestors ls)) as Hwalk
    by (by apply find_closest_of_type_wire).
  split_and!.
  - done.
  - clear. unfold ancestors. induction ls as [|l ls IH]; [done|].
    simpl suffixes. rewrite fmap_cons, last_cons.
    change (wire <$> suffixes ls) with (ancestors ls) in *.
    unfold ancestors in *. by rewrite IH.
  - intros Hnone%first_hit_none r.
    by rewrite dns_cache_find_delegation_parts, Hwalk, Hnone.
  - intros nskey Hsome. split.
    + apply first_hit_some in Hsome as (i & a & Hi & Ha & Hbefore).
      unfold ancestors in Hi. rewrite list_lookup_fmap in Hi.
      destruct (suffixes ls !! i) as [s|] eqn:Hs; [|done].
      injection Hi as <-. apply suffixes_lookup in Hs as [-> Hile].
      exists i. split_and!; [done|done|].
      intros j Hj. apply (Hbefore j); [done|].
      unfold ancestors. rewrite list_lookup_fmap.
      assert (suffixes ls !! j = Some (drop j ls)) as ->; [|done].
      clear -Hj Hile. revert j i Hj Hile.
      induction ls as [|l ls IH]; intros [|j] i Hj Hile; simpl in *;
        try done; try lia.
      apply (IH j (pred i)); lia.
    + intros r Hmem.
      rewrite dns_cache_find_delegation_parts, Hwalk, Hsome.
      rewrite (takes_ok _ _ _ _
                 (takes_delegation_setup qname qnamelen qtype qclass now
                    want_msg nskey) Hmem).
      cbn [delegation_setup_result].
      match goal with
      | |- context [delegation_fill ?e ?c ?n ?k ?d ?m ?rr] =>
          pose proof (delegation_fill_name e c n k d m rr) as Hname;
          destruct (delegation_fill e c n k d m rr) as [[dp msg] r2]
      end.
      by exists dp, msg, r2.
Qed.

End DelegationFacts.

(** The delegation of www.example.com. with NS cached at example.com.: the
    region serves the nine allocations of the setup and fails from then
    on, or fails at the second allocation. *)
Lemma find_delegation_allocation_failures_witness :
  (exists dp msg r',
     dns_cache_find_delegation (H:=example_host) env_delegation
       www_example_com 17 LDNS_RR_TYPE_A CLASS_IN 100 true
       (replicate 9 true ++ replicate 8 false) = (Some (dp, msg), r') /\
     dp_name dp = example_com) /\
  (dns_cache_find_delegation (H:=example_host) env_delegation
     www_example_com 17 LDNS_RR_TYPE_A CLASS_IN 100 true [true; false]).1
  = None.
Proof.
  split.
  - apply (find_delegation_allocation_failures (H:=example_host)
             env_delegation www_example_com 17 LDNS_RR_TYPE_A CLASS_IN 100
             true ns_example_com (replicate 9 true ++ replicate 8 false)).
    + vm_compute. reflexivity.
    + reflexivity.
  - apply (find_delegation_allocation_failures (H:=example_host)
             env_delegation www_example_com 17 LDNS_RR_TYPE_A CLASS_IN 100
             true ns_example_com [true; false]).
    + vm_compute. reflexivity.
    + reflexivity.
Defined.

(** C7 as the spec words it fails when the very first allocation, that of
    the delegation point, fails. *)
Lemma delegation_survives_allocation_failure_counterexample :
  ~ delegation_survives_allocation_failure (H:=example_host) env_delegation
      www_example_com 17 LDNS_RR_TYPE_A CLASS_IN 100 false.
Proof.
  intros Hclaim.
  destruct (Hclaim ns_example_com [false]) as (dp & msg & r' & E).
  - vm_compute. reflexivity.
  - vm_compute in E. discriminate E.
Qed.

(** www.example.com. with NS cached at example.com., and with nothing
    cached. *)
Lemma find_delegation_walks_ancestors_witness :
  (exists i,
     (i <= 3)%nat /\
     rrset_cache_lookup (H:=example_host) env_delegation
       (wire (drop i [lbl_www; lbl_example; lbl_com]))
       (Z.of_nat (length (wire (drop i [lbl_www; lbl_example; lbl_com]))))
       LDNS_RR_TYPE_NS CLASS_IN 0 100 false = Some ns_example_com /\
     forall j, (j < i)%nat ->
       rrset_cache_lookup (H:=example_host) env_delegation
         (wire (drop j [lbl_www; lbl_example; lbl_com]))
         (Z.of_nat (length (wire (drop j [lbl_www; lbl_example; lbl_com]))))
         LDNS_RR_TYPE_NS CLASS_IN 0 100 false = None) /\
  (exists dp msg r',
     dns_cache_find_delegation (H:=example_host) env_delegation
       www_example_com 17 LDNS_RR_TYPE_A CLASS_IN 100 false [] =
     (Some (dp, msg), r') /\
     dp_name dp = example_com) /\
  dns_cache_find_delegation (H:=example_host) env_empty www_example_com 17
    LDNS_RR_TYPE_A CLASS_IN 100 false [] = (None, []).
Proof.
  assert (Forall label_ok [lbl_www; lbl_example; lbl_com]) as Hls
    by (repeat constructor).
  assert (Z.of_nat (length (wire [lbl_www; lbl_example; lbl_com])) < 2 ^ 64)
    as Hlen by (vm_compute; reflexivity).
  destruct (find_delegation_walks_ancestors (H:=example_host) env_delegation
              [lbl_www; lbl_example; lbl_com] LDNS_RR_TYPE_A CLASS_IN 100
              false Hls Hlen) as (_ & _ & _ & Hhit).
  destruct (Hhit ns_example_com) as [Hfirst Hdp];
    [vm_compute; reflexivity|].
  destruct (find_delegation_walks_ancestors (H:=example_host) env_empty
              [lbl_www; lbl_example; lbl_com] LDNS_RR_TYPE_A CLASS_IN 100
              false Hls Hlen) as (_ & _ & Hmiss & _).
  split_and!.
  - exact Hfirst.
  - apply (Hdp []). reflexivity.
  - apply (Hmiss ltac:(repeat constructor) []).
Defined.

(** ** TTLs of served messages *)

Lemma for_each_index_all f a :
  for_each_index (length a) f a = f <$> a.
Proof. induction a as [|x a IH]; simpl; [done|]. by rewrite IH. Qed.

Lemma rrset_copy_rebased now k :
  data_wf (entry_data k) ->
  0 <= now < 2 ^ 32 ->
  now <= d_ttl (entry_data k) ->
  rebased_from now k (rrset_copy k now).
Proof.
  intros (Hlen & Hrange & Hmin & _) Hnow Hlive. split; [done|].
  unfold rrset_copy. simpl. rewrite <-Hlen, for_each_index_all.
  apply Forall2_fmap_l, Forall_Forall2_diag.
  clear Hlen. induction (rr_ttl (entry_data k)) as [|t ts IH]; [done|].
  apply Forall_cons in Hrange as [Ht Hrange].
  apply Forall_cons in Hmin as [Hm Hmin].
  constructor; [|by apply IH].
  unfold compose, wrap32. rewrite Z.mod_small by lia. lia.
Qed.

Lemma copy_rrsets_some env keys now r cks r' :
  copy_rrsets env keys now r = (Some cks, r') ->
  Forall2 (fun p ck => exists k, heap env !! p = Some k /\ ck = rrset_copy k now)
    keys cks.
Proof.
  revert r cks r'; induction keys as [|p keys IH]; intros r cks r'; simpl.
  { by intros [= <- _]. }
  destruct (heap env !! p) as [k|] eqn:Hk; [|done].
  unfold bind.
  destruct (copy_rrset k now r) as [[ck|] r1] eqn:E1; [|done].
  destruct (copy_rrsets env keys now r1) as [[rest|] r2] eqn:E2; [|done].
  intros [= <- _].
  apply (takes_some _ _ _ _ _ _ (takes_copy_rrset k now)) in E1 as (_ & -> & _).
  constructor; [by exists k|]. by eapply IH.
Qed.

Section TtlTheorems.
Context `{Host}.

Lemma rrset_array_lock_live env refs count now p :
  rrset_array_lock env refs count now = true ->
  p ∈ ref_key <$> take (Z.to_nat count) refs ->
  exists k, heap env !! p = Some k /\ now < d_ttl (entry_data k).
Proof.
  unfold rrset_array_lock. rewrite forallb_forall.
  intros Hall (rf & -> & Hin)%list_elem_of_fmap.
  specialize (Hall rf (proj1 (list_elem_of_In _ _) Hin)).
  destruct (heap env !! ref_key rf) as [k|]; [|done].
  apply andb_prop in Hall as [_ Httl]. exists k. split; [done|].
  rewrite Z.gtb_ltb in Httl. by apply Z.ltb_lt.
Qed.

Lemma tomsg_rrsets env e r now region msg region' :
  tomsg env e r now region = (Some msg, region') ->
  rrset_array_lock env (ref r) (rrset_count r) now = true /\
  Forall2 (fun p ck => exists k, heap env !! p = Some k /\ ck = rrset_copy k now)
    (take (Z.to_nat (rrset_count r)) (rrsets r)) (rrsets (rep msg)).
Proof.
  unfold tomsg. destruct (now >? rep_ttl r); [done|].
  unfold bind. destruct (gen_dns_msg _ _ region) as [[m|] r1]; [|done].
  destruct (rrset_array_lock _ _ _ _); [|done]. simpl.
  destruct (copy_rrsets _ _ _ r1) as [[cks|] r2] eqn:E; [|done].
  intros [= <- _]. split; [done|]. simpl. by eapply copy_rrsets_some.
Qed.

(** C8: under the invariants of the cache, every RRset of a message that
    [dns_cache_lookup] hands back is either the CNAME made by DNAME
    synthesis, whose only TTL is 0, or the copy of an RRset of the cache
    in which each TTL is the stored TTL less [now], computed without
    wrap-around and so not above the stored TTL. *)
Theorem served_ttl_at_most_stored env qname qnamelen qtype qclass now r msg r' :
  cache_wf env ->
  0 <= now < 2 ^ 32 ->
  dns_cache_lookup env qname qnamelen qtype qclass now r = (Some msg, r') ->
  Forall
    (fun ck =>
       (exists p stored,
          heap env !! p = Some stored /\ rebased_from now stored ck) \/
       (exists rrset newname newlen,
          ck = synth_cname rrset (mk_qinfo qname qnamelen qtype qclass)
                 newname newlen /\
          rr_ttl (entry_data ck) = [0]))
    (rrsets (rep msg)).
Proof.
  intros [Hheap Hmsgs] Hnow Hlookup.
  assert (forall p k, heap env !! p = Some k -> now < d_ttl (entry_data k) ->
            exists p stored,
              heap env !! p = Some stored /\
              rebased_from now stored (rrset_copy k now)) as Hcopy.
  { intros p k Hp Hlive. exists p, k. split; [done|].
    apply rrset_copy_rebased; [by apply (Hheap p)|done|lia]. }
  apply dns_cache_lookup_some in Hlookup
    as [(r0 & E)|[(r0 & E)|(r0 & E)]].
  - unfold lookup_message in E.
    destruct (slabhash_lookup _ _ _ _) as [e|] eqn:He; [|done].
    unfold slabhash_lookup in He.
    destruct (list_find _ _) as [[i e']|] eqn:Hfind; [|done].
    injection He as ->.
    apply list_find_Some in Hfind as (Hi%list_elem_of_lookup_2 & _ & _).
    rewrite Forall_forall in Hmsgs. specialize (Hmsgs e Hi).
    apply tomsg_rrsets in E as [Hlock Hcks].
    unfold reply_refs_cover in Hmsgs.
    revert Hcks Hmsgs.
    generalize (take (Z.to_nat (rrset_count (me_data e))) (rrsets (me_data e))).
    generalize (rrsets (rep msg)).
    intros cks ps Hcks. induction Hcks as [|p ck ps cks (k & Hk & ->) _ IH];
      intros Hcover; [done|].
    apply Forall_cons in Hcover as [Hp Hcover].
    constructor; [|by apply IH].
    left. destruct (rrset_array_lock_live _ _ _ _ _ Hlock Hp) as (k' & Hk' & Hl).
    rewrite Hk in Hk'. injection Hk' as <-. by apply (Hcopy p).
  - unfold lookup_dname in E. simpl in E.
    destruct (find_closest_of_type _ _ _ _ _ _) as [rrset|] eqn:Hfind; [|done].
    destruct (find_closest_of_type_some _ _ _ _ _ _ _ Hfind)
      as [(p & _ & Hp) Hlive].
    apply synth_dname_msg_some in E
      as (_ & dtarg & dtarglen & _ & _ & [(_ & -> & _)|(_ & -> & _)]); simpl.
    + constructor; [|done]. left. by apply (Hcopy p).
    + constructor; [left; by apply (Hcopy p)|].
      constructor; [|done]. right. by eexists _, _, _.
  - unfold lookup_cname in E. simpl in E.
    destruct (rrset_cache_lookup _ _ _ _ _ _ _ _) as [rrset|] eqn:Hfind;
      [|done].
    destruct (rrset_cache_lookup_some _ _ _ _ _ _ _ _ _ Hfind)
      as ((p & _ & Hp) & Hlive & _).
    apply (takes_some _ _ _ _ _ _
             (takes_cname_msg rrset now _ ltac:(lia))) in E as (_ & -> & _).
    simpl. constructor; [|done]. left. by apply (Hcopy p).
Qed.

End TtlTheorems.

#[local] Instance data_wf_dec d : Decision (data_wf d).
Proof. unfold data_wf, ttl_is_min. apply _. Defined.

#[local] Instance cache_wf_dec env : Decision (cache_wf env).
Proof. unfold cache_wf, reply_refs_cover. apply _. Defined.

(** The message of [env_message], which expires at 100, served at 50. *)
Lemma served_ttl_at_most_stored_witness :
  exists msg r',
    dns_cache_lookup (H:=example_host) env_message example_com 13
      LDNS_RR_TYPE_A CLASS_IN 50 [] = (Some msg, r') /\
    Forall
      (fun ck =>
         (exists p stored,
            heap env_message !! p = Some stored /\ rebased_from 50 stored ck) \/
         (exists rrset newname newlen,
            ck = synth_cname (H:=example_host) rrset
                   (mk_qinfo example_com 13 LDNS_RR_TYPE_A CLASS_IN)
                   newname newlen /\
            rr_ttl (entry_data ck) = [0]))
      (rrsets (rep msg)).
Proof.
  eexists _, _. split; [vm_compute; reflexivity|].
  eapply (served_ttl_at_most_stored (H:=example_host) env_message example_com
            13 LDNS_RR_TYPE_A CLASS_IN 50 []).
  - apply (bool_decide_unpack _). vm_compute. exact I.
  - lia.
  - vm_compute. reflexivity.
Defined.

(** ** Storing a reply *)

Lemma env_extends_refl env : env_extends env env.
Proof. split_and!; [done|by eauto|done]. Qed.

Lemma env_extends_trans env0 env1 env2 :
  env_extends env0 env1 -> env_extends env1 env2 -> env_extends env0 env2.
Proof.
  intros (M1 & K1 & C1) (M2 & K2 & C2). split_and!.
  - congruence.
  - intros q e (e1 & H1 & R1)%K1. destruct (K2 _ _ H1) as (e2 & H2 & R2).
    exists e2. split; [done|congruence].
  - auto.
Qed.

(** A change of the heap that keeps the key fields of every object, with
    the two tables as they were, extends the environment. *)
Lemma env_extends_heap env env' :
  msg_cache env' = msg_cache env ->
  (forall q, q ∈ rrset_cache env -> q ∈ rrset_cache env') ->
  (forall q e, heap env !! q = Some e ->
     exists e', heap env' !! q = Some e' /\ rk e' = rk e) ->
  env_extends env env'.
Proof.
  intros Hm Ht Hk. split_and!; [done|done|].
  intros key (q & e & Hq & He & Hc). destruct (Hk _ _ He) as (e' & He' & Hr).
  exists q, e'. split_and!; [by apply Ht|done|by rewrite Hr].
Qed.

Lemma rrset_cache_find_some env key q :
  rrset_cache_find env key = Some q ->
  q ∈ rrset_cache env /\
  exists e, heap env !! q = Some e /\ ub_rrset_compare (rk e) key = 0.
Proof.
  unfold rrset_cache_find.
  destruct (list_find _ _) as [[i q']|] eqn:E; [|done].
  intros [= ->]. apply list_find_Some in E as (Hi & Hp & _).
  split; [by eapply list_elem_of_lookup_2|].
  destruct (heap env !! q) as [e|]; [|done].
  exists e. split; [done|]. by apply Z.eqb_eq.
Qed.

Lemma rrset_cache_update_extends env r now env' r' in_cache :
  rrset_cache_update env r now = (env', r', in_cache) ->
  env_extends env env' /\
  (forall k, heap env !! ref_key r = Some k -> rrset_cached env' (rk k)).
Proof.
  unfold rrset_cache_update.
  destruct (heap env !! ref_key r) as [k|] eqn:Hk.
  2:{ intros [= <- _ _]. split; [apply env_extends_refl|done]. }
  destruct (rrset_cache_find env (rk k)) as [q|] eqn:Hfind.
  - apply rrset_cache_find_some in Hfind as (Hq & e & He & Hc).
    rewrite He.
    destruct (_ >? _).
    { intros [= <- _ _]. split; [apply env_extends_refl|].
      intros k' [= <-]. by exists q, e. }
    destruct (rrsetdata_equal _ _).
    + intros [= <- _ _]. split.
      * apply env_extends_heap; [done|done|]. simpl. intros q' e' He'.
        destruct (decide (q' = q)) as [->|Hne].
        -- rewrite lookup_insert_eq. eexists. split; [done|].
           rewrite He in He'. by injection He' as <-.
        -- rewrite lookup_insert_ne by done. by exists e'.
      * intros k' [= <-]. eexists q, _. simpl. rewrite lookup_insert_eq.
        split_and!; [done|done|done].
    + intros [= <- _ _]. split.
      * apply env_extends_heap; [done|done|]. simpl. intros q' e' He'.
        destruct (decide (q' = q)) as [->|Hne].
        -- rewrite lookup_insert_eq. eexists. split; [done|].
           rewrite He in He'. by injection He' as <-.
        -- rewrite lookup_insert_ne by done. by exists e'.
      * intros k' [= <-]. eexists q, _. simpl. rewrite lookup_insert_eq.
        split_and!; [done|done|done].
  - intros [= <- _ _]. split.
    + apply env_extends_heap; [done| |]; simpl.
      * intros q Hq. by apply list_elem_of_further.
      * intros q' e' He'. destruct (decide (q' = ref_key r)) as [->|Hne].
        -- rewrite lookup_insert_eq. eexists. split; [done|].
           rewrite Hk in He'. by injection He' as <-.
        -- rewrite lookup_insert_ne by done. by exists e'.
    + intros k' [= <-]. eexists (ref_key r), _. simpl.
      rewrite lookup_insert_eq.
      split_and!; [apply list_elem_of_here|done|apply ub_rrset_compare_refl].
Qed.

Lemma store_rrsets_step_spec now env rep i env' rep' :
  store_rrsets_step now (env, rep) i = (env', rep') ->
  env_extends env env' /\
  rrset_count rep' = rrset_count rep /\
  (forall j, j <> i -> rrsets rep' !! j = rrsets rep !! j) /\
  (forall p k, rrsets rep !! i = Some p -> heap env !! p = Some k ->
     rrset_cached env' (rk k)).
Proof.
  unfold store_rrsets_step.
  destruct (rrsets rep !! i) as [p|] eqn:Hp.
  2:{ intros [= <- <-]. split_and!; [apply env_extends_refl|done|done|done]. }
  destruct (rrset_cache_update env _ now) as [[env1 r1] in_cache] eqn:Hup.
  apply rrset_cache_update_extends in Hup as [Hext Hcached].
  intros [= <- <-]. split_and!; [done| | |].
  - by destruct in_cache.
  - intros j Hj. destruct in_cache; simpl; [|done].
    by rewrite list_lookup_insert_ne.
  - intros p' k [= <-] Hk. by apply Hcached.
Qed.

Lemma store_rrsets_loop_spec now n s env rep env' rep' :
  foldl (store_rrsets_step now) (env, rep) (seq s n) = (env', rep') ->
  env_extends env env' /\
  rrset_count rep' = rrset_count rep /\
  (forall i p k, (s <= i < s + n)%nat ->
     rrsets rep !! i = Some p -> heap env !! p = Some k ->
     rrset_cached env' (rk k)).
Proof.
  revert s env rep; induction n as [|n IH]; intros s env rep;
    cbn [seq foldl].
  { intros [= <- <-]. split_and!; [apply env_extends_refl|done|lia]. }
  destruct (store_rrsets_step now (env, rep) s) as [env1 rep1] eqn:Hstep.
  apply store_rrsets_step_spec in Hstep as (Hext1 & Hcount1 & Hsame & Hhere).
  intros (Hext & Hcount & Hrest)%IH. split_and!.
  - by eapply env_extends_trans.
  - congruence.
  - intros i p k Hi Hp Hk.
    destruct (decide (i = s)) as [->|Hne].
    + destruct Hext as (_ & _ & Hc). by apply Hc, (Hhere p).
    + destruct Hext1 as (_ & Hkeys & _).
      destruct (Hkeys _ _ Hk) as (k1 & Hk1 & <-).
      apply (Hrest i p); [lia| |done]. by rewrite Hsame.
Qed.

Lemma reply_info_set_ttls_spec env rep now env' rep' :
  reply_info_set_ttls env rep now = (env', rep') ->
  env_extends env env' /\ rrsets rep' = rrsets rep /\
  rrset_count rep' = rrset_count rep.
Proof.
  unfold reply_info_set_ttls. intros [= <- <-]. split; [|done].
  apply env_extends_heap; [done|done|]. simpl.
  generalize (remove_dups
                (ref_key <$> take (Z.to_nat (rrset_count rep)) (ref rep))).
  intros keys. generalize (heap env).
  induction keys as [|p keys IH]; intros h q e He; simpl; [by exists e|].
  destruct (h !! p) as [k|] eqn:Hp; [|by apply IH].
  destruct (decide (q = p)) as [->|Hne].
  - destruct (IH (<[p := key_with_data k (packed_rrset_ttl_add (entry_data k) now)]> h)
               p (key_with_data k (packed_rrset_ttl_add (entry_data k) now)))
      as (e' & He' & Hr); [by rewrite lookup_insert_eq|].
    exists e'. split; [done|]. rewrite Hr. simpl. congruence.
  - apply IH. by rewrite lookup_insert_ne.
Qed.

(** C5: [dns_cache_store_msg] of a reply whose TTL is 0 leaves the message
    cache as it was, and afterwards the RRset cache has an entry under the
    key of every RRset of the reply. *)
Theorem zero_ttl_reply_stores_only_rrsets env qinfo hash rep now malloc_ok :
  rep_ttl rep = 0 ->
  msg_cache (dns_cache_store_msg env qinfo hash rep now malloc_ok).1
    = msg_cache env /\
  forall i p k,
    (i < Z.to_nat (rrset_count rep))%nat ->
    rrsets rep !! i = Some p ->
    heap env !! p = Some k ->
    rrset_cached (dns_cache_store_msg env qinfo hash rep now malloc_ok).1 (rk k).
Proof.
  intros Httl. unfold dns_cache_store_msg. rewrite Httl.
  set (rep0 := reply_info_sortref env _).
  assert (rrsets rep0 = rrsets rep /\ rrset_count rep0 = rrset_count rep)
    as [Hrr0 Hcount0] by done.
  destruct (reply_info_set_ttls env rep0 now) as [env1 rep1] eqn:Hset.
  apply reply_info_set_ttls_spec in Hset as (Hext1 & Hrr1 & Hcount1).
  destruct (store_rrsets env1 rep1 now) as [env2 rep2] eqn:Hstore.
  unfold store_rrsets in Hstore.
  apply store_rrsets_loop_spec in Hstore as (Hext2 & _ & Hall).
  change (0 =? 0) with true. cbn [fst]. split.
  - destruct Hext1 as [M1 _], Hext2 as [M2 _]. congruence.
  - intros i p k Hi Hp Hk.
    destruct Hext1 as (_ & Hkeys & _).
    destruct (Hkeys _ _ Hk) as (k1 & Hk1 & <-).
    apply (Hall i p); [rewrite Hcount1, Hcount0; lia|by rewrite Hrr1, Hrr0|done].
Qed.

(** For comparison: with a TTL other than 0, and memory for the entry,
    the message is put into the message cache. *)
Lemma nonzero_ttl_reply_is_stored env qinfo hash rep now :
  rep_ttl rep <> 0 ->
  exists e,
    me_key e = qinfo /\ me_hash e = hash /\
    msg_cache (dns_cache_store_msg env qinfo hash rep now true).1
      = slabhash_insert (msg_cache env) hash e.
Proof.
  intros Httl. unfold dns_cache_store_msg.
  destruct (Z.eqb_spec (rep_ttl rep) 0); [done|].
  set (rep0 := reply_info_sortref env _).
  destruct (reply_info_set_ttls env rep0 now) as [env1 rep1] eqn:Hset.
  apply reply_info_set_ttls_spec in Hset as ((M1 & _) & _).
  destruct (store_rrsets env1 rep1 now) as [env2 rep2] eqn:Hstore.
  unfold store_rrsets in Hstore.
  apply store_rrsets_loop_spec in Hstore as ((M2 & _) & _).
  simpl. eexists. split_and!; [| |by rewrite M2, M1]; done.
Qed.

(** The second scenario of the spec: a reply with TTL 0 that carries the
    NS RRset of example.com. *)
Lemma zero_ttl_reply_stores_only_rrsets_witness :
  msg_cache
    (dns_cache_store_msg env_before_store
       (mk_qinfo example_com 13 LDNS_RR_TYPE_A CLASS_IN) 0 reply_ttl_zero 1000
       true).1 = [] /\
  rrset_cached
    (dns_cache_store_msg env_before_store
       (mk_qinfo example_com 13 LDNS_RR_TYPE_A CLASS_IN) 0 reply_ttl_zero 1000
       true).1 (rk ns_example_com_fresh).
Proof.
  destruct (zero_ttl_reply_stores_only_rrsets
              env_before_store
              (mk_qinfo example_com 13 LDNS_RR_TYPE_A CLASS_IN) 0
              reply_ttl_zero 1000 true eq_refl) as [Hmsg Hrr].
  split; [exact Hmsg|].
  apply (Hrr 0%nat 1%nat ns_example_com_fresh).
  - vm_compute. lia.
  - reflexivity.
  - vm_compute. reflexivity.
Defined.

(** ** The scenarios of the spec, run on the model *)

(** Store, then look up ten seconds later: the address comes back with 290
    seconds to live. *)
Example scenario_round_trip :
  exists msg,
    dns_cache_lookup (H:=example_host) env_round_trip example_com 13
      LDNS_RR_TYPE_A CLASS_IN 1010 [] = (Some msg, []) /\
    an_numrrsets (rep msg) = 1 /\
    (rr_ttl ∘ entry_data <$> rrsets (rep msg)) = [[290]] /\
    (rr_data ∘ entry_data <$> rrsets (rep msg)) = [[[0; 4; 192; 0; 2; 1]]].
Proof. eexists. split_and!; vm_compute; reflexivity. Qed.

(** A reply with TTL 0 leaves no message behind, and its NS RRset serves a
    later delegation search. *)
Example scenario_ttl_zero :
  let env :=
    (dns_cache_store_msg env_before_store query_example_com_a 0 reply_ttl_zero
       1000 true).1 in
  dns_cache_lookup (H:=example_host) env example_com 13 LDNS_RR_TYPE_A
    CLASS_IN 1010 [] = (None, []) /\
  exists dp,
    dns_cache_find_delegation (H:=example_host) env example_com 13
      LDNS_RR_TYPE_A CLASS_IN 1010 false [] = (Some (dp, None), []) /\
    dp_name dp = example_com /\
    ns_name <$> nslist dp = [ns1_example_com].
Proof. split; [|eexists; split_and!]; vm_compute; reflexivity. Qed.

(** Once the RRset a stored message refers to has been replaced, the id of
    the reference no longer matches and the message is a miss. *)
Example scenario_stale_reference :
  id <$> heap env_round_trip !! 1%nat = Some 1 /\
  id <$> heap env_replaced !! 1%nat = Some 2 /\
  ref ∘ me_data <$> msg_cache env_replaced = [[mk_ref 1%nat 1]] /\
  dns_cache_lookup (H:=example_host) env_replaced example_com 13
    LDNS_RR_TYPE_A CLASS_IN 1010 [] = (None, []).
Proof. split_and!; vm_compute; reflexivity. Qed.

(** A message whose RRset had its TTLs raised after the message was stored
    is still served at the second it expires. *)
Example scenario_served_at_expiry :
  rep_ttl ∘ me_data <$> msg_cache env_ttl_raised = [1300] /\
  d_ttl ∘ entry_data <$> heap env_ttl_raised !! 1%nat = Some 1400 /\
  exists msg,
    dns_cache_lookup (H:=example_host) env_ttl_raised example_com 13
      LDNS_RR_TYPE_A CLASS_IN 1300 [] = (Some msg, []) /\
    (rr_ttl ∘ entry_data <$> rrsets (rep msg)) = [[100]].
Proof. split_and!; [| |eexists; split]; vm_compute; reflexivity. Qed.

(** * Further properties of the code *)

(** ** TTLs: made absolute when stored, relative when served *)

Lemma for_each_index_compose total f g a :
  for_each_index total f (for_each_index total g a) =
  for_each_index total (f ∘ g) a.
Proof.
  revert a; induction total as [|total IH]; intros [|x a]; simpl; try done.
  by rewrite IH.
Qed.

Lemma for_each_index_ext total f g a :
  Forall (fun x => f x = g x) a ->
  for_each_index total f a = for_each_index total g a.
Proof.
  revert total; induction a as [|x a IH]; intros [|total] Hfg; simpl;
    try done.
  apply Forall_cons in Hfg as [-> Hfg]. by rewrite IH.
Qed.

Lemma for_each_index_id total a : for_each_index total (fun x => x) a = a.
Proof.
  revert a; induction total as [|total IH]; intros [|x a]; simpl; try done.
  by rewrite IH.
Qed.

Lemma for_each_index_length total f a :
  length (for_each_index total f a) = length a.
Proof.
  revert a; induction total as [|total IH]; intros [|x a]; simpl; try done.
  by rewrite IH.
Qed.

Lemma wrap32_add_sub t add now :
  wrap32 (wrap32 (t + add) - now) = wrap32 (t + (add - now)).
Proof.
  unfold wrap32. rewrite Zminus_mod_idemp_l. f_equal. lia.
Qed.

Lemma wrap32_sub_gone t add now :
  wrap32 (now - add) <= t < 2 ^ 32 ->
  wrap32 (wrap32 (t + add) - now) = t - wrap32 (now - add).
Proof.
  intros Ht. rewrite wrap32_add_sub.
  replace (t + (add - now)) with (t - (now - add)) by lia.
  unfold wrap32 in *. rewrite <-Zminus_mod_idemp_r.
  pose proof (Z.mod_pos_bound (now - add) (2 ^ 32) ltac:(lia)).
  rewrite Z.mod_small; lia.
Qed.

(** X1: an RRset whose TTLs [packed_rrset_ttl_add] moved forward by the
    time [add] of the store and that [copy_rrset] serves at time [now]
    comes out with each TTL lowered by exactly the seconds gone by, the
    [uint32_t] difference of [now] and [add], as long as the TTL covers
    them; this holds also when the sum of TTL and [add], or the clock
    itself, went past the end of [uint32_t] in between. *)
Theorem ttl_add_then_copy_exact k add now :
  let gone := wrap32 (now - add) in
  gone <= d_ttl (entry_data k) < 2 ^ 32 ->
  Forall (fun t => gone <= t < 2 ^ 32) (rr_ttl (entry_data k)) ->
  let stored := key_with_data k (packed_rrset_ttl_add (entry_data k) add) in
  d_ttl (entry_data (rrset_copy stored now)) = d_ttl (entry_data k) - gone /\
  rr_ttl (entry_data (rrset_copy stored now))
    = for_each_index
        (Z.to_nat (wrap_size (d_count (entry_data k) +
                              d_rrsig_count (entry_data k))))
        (fun t => t - gone) (rr_ttl (entry_data k)).
Proof.
  intros gone Hlive Hall. simpl. split.
  - by apply wrap32_sub_gone.
  - rewrite for_each_index_compose. apply for_each_index_ext.
    eapply Forall_impl; [exact Hall|]. intros t Ht. unfold compose.
    by apply wrap32_sub_gone.
Qed.

(** An RRset stored in the last second before the clock wraps and served
    two seconds later, at time 1. *)
Lemma ttl_add_then_copy_exact_witness :
  let k := example_rrset example_com LDNS_RR_TYPE_A [192; 0; 2; 1] 300 1
             rrset_trust_ans_AA in
  let stored :=
    key_with_data k (packed_rrset_ttl_add (entry_data k) 4294967295) in
  d_ttl (entry_data (rrset_copy stored 1)) = 300 - 2 /\
  rr_ttl (entry_data (rrset_copy stored 1)) =
  for_each_index 1 (fun t => t - 2) [300].
Proof.
  apply (ttl_add_then_copy_exact
           (example_rrset example_com LDNS_RR_TYPE_A [192; 0; 2; 1] 300 1
              rrset_trust_ans_AA) 4294967295 1).
  - vm_compute. split; [discriminate|reflexivity].
  - repeat constructor; vm_compute; congruence.
Defined.

Lemma data_wf_shift (d d' : packed_rrset_data) s :
  data_wf d ->
  d_count d' = d_count d -> d_rrsig_count d' = d_rrsig_count d ->
  d_ttl d' = d_ttl d + s ->
  rr_ttl d' = (fun t => t + s) <$> rr_ttl d ->
  Forall (fun t => 0 <= t + s < 2 ^ 32) (rr_ttl d) ->
  data_wf d'.
Proof.
  intros (Hlen & _ & Hmin & Hin) Hc Hs Httl Hrr Hrange.
  unfold data_wf, ttl_is_min. rewrite Hc, Hs, Httl, Hrr, length_fmap.
  split_and!.
  - done.
  - by apply Forall_fmap.
  - apply Forall_fmap. eapply Forall_impl; [exact Hmin|]. simpl. lia.
  - intros Hne. apply list_elem_of_fmap. exists (d_ttl d). split; [done|].
    apply Hin. by destruct (rr_ttl d).
Qed.

(** X2: the two routines that shift TTLs keep the invariant of RRset data
    (one [uint32_t] TTL per record, the TTL of the set being the least of
    them): [packed_rrset_ttl_add] when no TTL passes the end of
    [uint32_t], and the copy made by [copy_rrset] when the set has not
    expired. *)
Theorem ttl_shifts_keep_invariant (k : ub_packed_rrset_key) :
  data_wf (entry_data k) ->
  0 <= d_ttl (entry_data k) < 2 ^ 32 ->
  (forall add,
     0 <= add ->
     Forall (fun t => t + add < 2 ^ 32)
       (d_ttl (entry_data k) :: rr_ttl (entry_data k)) ->
     data_wf (packed_rrset_ttl_add (entry_data k) add)) /\
  (forall now,
     0 <= now <= d_ttl (entry_data k) ->
     data_wf (entry_data (rrset_copy k now))).
Proof.
  intros Hwf Httl. pose proof Hwf as (Hlen & Hrange & Hmin & Hin). split.
  - intros add Hadd [Hfit0 Hfit]%Forall_cons.
    assert (Forall (fun t => 0 <= t + add < 2 ^ 32) (rr_ttl (entry_data k)))
      as Hok.
    { apply Forall_and. split; [|done].
      eapply Forall_impl; [exact Hrange|]. simpl. lia. }
    apply (data_wf_shift (entry_data k) _ add); try done; simpl.
    + unfold wrap32. rewrite Z.mod_small; lia.
    + rewrite <-Hlen, for_each_index_all. apply list_fmap_ext.
      intros i t Ht. apply (Forall_lookup_1 _ _ _ _ Hok) in Ht.
      unfold wrap32. rewrite Z.mod_small; lia.
  - intros now Hnow.
    assert (Forall (fun t => 0 <= t + - now < 2 ^ 32) (rr_ttl (entry_data k)))
      as Hok.
    { apply Forall_and. split.
      - eapply Forall_impl; [exact Hmin|]. simpl. lia.
      - eapply Forall_impl; [exact Hrange|]. simpl. lia. }
    apply (data_wf_shift (entry_data k) _ (- now)); try done; simpl.
    + unfold wrap32. rewrite Z.mod_small; lia.
    + rewrite <-Hlen, for_each_index_all. apply list_fmap_ext.
      intros i t Ht. apply (Forall_lookup_1 _ _ _ _ Hok) in Ht.
      unfold wrap32. rewrite Z.mod_small; lia.
Qed.

(** The address of example.com. as the parser hands it over, stored at
    time 1000 and, as [a_example_com], served at time 50. *)
Lemma ttl_shifts_keep_invariant_witness :
  data_wf (packed_rrset_ttl_add (entry_data a_example_com_fresh) 1000) /\
  data_wf (entry_data (rrset_copy a_example_com 50)).
Proof.
  split.
  - apply (ttl_shifts_keep_invariant a_example_com_fresh).
    + apply (bool_decide_unpack _). vm_compute. exact I.
    + vm_compute. split; [discriminate|reflexivity].
    + lia.
    + repeat constructor.
  - apply (ttl_shifts_keep_invariant a_example_com).
    + apply (bool_decide_unpack _). vm_compute. exact I.
    + vm_compute. split; [discriminate|reflexivity].
    + vm_compute. split; discriminate.
Defined.

(** ** Equality of RRset data *)

Lemma rrsetdata_equal_loop_refl total lens dats :
  (total <= length lens)%nat -> (total <= length dats)%nat ->
  rrsetdata_equal_loop total lens lens dats dats = true.
Proof.
  revert lens dats; induction total as [|total IH];
    intros [|l lens] [|b dats]; simpl; intros; try done; try lia.
  rewrite Z.eqb_refl. simpl. rewrite bool_decide_eq_true_2 by done. simpl.
  apply IH; lia.
Qed.

Lemma rrsetdata_equal_loop_sym total lens1 lens2 dats1 dats2 :
  rrsetdata_equal_loop total lens1 lens2 dats1 dats2 = true ->
  rrsetdata_equal_loop total lens2 lens1 dats2 dats1 = true.
Proof.
  revert lens1 lens2 dats1 dats2; induction total as [|total IH];
    intros [|l1 lens1] [|l2 lens2] [|b1 dats1] [|b2 dats2]; simpl; try done.
  destruct (Z.eqb_spec l1 l2) as [->|]; simpl; [|done].
  rewrite Z.eqb_refl. simpl.
  destruct (bool_decide_reflect (take (Z.to_nat l2) b1 = take (Z.to_nat l2) b2))
    as [E|]; simpl; [|done].
  rewrite bool_decide_eq_true_2 by done. simpl. apply IH.
Qed.

Lemma rrsetdata_equal_loop_trans total lens1 lens2 lens3 dats1 dats2 dats3 :
  rrsetdata_equal_loop total lens1 lens2 dats1 dats2 = true ->
  rrsetdata_equal_loop total lens2 lens3 dats2 dats3 = true ->
  rrsetdata_equal_loop total lens1 lens3 dats1 dats3 = true.
Proof.
  revert lens1 lens2 lens3 dats1 dats2 dats3; induction total as [|total IH];
    intros [|l1 lens1] [|l2 lens2] [|l3 lens3] [|b1 dats1] [|b2 dats2]
           [|b3 dats3]; simpl; try done.
  destruct (Z.eqb_spec l1 l2) as [->|]; simpl; [|done].
  destruct (Z.eqb_spec l2 l3) as [->|]; simpl; [|done].
  destruct (bool_decide_reflect (take (Z.to_nat l3) b1 = take (Z.to_nat l3) b2))
    as [E1|]; simpl; [|done].
  destruct (bool_decide_reflect (take (Z.to_nat l3) b2 = take (Z.to_nat l3) b3))
    as [E2|]; simpl; [|done].
  rewrite bool_decide_eq_true_2 by congruence. simpl. apply IH.
Qed.

Lemma rrsetdata_equal_counts d1 d2 :
  rrsetdata_equal d1 d2 = true ->
  d_count d1 = d_count d2 /\ d_rrsig_count d1 = d_rrsig_count d2.
Proof.
  unfold rrsetdata_equal.
  destruct (Z.eqb_spec (d_count d1) (d_count d2)); simpl; [|done].
  by destruct (Z.eqb_spec (d_rrsig_count d1) (d_rrsig_count d2)).
Qed.

Lemma rrsetdata_equal_unfold d1 d2 :
  d_count d1 = d_count d2 -> d_rrsig_count d1 = d_rrsig_count d2 ->
  rrsetdata_equal d1 d2 =
  rrsetdata_equal_loop
    (Z.to_nat (wrap_size (d_count d1 + d_rrsig_count d1)))
    (rr_len d1) (rr_len d2) (rr_data d1) (rr_data d2).
Proof.
  intros E1 E2. unfold rrsetdata_equal. by rewrite E1, E2, !Z.eqb_refl.
Qed.

(** X3: [rrsetdata_equal] is an equivalence on RRset data: symmetric and
    transitive, and reflexive on data whose arrays hold an entry for each
    record. It does not look at TTLs: the data that
    [packed_rrset_ttl_add] moved in time and the copy made by
    [copy_rrset] are equal to the data they come from. *)
Theorem rrsetdata_equal_equivalence :
  (forall d, arrays_complete d -> rrsetdata_equal d d = true) /\
  (forall d1 d2, rrsetdata_equal d1 d2 = true -> rrsetdata_equal d2 d1 = true) /\
  (forall d1 d2 d3,
     rrsetdata_equal d1 d2 = true -> rrsetdata_equal d2 d3 = true ->
     rrsetdata_equal d1 d3 = true) /\
  (forall k add now,
     arrays_complete (entry_data k) ->
     rrsetdata_equal (packed_rrset_ttl_add (entry_data k) add) (entry_data k)
       = true /\
     rrsetdata_equal (entry_data (rrset_copy k now)) (entry_data k) = true).
Proof.
  assert (forall d, arrays_complete d -> rrsetdata_equal d d = true) as Hrefl.
  { intros d [Hl Hd]. rewrite rrsetdata_equal_unfold by done.
    by apply rrsetdata_equal_loop_refl. }
  split_and!.
  - exact Hrefl.
  - intros d1 d2 E. destruct (rrsetdata_equal_counts _ _ E) as [Ec Es].
    rewrite rrsetdata_equal_unfold in E by done.
    rewrite rrsetdata_equal_unfold by done. rewrite <-Ec, <-Es.
    by apply rrsetdata_equal_loop_sym.
  - intros d1 d2 d3 E12 E23.
    destruct (rrsetdata_equal_counts _ _ E12) as [Ec Es].
    destruct (rrsetdata_equal_counts _ _ E23) as [Ec' Es'].
    rewrite rrsetdata_equal_unfold in E12 by done.
    rewrite rrsetdata_equal_unfold in E23 by done.
    rewrite rrsetdata_equal_unfold by congruence.
    rewrite <-Ec, <-Es in E23.
    by eapply rrsetdata_equal_loop_trans.
  - intros k add now Hc. split; exact (Hrefl _ Hc).
Qed.

(** The address of example.com., moved in time and copied. *)
Lemma rrsetdata_equal_equivalence_witness :
  rrsetdata_equal (entry_data a_example_com) (entry_data a_example_com)
    = true /\
  rrsetdata_equal
    (packed_rrset_ttl_add (entry_data a_example_com) 1000)
    (entry_data (rrset_copy a_example_com 50)) = true.
Proof.
  destruct rrsetdata_equal_equivalence as (Hrefl & Hsym & Htrans & Hblind).
  assert (arrays_complete (entry_data a_example_com)) as Hc
    by (split; vm_compute; lia).
  split; [by apply Hrefl|].
  destruct (Hblind a_example_com 1000 50 Hc) as [Hadd Hcopy].
  exact (Htrans _ _ _ Hadd (Hsym _ _ Hcopy)).
Defined.

(** ** Lookups that miss, and lookups served by a CNAME *)

Section MissFacts.
Context `{Host}.

Lemma rrset_cache_lookup_empty env qname qnamelen qtype qclass flags now wr :
  rrset_cache env = [] ->
  rrset_cache_lookup env qname qnamelen qtype qclass flags now wr = None.
Proof. intros E. unfold rrset_cache_lookup. by rewrite E. Qed.

Lemma find_closest_of_type_loop_empty fuel env qname qnamelen qclass now ty :
  rrset_cache env = [] ->
  find_closest_of_type_loop fuel env qname qnamelen qclass now ty = None.
Proof.
  intros E. revert qname qnamelen.
  induction fuel as [|fuel IH]; intros qname qnamelen; simpl; [done|].
  destruct (qnamelen >? 0); [|done].
  rewrite rrset_cache_lookup_empty by done.
  destruct qname; [done|apply IH].
Qed.

Lemma lookup_cname_hit env k now rrset :
  rrset_cache_lookup env (qname k) (qname_len k) LDNS_RR_TYPE_CNAME (qclass k)
    0 now false = Some rrset ->
  lookup_cname env k now = cname_msg rrset now k.
Proof. unfold lookup_cname. by intros ->. Qed.

Lemma lookup_dname_hit env k now rrset :
  find_closest_of_type env (qname k) (qname_len k) (qclass k) now
    LDNS_RR_TYPE_DNAME = Some rrset ->
  lookup_dname env k now = synth_dname_msg rrset now k.
Proof. unfold lookup_dname. by intros ->. Qed.

Lemma lookup_message_hit env k now e :
  slabhash_lookup (msg_cache env) (query_info_hash k) k false = Some e ->
  lookup_message env k now = tomsg env e (me_data e) now.
Proof. unfold lookup_message. by intros ->. Qed.

(** X4: a lookup that finds no message for the query, no DNAME at the name
    or above it and no CNAME at the name answers NULL and has allocated
    nothing; with both caches empty this is so for every query, and the
    search for a delegation answers NULL as well. *)
Theorem lookup_miss_allocates_nothing env :
  (forall qname qnamelen qtype qclass now r,
     let k := mk_qinfo qname qnamelen qtype qclass in
     slabhash_lookup (msg_cache env) (query_info_hash k) k false = None ->
     find_closest_of_type env qname qnamelen qclass now LDNS_RR_TYPE_DNAME
       = None ->
     rrset_cache_lookup env qname qnamelen LDNS_RR_TYPE_CNAME qclass 0 now
       false = None ->
     dns_cache_lookup env qname qnamelen qtype qclass now r = (None, r)) /\
  (msg_cache env = [] -> rrset_cache env = [] ->
   forall qname qnamelen qtype qclass now want_msg r,
     dns_cache_lookup env qname qnamelen qtype qclass now r = (None, r) /\
     dns_cache_find_delegation env qname qnamelen qtype qclass now want_msg r
       = (None, r)).
Proof.
  assert (forall qname qnamelen qtype qclass now r,
            let k := mk_qinfo qname qnamelen qtype qclass in
            slabhash_lookup (msg_cache env) (query_info_hash k) k false = None ->
            find_closest_of_type env qname qnamelen qclass now
              LDNS_RR_TYPE_DNAME = None ->
            rrset_cache_lookup env qname qnamelen LDNS_RR_TYPE_CNAME qclass 0
              now false = None ->
            dns_cache_lookup env qname qnamelen qtype qclass now r = (None, r))
    as Hmiss.
  { intros qname qnamelen qtype qclass now r k Hm Hd Hc.
    unfold dns_cache_lookup, orelse, lookup_message, lookup_dname,
      lookup_cname. fold k. simpl. by rewrite Hm, Hd, Hc. }
  split; [exact Hmiss|].
  intros Hm Hr qname qnamelen qtype qclass now want_msg r. split.
  - apply Hmiss.
    + by rewrite Hm.
    + by apply find_closest_of_type_loop_empty.
    + by apply rrset_cache_lookup_empty.
  - unfold dns_cache_find_delegation, find_closest_of_type.
    by rewrite find_closest_of_type_loop_empty.
Qed.

(** X5: when the message cache and the DNAME walk give nothing, a CNAME
    cached at the name is the whole answer, whatever the type asked for:
    seven allocations, a reply with flags QR only, one answer RRset, the
    copy of the CNAME, and as TTL of the reply the seconds the CNAME has
    left. If one of the seven allocations fails the lookup answers NULL. *)
Theorem cname_at_name_is_served env qname qnamelen qtype qclass now r r1 r2
    rrset :
  let k := mk_qinfo qname qnamelen qtype qclass in
  lookup_message env k now r = (None, r1) ->
  lookup_dname env k now r1 = (None, r2) ->
  rrset_cache_lookup env qname qnamelen LDNS_RR_TYPE_CNAME qclass 0 now false
    = Some rrset ->
  0 <= now -> d_ttl (entry_data rrset) < 2 ^ 32 ->
  (region_ok 7 r2 = true ->
   exists msg,
     dns_cache_lookup env qname qnamelen qtype qclass now r
       = (Some msg, drop 7 r2) /\
     qinfo msg = qinfo_copy k /\
     rep_flags (rep msg) = BIT_QR /\
     qdcount (rep msg) = 1 /\
     rep_ttl (rep msg) = d_ttl (entry_data rrset) - now /\
     an_numrrsets (rep msg) = 1 /\
     ns_numrrsets (rep msg) = 0 /\
     ar_numrrsets (rep msg) = 0 /\
     rrset_count (rep msg) = 1 /\
     rrsets (rep msg) = [rrset_copy rrset now] /\
     rk_type (rk rrset) = htons LDNS_RR_TYPE_CNAME) /\
  (region_ok 7 r2 = false ->
   (dns_cache_lookup env qname qnamelen qtype qclass now r).1 = None).
Proof.
  intros k Hm Hd Hc Hnow Hmax.
  destruct (rrset_cache_lookup_some _ _ _ _ _ _ _ _ _ Hc)
    as (_ & Hlive & Hcmp).
  apply ub_rrset_compare_zero in Hcmp as (Hty & _).
  rewrite (dns_cache_lookup_cname _ _ _ _ _ _ _ _ _ Hm Hd).
  fold k. rewrite (lookup_cname_hit env k now rrset Hc).
  pose proof (takes_cname_msg rrset now k ltac:(lia) r2) as Htakes.
  split; intros Hmem; rewrite Hmem in Htakes; [|done].
  eexists. split; [exact Htakes|]. simpl. split_and!; try done.
  unfold wrap32. rewrite Z.mod_small; lia.
Qed.

End MissFacts.

(** A query for example.net., of which the cache of the third scenario
    knows nothing; and the empty cache. *)
Lemma lookup_miss_allocates_nothing_witness :
  dns_cache_lookup (H:=example_host) env_dname_cname example_net 13
    LDNS_RR_TYPE_A CLASS_IN 100 [false] = (None, [false]) /\
  dns_cache_lookup (H:=example_host) env_empty www_example_com 17
    LDNS_RR_TYPE_A CLASS_IN 100 [false] = (None, [false]) /\
  dns_cache_find_delegation (H:=example_host) env_empty www_example_com 17
    LDNS_RR_TYPE_A CLASS_IN 100 true [false] = (None, [false]).
Proof.
  destruct (lookup_miss_allocates_nothing (H:=example_host) env_dname_cname)
    as [Hmiss _].
  destruct (lookup_miss_allocates_nothing (H:=example_host) env_empty)
    as [_ Hempty].
  split.
  - apply Hmiss; vm_compute; reflexivity.
  - apply (Hempty eq_refl eq_refl).
Defined.

(** www.example.com. asked for type A, with room for everything and with
    a region that fails at the second allocation. *)
Lemma cname_at_name_is_served_witness :
  (exists msg,
     dns_cache_lookup (H:=example_host) env_cname www_example_com 17
       LDNS_RR_TYPE_A CLASS_IN 100 [] = (Some msg, []) /\
     rep_ttl (rep msg) = 3600 /\
     rrsets (rep msg) = [rrset_copy cname_www_example_com 100]) /\
  (dns_cache_lookup (H:=example_host) env_cname www_example_com 17
     LDNS_RR_TYPE_A CLASS_IN 100 [true; false]).1 = None.
Proof.
  destruct (cname_at_name_is_served (H:=example_host) env_cname
              www_example_com 17 LDNS_RR_TYPE_A CLASS_IN 100 [] [] []
              cname_www_example_com)
    as [Hok _]; try (vm_compute; reflexivity); [vm_compute; discriminate|].
  destruct (cname_at_name_is_served (H:=example_host) env_cname
              www_example_com 17 LDNS_RR_TYPE_A CLASS_IN 100 [true; false]
              [true; false] [true; false] cname_www_example_com)
    as [_ Hfail]; try (vm_compute; reflexivity); [vm_compute; discriminate|].
  split.
  - destruct (Hok eq_refl) as (msg & E & _ & _ & _ & Httl & _ & _ & _ & _ & Hrr & _).
    exists msg. split_and!; [exact E|exact Httl|exact Hrr].
  - apply Hfail. reflexivity.
Defined.

(** ** Messages served from the message cache *)

Section MessageFacts.
Context `{Host}.

Lemma rrset_array_lock_false env refs count now rf :
  rf ∈ take (Z.to_nat count) refs ->
  match heap env !! ref_key rf with
  | Some k => id k <> ref_id rf \/ d_ttl (entry_data k) <= now
  | None => True
  end ->
  rrset_array_lock env refs count now = false.
Proof.
  intros Hin Hbad. unfold rrset_array_lock.
  apply not_true_is_false. rewrite forallb_forall. intros Hall.
  specialize (Hall rf (proj1 (list_elem_of_In _ _) Hin)).
  destruct (heap env !! ref_key rf) as [k|]; [|done].
  apply andb_prop in Hall as [Hid Httl].
  apply Z.eqb_eq in Hid. rewrite Z.gtb_ltb in Httl. apply Z.ltb_lt in Httl.
  destruct Hbad; [done|lia].
Qed.

Lemma tomsg_lock_failed env e r now region :
  rrset_array_lock env (ref r) (rrset_count r) now = false ->
  (tomsg env e r now region).1 = None.
Proof.
  intros Hlock. unfold tomsg. destruct (now >? rep_ttl r); [done|].
  unfold bind. destruct (gen_dns_msg _ _ region) as [[m|] r1]; [|done].
  by rewrite Hlock.
Qed.

(** X6: a message of the message cache is served whole or not at all. If
    it has not expired, all its references are locked and the region has
    room for the message and three allocations per RRset, the answer
    repeats the flags and the counts of the stored reply, carries the
    stored expiry time as the TTL of the reply, and holds the copies of
    the RRsets in the stored order; if one of these allocations fails the
    result is NULL. *)
Theorem message_hit_is_served_whole env e now region :
  let r := me_data e in
  let keys := take (Z.to_nat (rrset_count r)) (rrsets r) in
  now <= rep_ttl r ->
  rrset_array_lock env (ref r) (rrset_count r) now = true ->
  reply_refs_cover r ->
  (region_ok (4 + 3 * length keys) region = true ->
   exists msg,
     tomsg env e r now region
       = (Some msg, drop (4 + 3 * length keys) region) /\
     qinfo msg = qinfo_copy (me_key e) /\
     rep_flags (rep msg) = rep_flags r /\
     qdcount (rep msg) = qdcount r /\
     rep_ttl (rep msg) = rep_ttl r /\
     an_numrrsets (rep msg) = an_numrrsets r /\
     ns_numrrsets (rep msg) = ns_numrrsets r /\
     ar_numrrsets (rep msg) = ar_numrrsets r /\
     rrset_count (rep msg) = rrset_count r /\
     Forall2
       (fun p ck => exists k, heap env !! p = Some k /\ ck = rrset_copy k now)
       keys (rrsets (rep msg))) /\
  (region_ok (4 + 3 * length keys) region = false ->
   (tomsg env e r now region).1 = None).
Proof.
  intros r keys Hnow Hlock Hcover.
  assert (Forall (fun p => is_Some (heap env !! p)) keys) as Hkeys.
  { eapply Forall_impl; [exact Hcover|]. intros p Hp.
    destruct (rrset_array_lock_live _ _ _ _ _ Hlock Hp) as (k & -> & _).
    by eexists. }
  assert (takes (tomsg env e r now) (4 + 3 * length keys)
            {| qinfo := qinfo_copy (me_key e);
               rep := mk_rep (rep_flags r) (qdcount r) (rep_ttl r)
                        (an_numrrsets r) (ns_numrrsets r) (ar_numrrsets r)
                        (rrset_count r)
                        (omap (fun p => (fun k => rrset_copy k now)
                                          <$> heap env !! p) keys) [] |})
    as Htakes.
  { unfold tomsg. rewrite gtb_false by lia.
    apply (takes_bind _ _ 4 _ _ _ (takes_gen_dns_msg _ _)).
    rewrite Hlock. cbn [negb].
    rewrite <-(Nat.add_0_r (3 * length keys)).
    apply (takes_bind _ _ _ 0 _ _ (takes_copy_rrsets env keys now Hkeys)).
    apply takes_ret. }
  specialize (Htakes region).
  split; intros Hmem; rewrite Hmem in Htakes; [|done].
  eexists. split; [exact Htakes|]. simpl. split_and!; try done.
  clear -Hkeys. induction Hkeys as [|p keys [k Hk] _ IH]; simpl; [done|].
  rewrite Hk. simpl. constructor; [by exists k|done].
Qed.

(** X7: a message is never served through a reference that is not live.
    If one of the references of the stored reply points to a key whose id
    is not the id of the reference, or whose data has expired, [tomsg]
    answers NULL; this is the case of every reference with an id other
    than 0 to a key that [ub_rrset_key_delete] has let go. *)
Theorem stale_reference_is_never_served env e now region rf :
  let r := me_data e in
  rf ∈ take (Z.to_nat (rrset_count r)) (ref r) ->
  (forall k,
     heap env !! ref_key rf = Some k ->
     id k <> ref_id rf \/ d_ttl (entry_data k) <= now ->
     (tomsg env e r now region).1 = None) /\
  (forall k0,
     heap env !! ref_key rf = Some (ub_rrset_key_delete k0) ->
     ref_id rf <> 0 ->
     (tomsg env e r now region).1 = None).
Proof.
  intros r Hin.
  assert (forall k,
            heap env !! ref_key rf = Some k ->
            id k <> ref_id rf \/ d_ttl (entry_data k) <= now ->
            (tomsg env e r now region).1 = None) as Hstale.
  { intros k Hk Hbad. apply tomsg_lock_failed.
    apply (rrset_array_lock_false _ _ _ _ rf Hin). by rewrite Hk. }
  split; [exact Hstale|].
  intros k0 Hk Hid. apply (Hstale _ Hk). left. simpl. congruence.
Qed.

End MessageFacts.

(** The message of [env_message] at time 50, with room for everything and
    with a region that fails at the fifth allocation. *)
Lemma message_hit_is_served_whole_witness :
  (exists msg,
     tomsg (H:=example_host) env_message msg_example_com
       (me_data msg_example_com) 50 [] = (Some msg, []) /\
     rep_ttl (rep msg) = 100 /\
     rrsets (rep msg) = [rrset_copy a_example_com 50]) /\
  (tomsg (H:=example_host) env_message msg_example_com
     (me_data msg_example_com) 50 [true; true; true; true; false]).1 = None.
Proof.
  assert (reply_refs_cover (me_data msg_example_com)) as Hcover
    by (apply (bool_decide_unpack _); vm_compute; exact I).
  destruct (message_hit_is_served_whole (H:=example_host) env_message
              msg_example_com 50 [] ltac:(vm_compute; discriminate) eq_refl
              Hcover) as [Hok _].
  destruct (message_hit_is_served_whole (H:=example_host) env_message
              msg_example_com 50 [true; true; true; true; false]
              ltac:(vm_compute; discriminate) eq_refl Hcover) as [_ Hfail].
  split.
  - destruct (Hok eq_refl)
      as (msg & E & _ & _ & _ & Httl & _ & _ & _ & _ & Hrr).
    exists msg. split_and!; [exact E|exact Httl|].
    apply Forall2_cons_inv_l in Hrr as (ck & cks & (k & Hk & ->) & Hnil & ->).
    apply Forall2_nil_inv_l in Hnil as ->.
    vm_compute in Hk. by injection Hk as <-.
  - apply Hfail. reflexivity.
Defined.

(** The message of [env_message_deleted], whose RRset was let go, and the
    message of [env_message] at the time its RRset expires. *)
Lemma stale_reference_is_never_served_witness :
  (tomsg (H:=example_host) env_message_deleted msg_example_com
     (me_data msg_example_com) 50 []).1 = None /\
  (tomsg (H:=example_host) env_message
     msg_example_com (me_data msg_example_com) 200 []).1 = None.
Proof.
  split.
  - destruct (stale_reference_is_never_served (H:=example_host)
                env_message_deleted msg_example_com 50 [] (mk_ref 1%nat 1))
      as [_ Hdel]; [vm_compute; apply list_elem_of_here|].
    apply (Hdel a_example_com); [reflexivity|discriminate].
  - destruct (stale_reference_is_never_served (H:=example_host)
                env_message msg_example_com 200 [] (mk_ref 1%nat 1))
      as [Hstale _]; [vm_compute; apply list_elem_of_here|].
    apply (Hstale a_example_com); [reflexivity|].
    right. vm_compute. discriminate.
Defined.

Section QuestionFacts.
Context `{Host}.

Lemma tomsg_qinfo env e r now region msg region' :
  tomsg env e r now region = (Some msg, region') ->
  qinfo msg = qinfo_copy (me_key e).
Proof.
  unfold tomsg. destruct (now >? rep_ttl r); [done|].
  unfold bind. destruct (gen_dns_msg _ _ region) as [[m|] r1] eqn:Eg; [|done].
  apply (takes_some _ _ _ _ _ _ (takes_gen_dns_msg _ _)) in Eg as (_ & -> & _).
  destruct (rrset_array_lock _ _ _ _); [|done]. simpl.
  destruct (copy_rrsets _ _ _ r1) as [[cks|] r2]; [|done].
  by intros [= <- _].
Qed.

(** X8: whichever of its three ways a lookup is served, the message
    repeats the question: the length of the name, the type and the class
    are those of the query, and the name is the name of the query up to
    the case of letters (a message of the message cache carries the name
    as it was stored). *)
Theorem served_message_repeats_question env nm nmlen ty cl now r msg r' :
  dns_cache_lookup env nm nmlen ty cl now r = (Some msg, r') ->
  qname_len (qinfo msg) = nmlen /\
  qtype (qinfo msg) = ty /\
  qclass (qinfo msg) = cl /\
  tolower <$> qname (qinfo msg) = tolower <$> take (Z.to_nat nmlen) nm.
Proof.
  intros [(r0 & E)|[(r0 & E)|(r0 & E)]]%dns_cache_lookup_some.
  - unfold lookup_message in E.
    destruct (slabhash_lookup _ _ _ _) as [e|] eqn:He; [|done].
    apply tomsg_qinfo in E as ->.
    unfold slabhash_lookup in He.
    destruct (list_find _ _) as [[i e']|] eqn:Hfind; [|done].
    injection He as ->.
    apply list_find_Some in Hfind as (_ & Hsame & _).
    apply andb_prop in Hsame as [_ Hsame]. unfold query_info_compare in Hsame.
    apply andb_prop in Hsame as [Hsame Hname].
    apply andb_prop in Hsame as [Hsame Hlen].
    apply andb_prop in Hsame as [Hty Hcl].
    apply Z.eqb_eq in Hty, Hcl, Hlen, Hname. simpl in *.
    apply query_dname_compare_zero in Hname.
    split_and!; try done.
    by rewrite !fmap_take, Hname, Hlen.
  - unfold lookup_dname in E.
    destruct (find_closest_of_type _ _ _ _ _ _) as [rrset|]; [|done].
    by apply synth_dname_msg_some in E as (_ & _ & _ & _ & -> & _).
  - unfold lookup_cname in E.
    destruct (rrset_cache_lookup _ _ _ _ _ _ _ _) as [rrset|] eqn:Hfind;
      [|done].
    destruct (rrset_cache_lookup_some _ _ _ _ _ _ _ _ _ Hfind)
      as (_ & Hlive & _).
    by apply (takes_some _ _ _ _ _ _
                (takes_cname_msg rrset now _ ltac:(lia))) in E as (_ & -> & _).
Qed.

End QuestionFacts.

(** The message of [env_message], asked for in capital letters. *)
Lemma served_message_repeats_question_witness :
  exists msg,
    dns_cache_lookup (H:=example_host) env_message
      [7; 69; 88; 65; 77; 80; 76; 69; 3; 67; 79; 77; 0] 13 LDNS_RR_TYPE_A
      CLASS_IN 50 [] = (Some msg, []) /\
    qname (qinfo msg) = example_com /\
    qname_len (qinfo msg) = 13 /\
    qtype (qinfo msg) = LDNS_RR_TYPE_A /\
    qclass (qinfo msg) = CLASS_IN /\
    tolower <$> qname (qinfo msg)
      = tolower <$> take (Z.to_nat 13)
                      [7; 69; 88; 65; 77; 80; 76; 69; 3; 67; 79; 77; 0].
Proof.
  eexists. split; [vm_compute; reflexivity|].
  split; [reflexivity|].
  eapply (served_message_repeats_question (H:=example_host) env_message
            [7; 69; 88; 65; 77; 80; 76; 69; 3; 67; 79; 77; 0] 13
            LDNS_RR_TYPE_A CLASS_IN 50 []).
  vm_compute. reflexivity.
Defined.

(** ** The referral message and the address table of a delegation *)

Lemma msg_push_ar_shape msg first ns ar ck :
  referral_shape msg first ns ar -> 0 <= ns -> 0 <= ar -> ns + ar < 2 ^ 63 ->
  0 < ns + ar ->
  referral_shape (msg_push_ar msg ck) first ns (ar + 1) /\
  qinfo (msg_push_ar msg ck) = qinfo msg.
Proof.
  intros (Hf & Hq & Han & Hns & Har & Hc & Hl & Hh) ? ? ? ?.
  split; [|done]. unfold referral_shape, msg_push_ar, wrap_size. simpl.
  rewrite Har, Hc, length_app, !Z.mod_small by lia. simpl.
  split_and!; try done; try lia.
  destruct (rrsets (rep msg)); [simpl in Hl; lia|done].
Qed.

Lemma msg_push_ns_shape msg first ns ar ck :
  referral_shape msg first ns ar -> 0 <= ns -> 0 <= ar -> ns + ar < 2 ^ 63 ->
  0 < ns + ar ->
  referral_shape (msg_push_ns msg ck) first (ns + 1) ar /\
  qinfo (msg_push_ns msg ck) = qinfo msg.
Proof.
  intros (Hf & Hq & Han & Hns & Har & Hc & Hl & Hh) ? ? ? ?.
  split; [|done]. unfold referral_shape, msg_push_ns, wrap_size. simpl.
  rewrite Hns, Hc, length_app, !Z.mod_small by lia. simpl.
  split_and!; try done; try lia.
  destruct (rrsets (rep msg)); [simpl in Hl; lia|done].
Qed.

Lemma addr_to_additional_shape rrset msg now r first ns ar :
  referral_shape msg first ns ar -> 0 < ns -> 0 <= ar -> ns + ar < 2 ^ 63 ->
  exists ar',
    ar <= ar' <= ar + 1 /\
    referral_shape (addr_to_additional rrset msg now r).1 first ns ar' /\
    qinfo (addr_to_additional rrset msg now r).1 = qinfo msg.
Proof.
  intros Hs ? ? ?. unfold addr_to_additional, sbind, sret.
  destruct (copy_rrset rrset now r) as [[ck|] r1]; simpl.
  - exists (ar + 1). split; [lia|]. apply msg_push_ar_shape; try done; lia.
  - exists ar. split; [lia|done].
Qed.

Lemma delegpt_add_ns_each_nslist dp rdatas r :
  (length (nslist (delegpt_add_ns_each dp rdatas r).1.2)
   <= length (nslist dp) + length rdatas)%nat.
Proof.
  revert dp r; induction rdatas as [|rdata rdatas IH]; intros dp r; simpl;
    [lia|].
  unfold sbind. destruct (region_alloc r) as [[[]|] r1]; simpl; [|lia].
  etrans; [apply IH|]. simpl. rewrite length_app. simpl. lia.
Qed.

Lemma delegpt_add_rrset_nslist dp akey r :
  nslist (delegpt_add_rrset dp akey r).1.2 = nslist dp.
Proof.
  unfold delegpt_add_rrset, sbind.
  by destruct (region_alloc r) as [[[]|] r1].
Qed.

Section ReferralFacts.
Context `{Host}.

Lemma find_add_addr_shape env cl ns atype dp now m r first nsn ar dp' msg' :
  referral_shape m first nsn ar -> 0 < nsn -> 0 <= ar -> nsn + ar < 2 ^ 63 ->
  (find_add_addr env cl ns atype dp now (Some m) r).1 = Some (dp', msg') ->
  exists m' ar',
    msg' = Some m' /\ ar <= ar' <= ar + 1 /\
    referral_shape m' first nsn ar' /\ qinfo m' = qinfo m.
Proof.
  intros Hs ? ? ?. unfold find_add_addr.
  destruct (rrset_cache_lookup _ _ _ _ _ _ _ _) as [akey|].
  2:{ intros [= _ <-]. exists m, ar. split_and!; try done; lia. }
  unfold sbind, sret.
  destruct (delegpt_add_rrset dp akey r) as [[[] dp1] r1]; simpl; [|done].
  destruct (addr_to_additional_shape akey m now r1 first nsn ar)
    as (ar' & Har & Hs' & Hq); try done.
  destruct (addr_to_additional akey m now r1) as [m' r2]. simpl in *.
  intros [= _ <-]. by exists m', ar'.
Qed.

Lemma find_add_addrs_loop_shape env cl nss dp now m r first nsn ar :
  referral_shape m first nsn ar -> 0 < nsn -> 0 <= ar ->
  nsn + ar + 2 * Z.of_nat (length nss) < 2 ^ 63 ->
  exists m' ar',
    (find_add_addrs_loop env cl nss dp now (Some m) r).1.2 = Some m' /\
    ar <= ar' <= ar + 2 * Z.of_nat (length nss) /\
    referral_shape m' first nsn ar' /\ qinfo m' = qinfo m.
Proof.
  revert dp m r ar; induction nss as [|ns nss IH]; intros dp m r ar Hs ? ? Hb.
  { exists m, ar. simpl. split_and!; try done; lia. }
  cbn [find_add_addrs_loop length] in *. rewrite Nat2Z.inj_succ in *.
  unfold sbind, sret.
  destruct (find_add_addr env cl ns LDNS_RR_TYPE_A dp now (Some m) r)
    as [[[dp1 msg1]|] r1] eqn:E1; simpl.
  2:{ exists m, ar. split_and!; try done; lia. }
  destruct (find_add_addr_shape env cl ns LDNS_RR_TYPE_A dp now m r first nsn
              ar dp1 msg1) as (m1 & ar1 & -> & Har1 & Hs1 & Hq1);
    try done; try lia; [by rewrite E1|].
  destruct (find_add_addr env cl ns LDNS_RR_TYPE_AAAA dp1 now (Some m1) r1)
    as [[[dp2 msg2]|] r2] eqn:E2; simpl.
  2:{ exists m1, ar1. split_and!; try done; lia. }
  destruct (find_add_addr_shape env cl ns LDNS_RR_TYPE_AAAA dp1 now m1 r1
              first nsn ar1 dp2 msg2) as (m2 & ar2 & -> & Har2 & Hs2 & Hq2);
    try done; try lia; [by rewrite E2|].
  destruct (IH dp2 m2 r2 ar2) as (m' & ar' & E & Har' & Hs' & Hq');
    try done; try lia.
  exists m', ar'. split_and!; try done; try lia. congruence.
Qed.

Lemma find_add_ds_shape env m dp now r first ar :
  referral_shape m first 1 ar -> 0 <= ar -> ar < 2 ^ 62 ->
  exists nsn,
    1 <= nsn <= 2 /\
    referral_shape (find_add_ds env m dp now r).1 first nsn ar /\
    qinfo (find_add_ds env m dp now r).1 = qinfo m.
Proof.
  intros Hs ? ?. unfold find_add_ds.
  destruct (match rrset_cache_lookup env (dp_name dp) (dp_namelen dp)
                    LDNS_RR_TYPE_DS (qclass (qinfo m)) 0 now false with
            | Some rrset => Some rrset
            | None => _
            end) as [rrset|].
  2:{ exists 1. split; [lia|done]. }
  unfold sbind, sret. destruct (copy_rrset rrset now r) as [[ck|] r1]; simpl.
  - exists 2. split; [lia|]. apply (msg_push_ns_shape m first 1 ar); try done; lia.
  - exists 1. split; [lia|done].
Qed.

Lemma find_add_addrs_loop_nslist env cl nss dp now msg r :
  nslist (find_add_addrs_loop env cl nss dp now msg r).1.1.2 = nslist dp.
Proof.
  revert dp msg r; induction nss as [|ns nss IH]; intros dp msg r; simpl;
    [done|].
  assert (forall atype dp0 msg0 r0 dp' msg',
            (find_add_addr env cl ns atype dp0 now msg0 r0).1
              = Some (dp', msg') -> nslist dp' = nslist dp0) as Hone.
  { intros atype dp0 msg0 r0 dp' msg'. unfold find_add_addr.
    destruct (rrset_cache_lookup _ _ _ _ _ _ _ _) as [akey|];
      [|by intros [= <- _]].
    unfold sbind, sret.
    pose proof (delegpt_add_rrset_nslist dp0 akey r0) as Hn.
    destruct (delegpt_add_rrset dp0 akey r0) as [[[] dp1] r1]; simpl in *;
      [|done].
    destruct msg0 as [m0|]; [|by intros [= <- _]].
    destruct (addr_to_additional akey m0 now r1). by intros [= <- _]. }
  unfold sbind, sret.
  destruct (find_add_addr env cl ns LDNS_RR_TYPE_A dp now msg r)
    as [[[dp1 msg1]|] r1] eqn:E1; [|done].
  destruct (find_add_addr env cl ns LDNS_RR_TYPE_AAAA dp1 now msg1 r1)
    as [[[dp2 msg2]|] r2] eqn:E2; simpl.
  - rewrite IH.
    rewrite (Hone LDNS_RR_TYPE_AAAA dp1 msg1 r1 dp2 msg2) by (by rewrite E2).
    apply (Hone LDNS_RR_TYPE_A dp msg r dp1 msg1). by rewrite E1.
  - apply (Hone LDNS_RR_TYPE_A dp msg r dp1 msg1). by rewrite E1.
Qed.

(** X9. A referral message never outgrows its array. [create_msg] gives
    the message room for [2 + 2 * count] RRsets, [count] the number of
    records of the NS RRset, and the routines that follow store at index
    [rrset_count] without a test. Whatever the cache holds and whichever
    allocations fail, the message that [dns_cache_find_delegation] hands
    back has the question asked, only the QR flag, one question, no
    answer, the copy of the NS RRset first, one or two authority RRsets,
    at most two additional RRsets for each nameserver of the delegation
    point, at most [count] nameservers, and in all at most
    [2 + 2 * count] RRsets, each counted once. The bound on [count]
    says that the size of that array, eight bytes for each entry, is
    below [2 ^ 64]. *)
Theorem referral_message_fits_its_array env nm nmlen ty cl now r nskey dp
    msg r' :
  find_closest_of_type env nm nmlen cl now LDNS_RR_TYPE_NS = Some nskey ->
  d_count (entry_data nskey) < 2 ^ 60 ->
  dns_cache_find_delegation env nm nmlen ty cl now true r
    = (Some (dp, msg), r') ->
  exists m nsn ar,
    msg = Some m /\
    (qinfo m = {| qname := take (Z.to_nat nmlen) nm; qname_len := nmlen;
                  qtype := ty; qclass := cl |}) /\
    referral_shape m (rrset_copy nskey now) nsn ar /\
    1 <= nsn <= 2 /\
    0 <= ar <= 2 * Z.of_nat (length (nslist dp)) /\
    (length (nslist dp) <= Z.to_nat (d_count (entry_data nskey)))%nat /\
    rrset_count (rep m) <= 2 + 2 * Z.max 0 (d_count (entry_data nskey)).
Proof.
  intros Hfind Hcount. rewrite dns_cache_find_delegation_parts, Hfind.
  destruct (delegation_setup nm nmlen ty cl now true nskey r)
    as [[[dp0 msg0]|] r1] eqn:Esetup; [|done].
  destruct (takes_some _ _ _ _ _ _
              (takes_delegation_setup nm nmlen ty cl now true nskey) Esetup)
    as (_ & Eres & _).
  injection Eres as -> ->.
  unfold delegation_fill, delegpt_rrset_add_ns, find_add_addrs, sbind, sret.
  match goal with
  | |- context [delegpt_add_ns_each ?d ?l ?rr] =>
      pose proof (delegpt_add_ns_each_nslist d l rr) as Hns;
      destruct (delegpt_add_ns_each d l rr) as [[ok dp1] r2]
  end.
  cbn [fst snd nslist length] in Hns. rewrite length_take in Hns.
  cbn [fst snd].
  match goal with
  | |- context [find_add_ds env ?m0 dp1 now r2] =>
      assert (referral_shape m0 (rrset_copy nskey now) 1 0) as Hs0
        by (unfold referral_shape, msg_push_ns; simpl; split_and!;
            reflexivity);
      destruct (find_add_ds_shape env m0 dp1 now r2 _ 0 Hs0)
        as (nsn & Hnsn & Hs1 & Hq1); [lia..|];
      destruct (find_add_ds env m0 dp1 now r2) as [m1 r3]
  end.
  cbn [fst snd] in *.
  destruct (find_add_addrs_loop_shape env cl (nslist dp1) dp1 now m1 r3
              (rrset_copy nskey now) nsn 0 Hs1)
    as (m' & ar & Em & Har & Hs' & Hq'); [lia..|].
  pose proof (find_add_addrs_loop_nslist env cl (nslist dp1) dp1 now
                (Some m1) r3) as Hnl.
  destruct (find_add_addrs_loop env cl (nslist dp1) dp1 now (Some m1) r3)
    as [[[ok' dp2] msg2] r4].
  cbn [fst snd] in *. intros [= <- <- <-]. subst msg2.
  exists m', nsn, ar. rewrite Hnl.
  split_and!; try done; try lia.
  - by rewrite Hq', Hq1.
  - destruct Hs' as (_ & _ & _ & _ & _ & -> & _). lia.
Qed.

End ReferralFacts.

Lemma referral_message_fits_its_array_witness :
  exists dp msg r',
    dns_cache_find_delegation (H:=example_host) env_delegation
      www_example_com 17 LDNS_RR_TYPE_A CLASS_IN 100 true []
      = (Some (dp, msg), r') /\
    exists m nsn ar,
      msg = Some m /\
      (qinfo m = {| qname := take (Z.to_nat 17) www_example_com;
                    qname_len := 17; qtype := LDNS_RR_TYPE_A;
                    qclass := CLASS_IN |}) /\
      referral_shape m (rrset_copy ns_example_com 100) nsn ar /\
      1 <= nsn <= 2 /\
      0 <= ar <= 2 * Z.of_nat (length (nslist dp)) /\
      (length (nslist dp) <= Z.to_nat (d_count (entry_data ns_example_com)))%nat /\
      rrset_count (rep m) <= 2 + 2 * Z.max 0 (d_count (entry_data ns_example_com)).
Proof.
  do 3 eexists; split; [vm_compute; reflexivity|].
  eapply (referral_message_fits_its_array (H:=example_host) env_delegation
            www_example_com 17 LDNS_RR_TYPE_A CLASS_IN 100 []);
    vm_compute; reflexivity.
Defined.

Lemma delegpt_add_ns_each_targets dp rdatas r :
  target_list (delegpt_add_ns_each dp rdatas r).1.2 = target_list dp.
Proof.
  revert dp r; induction rdatas as [|rdata rdatas IH]; intros dp r; simpl;
    [done|].
  unfold sbind. destruct (region_alloc r) as [[[]|] r1]; simpl; [|done].
  by rewrite IH.
Qed.

Section TableFacts.
Context `{Host}.

Lemma find_add_addr_table env cl ns atype dp now msg r nss auth dp' msg' r1 :
  ns ∈ nss -> atype = LDNS_RR_TYPE_A \/ atype = LDNS_RR_TYPE_AAAA ->
  table_from_cache env cl now nss dp ->
  additional_from_table now auth dp msg ->
  find_add_addr env cl ns atype dp now msg r = (Some (dp', msg'), r1) ->
  table_from_cache env cl now nss dp' /\
  additional_from_table now auth dp' msg'.
Proof.
  intros Hin Hty Ht Ha. unfold find_add_addr.
  destruct (rrset_cache_lookup _ _ _ _ _ _ _ _) as [akey|] eqn:Elook.
  2:{ by intros [= <- <- _]. }
  unfold delegpt_add_rrset, sbind, sret.
  destruct (region_alloc r) as [[[]|] r2]; [|done].
  assert (table_from_cache env cl now nss
            {| dp_name := dp_name dp; dp_namelen := dp_namelen dp;
               nslist := nslist dp;
               target_list := target_list dp ++ [akey] |}) as Ht'.
  { intros a. cbn [target_list]. rewrite elem_of_app, list_elem_of_singleton.
    intros [Ha'| ->]; [by apply Ht|]. by exists ns, atype. }
  destruct msg as [m|]; [|by intros [= <- <- _]].
  destruct Ha as (Hn & l & Hl & Hr).
  unfold addr_to_additional, sbind, sret.
  destruct (copy_rrset akey now r2) as [[ck|] r3] eqn:Ecopy.
  - destruct (takes_some _ _ _ _ _ _ (takes_copy_rrset akey now) Ecopy)
      as (_ & -> & _).
    intros [= <- <- _]. split; [done|]. split; [done|].
    exists (l ++ [akey]). cbn [target_list msg_push_ar rep rrsets].
    split; [by apply sublist_app|]. by rewrite Hr, fmap_app, app_assoc.
  - intros [= <- <- _]. split; [done|]. split; [done|].
    exists l. cbn [target_list]. split; [|done].
    by apply sublist_inserts_r.
Qed.

Lemma find_add_addrs_loop_table env cl nss' dp now msg r nss auth :
  nss' ⊆ nss ->
  table_from_cache env cl now nss dp ->
  additional_from_table now auth dp msg ->
  table_from_cache env cl now nss
    (find_add_addrs_loop env cl nss' dp now msg r).1.1.2 /\
  additional_from_table now auth
    (find_add_addrs_loop env cl nss' dp now msg r).1.1.2
    (find_add_addrs_loop env cl nss' dp now msg r).1.2.
Proof.
  revert dp msg r; induction nss' as [|ns nss' IH]; intros dp msg r Hsub Ht Ha;
    [done|].
  cbn [find_add_addrs_loop]. unfold sbind, sret.
  assert (ns ∈ nss) as Hin by (apply Hsub; left).
  assert (nss' ⊆ nss) as Hsub' by (intros x Hx; apply Hsub; by right).
  destruct (find_add_addr env cl ns LDNS_RR_TYPE_A dp now msg r)
    as [[[dp1 msg1]|] r1] eqn:E1; [|done].
  destruct (find_add_addr_table _ _ _ _ _ _ _ _ nss auth _ _ _ Hin
              (or_introl eq_refl) Ht Ha E1) as [Ht1 Ha1].
  destruct (find_add_addr env cl ns LDNS_RR_TYPE_AAAA dp1 now msg1 r1)
    as [[[dp2 msg2]|] r2] eqn:E2; [|done].
  destruct (find_add_addr_table _ _ _ _ _ _ _ _ nss auth _ _ _ Hin
              (or_intror eq_refl) Ht1 Ha1 E2) as [Ht2 Ha2].
  by apply IH.
Qed.

Lemma region_alloc_sound r :
  region_sound r ->
  (region_alloc r).1 = Some () /\ region_sound (region_alloc r).2.
Proof.
  intros Hr. destruct r as [|ok r]; [done|].
  apply Forall_cons in Hr as [-> Hr]. done.
Qed.

Lemma copy_rrset_sound key now r :
  region_sound r ->
  (copy_rrset key now r).1 = Some (rrset_copy key now) /\
  region_sound (copy_rrset key now r).2.
Proof.
  intros Hr. unfold copy_rrset, bind, mret.
  destruct (region_alloc_sound r Hr) as [E1 Hr1].
  destruct (region_alloc r) as [[[]|] r1]; [|done]. cbn [fst snd] in *.
  destruct (region_alloc_sound r1 Hr1) as [E2 Hr2].
  destruct (region_alloc r1) as [[[]|] r2]; [|done]. cbn [fst snd] in *.
  destruct (region_alloc_sound r2 Hr2) as [E3 Hr3].
  by destruct (region_alloc r2) as [[[]|] r3].
Qed.

Lemma find_add_addr_full env cl ns atype dp now msg r auth :
  region_sound r ->
  additional_is_table now auth dp msg ->
  exists dp' msg',
    (find_add_addr env cl ns atype dp now msg r).1 = Some (dp', msg') /\
    region_sound (find_add_addr env cl ns atype dp now msg r).2 /\
    additional_is_table now auth dp' msg'.
Proof.
  intros Hr Ha. unfold find_add_addr.
  destruct (rrset_cache_lookup _ _ _ _ _ _ _ _) as [akey|].
  2:{ by exists dp, msg. }
  unfold delegpt_add_rrset, sbind, sret.
  destruct (region_alloc_sound r Hr) as [E1 Hr1].
  destruct (region_alloc r) as [[[]|] r1]; [|done]. cbn [fst snd] in *.
  destruct msg as [m|]; [|by eexists _, None].
  unfold addr_to_additional, sbind, sret.
  destruct (copy_rrset_sound akey now r1 Hr1) as [E2 Hr2].
  destruct (copy_rrset akey now r1) as [[ck|] r2]; [|done].
  cbn [fst snd] in *. injection E2 as ->.
  eexists _, (Some _). split_and!; [done..|].
  cbn [additional_is_table target_list msg_push_ar rep rrsets] in *.
  by rewrite Ha, fmap_app, app_assoc.
Qed.

Lemma find_add_addrs_loop_full env cl nss dp now msg r auth :
  region_sound r ->
  additional_is_table now auth dp msg ->
  additional_is_table now auth
    (find_add_addrs_loop env cl nss dp now msg r).1.1.2
    (find_add_addrs_loop env cl nss dp now msg r).1.2.
Proof.
  revert dp msg r; induction nss as [|ns nss IH]; intros dp msg r Hr Ha;
    [done|].
  cbn [find_add_addrs_loop]. unfold sbind, sret.
  destruct (find_add_addr_full env cl ns LDNS_RR_TYPE_A dp now msg r auth
              Hr Ha) as (dp1 & msg1 & E1 & Hr1 & Ha1).
  destruct (find_add_addr env cl ns LDNS_RR_TYPE_A dp now msg r)
    as [res1 r1]. cbn [fst snd] in *. subst res1.
  destruct (find_add_addr_full env cl ns LDNS_RR_TYPE_AAAA dp1 now msg1 r1
              auth Hr1 Ha1) as (dp2 & msg2 & E2 & Hr2 & Ha2).
  destruct (find_add_addr env cl ns LDNS_RR_TYPE_AAAA dp1 now msg1 r1)
    as [res2 r2]. cbn [fst snd] in *. subst res2.
  by apply IH.
Qed.

Lemma delegpt_add_ns_each_sound dp rdatas r :
  region_sound r -> region_sound (delegpt_add_ns_each dp rdatas r).2.
Proof.
  revert dp r; induction rdatas as [|rdata rdatas IH]; intros dp r Hr;
    [done|].
  cbn [delegpt_add_ns_each]. unfold sbind.
  destruct (region_alloc_sound r Hr) as [E1 Hr1].
  destruct (region_alloc r) as [[[]|] r1]; [|done]. by apply IH.
Qed.

Lemma find_add_addr_none env cl ns atype dp now r dp' msg' :
  (find_add_addr env cl ns atype dp now None r).1 = Some (dp', msg') ->
  msg' = None.
Proof.
  unfold find_add_addr.
  destruct (rrset_cache_lookup _ _ _ _ _ _ _ _) as [akey|];
    [|by intros [= _ <-]].
  unfold sbind, sret.
  destruct (delegpt_add_rrset dp akey r) as [[[] dp1] r1]; [|done].
  by intros [= _ <-].
Qed.

Lemma find_add_addrs_loop_none env cl nss dp now r :
  (find_add_addrs_loop env cl nss dp now None r).1.2 = None.
Proof.
  revert dp r; induction nss as [|ns nss IH]; intros dp r; [done|].
  cbn [find_add_addrs_loop]. unfold sbind, sret.
  destruct (find_add_addr env cl ns LDNS_RR_TYPE_A dp now None r)
    as [[[dp1 msg1]|] r1] eqn:E1; [|done].
  rewrite (find_add_addr_none env cl ns LDNS_RR_TYPE_A dp now r dp1 msg1)
    in * by (by rewrite E1).
  destruct (find_add_addr env cl ns LDNS_RR_TYPE_AAAA dp1 now None r1)
    as [[[dp2 msg2]|] r2] eqn:E2; [|done].
  rewrite (find_add_addr_none env cl ns LDNS_RR_TYPE_AAAA dp1 now r1 dp2 msg2)
    by (by rewrite E2).
  apply IH.
Qed.

(** What [find_add_ds] leaves: the message with one or two authority
    RRsets and nothing behind them. *)
Lemma find_add_ds_auth env qi ck dp now r :
  let m0 := msg_push_ns {| qinfo := qi; rep := mk_rep BIT_QR 1 0 0 0 0 0 [] [] |}
              ck in
  exists auth,
    ns_numrrsets (rep (find_add_ds env m0 dp now r).1)
      = Z.of_nat (length auth) /\
    rrsets (rep (find_add_ds env m0 dp now r).1) = auth /\
    (region_sound r -> region_sound (find_add_ds env m0 dp now r).2).
Proof.
  intros m0. unfold find_add_ds.
  destruct (match rrset_cache_lookup env (dp_name dp) (dp_namelen dp)
                    LDNS_RR_TYPE_DS (qclass (qinfo m0)) 0 now false with
            | Some rrset => Some rrset
            | None => _
            end) as [rrset|].
  2:{ by exists [ck]. }
  unfold sbind, sret.
  pose proof (copy_rrset_sound rrset now r) as Hc.
  destruct (copy_rrset rrset now r) as [[ck'|] r1]; cbn [fst snd] in *.
  - exists [ck; ck']. split_and!; [done..|]. intros Hr. by apply Hc.
  - exists [ck]. split_and!; [done..|]. intros Hr. by apply Hc.
Qed.

(** X10. The address table and the additional section of a delegation.
    Whatever [dns_cache_find_delegation] hands back, with or without a
    message and whichever later allocations failed: every address set in
    the delegation point's table is the unexpired A or AAAA RRset that
    the RRset cache holds for one of the delegation point's nameservers;
    the additional section of the message, the RRsets behind the
    authority section, consists of copies at [now] of address sets of
    that table, in the table's order; and when no allocation fails the
    additional section leaves out none of them. *)
Theorem delegation_addresses_come_from_cache env nm nmlen ty cl now want_msg
    r dp msg r' :
  dns_cache_find_delegation env nm nmlen ty cl now want_msg r
    = (Some (dp, msg), r') ->
  table_from_cache env cl now (nslist dp) dp /\
  (want_msg = false -> msg = None) /\
  forall m, msg = Some m ->
    (exists l,
       sublist l (target_list dp) /\
       drop (Z.to_nat (ns_numrrsets (rep m))) (rrsets (rep m))
         = (fun k => rrset_copy k now) <$> l) /\
    (region_sound r ->
       drop (Z.to_nat (ns_numrrsets (rep m))) (rrsets (rep m))
         = (fun k => rrset_copy k now) <$> target_list dp).
Proof.
  rewrite dns_cache_find_delegation_parts.
  destruct (find_closest_of_type _ _ _ _ _ _) as [nskey|]; [|done].
  destruct (delegation_setup nm nmlen ty cl now want_msg nskey r)
    as [[[dp0 msg0]|] r1] eqn:Esetup; [|done].
  destruct (takes_some _ _ _ _ _ _
              (takes_delegation_setup nm nmlen ty cl now want_msg nskey)
              Esetup) as (_ & Eres & ->).
  injection Eres as -> ->.
  unfold delegation_fill, delegpt_rrset_add_ns, find_add_addrs, sbind, sret.
  match goal with
  | |- context [delegpt_add_ns_each ?d ?l ?rr] =>
      pose proof (delegpt_add_ns_each_targets d l rr) as Htl;
      pose proof (delegpt_add_ns_each_sound d l rr) as Hsound;
      destruct (delegpt_add_ns_each d l rr) as [[ok dp1] r2]
  end.
  cbn [fst snd target_list] in *.
  assert (table_from_cache env cl now (nslist dp1) dp1) as Ht1.
  { intros a. rewrite Htl. by intros ?%elem_of_nil. }
  destruct want_msg.
  - match goal with
    | |- context [find_add_ds env (msg_push_ns {| qinfo := ?qi; rep := _ |} ?ck)
                    dp1 now r2] =>
        destruct (find_add_ds_auth env qi ck dp1 now r2)
          as (auth & Hn & Hauth & Hsound');
        destruct (find_add_ds env (msg_push_ns {| qinfo := qi;
                    rep := mk_rep BIT_QR 1 0 0 0 0 0 [] [] |} ck) dp1 now r2)
          as [m1 r3]
    end.
    cbn [fst snd] in *.
    assert (additional_from_table now auth dp1 (Some m1)) as Ha1.
    { split; [done|]. exists []. split; [apply sublist_nil_l|].
      by rewrite Hauth, app_nil_r. }
    assert (additional_is_table now auth dp1 (Some m1)) as Hf1.
    { unfold additional_is_table. by rewrite Htl, Hauth, app_nil_r. }
    destruct (find_add_addrs_loop_table env cl (nslist dp1) dp1 now (Some m1)
                r3 (nslist dp1) auth) as [Ht Ha]; [done..|].
    pose proof (find_add_addrs_loop_full env cl (nslist dp1) dp1 now (Some m1)
                  r3 auth) as Hf.
    pose proof (find_add_addrs_loop_nslist env cl (nslist dp1) dp1 now
                  (Some m1) r3) as Hnl.
    destruct (find_add_addrs_loop env cl (nslist dp1) dp1 now (Some m1) r3)
      as [[[ok' dp2] msg2] r4].
    cbn [fst snd] in *. intros [= <- <- _]. rewrite Hnl.
    split; [done|]. split; [done|]. intros m ->.
    destruct Ha as (Hns & l & Hl & Hr).
    rewrite Hns, Nat2Z.id. split.
    + exists l. split; [done|]. by rewrite Hr, drop_app_length.
    + intros Hrs. unfold additional_is_table in Hf.
      rewrite Hf; [by rewrite drop_app_length|..|done].
      apply Hsound', Hsound. by apply Forall_drop.
  - destruct (find_add_addrs_loop_table env cl (nslist dp1) dp1 now None
                r2 (nslist dp1) []) as [Ht Ha]; [done..|].
    pose proof (find_add_addrs_loop_nslist env cl (nslist dp1) dp1 now
                  None r2) as Hnl.
    pose proof (find_add_addrs_loop_none env cl (nslist dp1) dp1 now r2)
      as Hnone.
    destruct (find_add_addrs_loop env cl (nslist dp1) dp1 now None r2)
      as [[[ok' dp2] msg2] r4].
    cbn [fst snd] in *. intros [= <- <- _]. rewrite Hnl. subst msg2.
    split; [done|]. split; [done|]. by intros m [=].
Qed.

End TableFacts.

Lemma delegation_addresses_come_from_cache_witness :
  exists dp msg r',
    dns_cache_find_delegation (H:=example_host) env_delegation
      www_example_com 17 LDNS_RR_TYPE_A CLASS_IN 100 true []
      = (Some (dp, msg), r') /\
    table_from_cache (H:=example_host) env_delegation CLASS_IN 100
      (nslist dp) dp /\
    (true = false -> msg = None) /\
    forall m, msg = Some m ->
      (exists l,
         sublist l (target_list dp) /\
         drop (Z.to_nat (ns_numrrsets (rep m))) (rrsets (rep m))
           = (fun k => rrset_copy k 100) <$> l) /\
      (region_sound [] ->
         drop (Z.to_nat (ns_numrrsets (rep m))) (rrsets (rep m))
           = (fun k => rrset_copy k 100) <$> target_list dp).
Proof.
  do 3 eexists; split; [vm_compute; reflexivity|].
  eapply (delegation_addresses_come_from_cache (H:=example_host)
            env_delegation www_example_com 17 LDNS_RR_TYPE_A CLASS_IN 100
            true []).
  vm_compute; reflexivity.
Defined.

(** ** References and RRset pointers of a stored reply *)

Lemma ref_insert_perm h a l : ref_insert h a l ≡ₚ a :: l.
Proof.
  induction l as [|b l IH]; simpl; [done|].
  destruct (ref_le h a b); [done|]. rewrite IH. apply perm_swap.
Qed.

Lemma ref_sort_perm h l : foldr (ref_insert h) [] l ≡ₚ l.
Proof.
  induction l as [|a l IH]; simpl; [done|].
  by rewrite ref_insert_perm, IH.
Qed.

Lemma sortref_take env rep :
  take (Z.to_nat (rrset_count rep)) (ref (reply_info_sortref env rep))
    ≡ₚ take (Z.to_nat (rrset_count rep)) (ref rep).
Proof.
  unfold reply_info_sortref. cbn [ref rep_with_ref].
  set (n := Z.to_nat (rrset_count rep)).
  pose proof (ref_sort_perm (heap env) (take n (ref rep))) as Hp.
  pose proof (Permutation_length Hp) as Hl. rewrite length_take in Hl.
  destruct (decide (n <= length (ref rep))%nat) as [Hle|Hgt].
  - rewrite take_app_le, take_ge by lia. done.
  - rewrite (drop_ge (ref rep)), app_nil_r, take_ge by lia. done.
Qed.

Lemma rrset_cache_update_key env r now env' r' :
  rrset_cache_update env r now = (env', r', false) -> ref_key r' = ref_key r.
Proof.
  unfold rrset_cache_update.
  destruct (heap env !! ref_key r) as [k|]; [|by intros [= _ <-]].
  destruct (rrset_cache_find env (rk k)) as [q|]; [|by intros [= _ <-]].
  destruct (heap env !! q) as [e|]; [|by intros [= _ <-]].
  destruct (_ >? _); [done|]. by destruct (rrsetdata_equal _ _).
Qed.

Lemma store_rrsets_step_refs now env rep i env' rep' :
  store_rrsets_step now (env, rep) i = (env', rep') ->
  length (ref rep') = length (ref rep) /\
  length (rrsets rep') = length (rrsets rep) /\
  (forall j, j <> i ->
     ref rep' !! j = ref rep !! j /\ rrsets rep' !! j = rrsets rep !! j) /\
  ((i < length (ref rep))%nat -> forall p, rrsets rep' !! i = Some p ->
     ref_key <$> ref rep' !! i = Some p).
Proof.
  unfold store_rrsets_step.
  destruct (rrsets rep !! i) as [p|] eqn:Hp.
  2:{ intros [= <- <-]. split_and!; try done. intros _ p. by rewrite Hp. }
  destruct (rrset_cache_update env _ now) as [[env1 r1] in_cache] eqn:Hup.
  apply lookup_lt_Some in Hp as Hi.
  intros [= <- <-]. destruct in_cache; cbn [ref rrsets rep_with_ref
    rep_with_rrsets]; rewrite ?length_insert; split_and!; try done.
  - intros j Hj. by rewrite !list_lookup_insert_ne.
  - intros Hlt p'. rewrite !list_lookup_insert_eq by done.
    by intros [= <-].
  - intros j Hj. by rewrite !list_lookup_insert_ne.
  - intros Hlt p'. rewrite list_lookup_insert_eq, Hp by done.
    intros [= <-]. apply rrset_cache_update_key in Hup. simpl.
    by rewrite Hup.
Qed.

Lemma store_rrsets_loop_refs now n s env rep env' rep' :
  foldl (store_rrsets_step now) (env, rep) (seq s n) = (env', rep') ->
  (forall i p, (i < s)%nat -> i < length (ref rep) ->
     rrsets rep !! i = Some p -> ref_key <$> ref rep !! i = Some p)%nat ->
  length (ref rep') = length (ref rep) /\
  length (rrsets rep') = length (rrsets rep) /\
  (forall i p, (i < s + n)%nat -> i < length (ref rep) ->
     rrsets rep' !! i = Some p -> ref_key <$> ref rep' !! i = Some p)%nat.
Proof.
  revert s env rep; induction n as [|n IH]; intros s env rep;
    cbn [seq foldl].
  { intros [= <- <-] Hbefore. split_and!; [done..|].
    intros i p Hi. apply Hbefore. lia. }
  destruct (store_rrsets_step now (env, rep) s) as [env1 rep1] eqn:Hstep.
  apply store_rrsets_step_refs in Hstep as (Hl1 & Hl2 & Hsame & Hhere).
  intros Hloop Hbefore.
  apply IH in Hloop as (Hl1' & Hl2' & Hall).
  - split_and!; [congruence..|].
    intros i p Hi Hlen. apply Hall; [lia|by rewrite Hl1].
  - intros i p Hi Hlen Hp. rewrite Hl1 in Hlen.
    destruct (decide (i = s)) as [->|Hne]; [by apply Hhere|].
    destruct (Hsame i Hne) as [-> E]. rewrite E in Hp.
    apply Hbefore; [lia|done..].
Qed.

Lemma refs_aligned_cover r :
  refs_aligned (Z.to_nat (rrset_count r)) r -> reply_refs_cover r.
Proof.
  intros Ha. unfold reply_refs_cover. apply Forall_forall. intros p Hp.
  apply list_elem_of_lookup in Hp as [i Hi].
  apply lookup_take_Some in Hi as [Hi Hlt].
  specialize (Ha i p Hlt Hi).
  destruct (ref r !! i) as [rf|] eqn:Hrf; [|done]. injection Ha as <-.
  apply list_elem_of_fmap. exists rf. split; [done|].
  apply list_elem_of_lookup. exists i. by apply lookup_take_Some.
Qed.

Lemma sortref_cover env r :
  reply_refs_cover r -> reply_refs_cover (reply_info_sortref env r).
Proof.
  unfold reply_refs_cover. intros Hc.
  change (rrsets (reply_info_sortref env r)) with (rrsets r).
  change (rrset_count (reply_info_sortref env r)) with (rrset_count r).
  eapply Forall_impl; [exact Hc|]. intros p Hp. cbv beta in *.
  by rewrite (sortref_take env r).
Qed.

(** X11. Storing a reply keeps every cached message covered by its
    references. [store_rrsets] sets reference [i] to the key object that
    RRset pointer [i] points to, before and after [rrset_cache_update]
    may have redirected both, and the sorting of the references that
    follows only reorders them. So the reply that [dns_cache_store_msg]
    leaves, and with it the message cache, has for each RRset pointer a
    reference to the same key object: the lookup that later checks the
    references of a message checks every RRset it is going to copy. *)
Theorem store_keeps_messages_covered env qinfo hash rep now malloc_ok :
  messages_covered env ->
  messages_covered (dns_cache_store_msg env qinfo hash rep now malloc_ok).1 /\
  reply_refs_cover (dns_cache_store_msg env qinfo hash rep now malloc_ok).2.
Proof.
  intros Hcov. unfold dns_cache_store_msg.
  set (n := Z.to_nat (rrset_count rep)).
  set (repa := rep_with_ref rep _).
  set (repb := reply_info_sortref env repa).
  assert (length (ref repb) = length (take n (rrsets rep))) as Hlen.
  { unfold repb, reply_info_sortref. cbn [ref rep_with_ref].
    rewrite length_app, (Permutation_length (ref_sort_perm _ _)),
      <- length_app, take_drop.
    unfold repa. cbn [ref rep_with_ref]. by rewrite length_fmap. }
  destruct (reply_info_set_ttls env repb now) as [env1 rep1] eqn:Hset.
  assert (ref rep1 = ref repb) as Href1
    by (unfold reply_info_set_ttls in Hset; by injection Hset as <- <-).
  apply reply_info_set_ttls_spec in Hset as ((M1 & _) & Hrr1 & Hcount1).
  destruct (store_rrsets env1 rep1 now) as [env2 rep2] eqn:Hstore.
  unfold store_rrsets in Hstore.
  pose proof Hstore as Hrefs.
  apply store_rrsets_loop_spec in Hstore as ((M2 & _) & Hcount2 & _).
  apply store_rrsets_loop_refs in Hrefs as (Hl1 & Hl2 & Hall); [|lia].
  assert (rrset_count rep2 = rrset_count rep) as Hcount
    by (rewrite Hcount2, Hcount1; done).
  assert (reply_refs_cover rep2) as Hcov2.
  { apply refs_aligned_cover. rewrite Hcount. intros i p Hi Hp.
    apply Hall; [by rewrite Hcount1| |done].
    apply lookup_lt_Some in Hp.
    rewrite Href1, Hlen, length_take. rewrite Hl2, Hrr1 in Hp.
    change (rrsets repb) with (rrsets rep) in Hp. fold n in Hi. lia. }
  destruct (rep_ttl rep =? 0).
  { cbn [fst snd]. split; [|done]. unfold messages_covered.
    by rewrite M2, M1. }
  pose proof (sortref_cover env2 rep2 Hcov2) as Hcov3.
  destruct malloc_ok; cbn [query_info_entrysetup fst snd msg_cache].
  - split; [|done]. unfold messages_covered, slabhash_insert.
    cbn [msg_cache]. apply Forall_cons. split; [done|].
    rewrite M2, M1. apply Forall_forall. intros e He.
    apply list_elem_of_filter in He as [_ He].
    by apply (proj1 (Forall_forall _ _) Hcov).
  - split; [|done]. unfold messages_covered. by rewrite M2, M1.
Qed.

#[local] Instance messages_covered_dec env : Decision (messages_covered env).
Proof. unfold messages_covered, reply_refs_cover. apply _. Defined.

(** A second reply stored into the cache of the first scenario, under
    another question. *)
Lemma store_keeps_messages_covered_witness :
  messages_covered env_round_trip /\
  messages_covered
    (dns_cache_store_msg env_round_trip
       (mk_qinfo www_example_com 17 LDNS_RR_TYPE_A CLASS_IN) 1
       (mk_rep BIT_QR 1 300 1 0 0 1 [2%nat] [mk_ref 0%nat 0]) 1000 true).1 /\
  reply_refs_cover
    (dns_cache_store_msg env_round_trip
       (mk_qinfo www_example_com 17 LDNS_RR_TYPE_A CLASS_IN) 1
       (mk_rep BIT_QR 1 300 1 0 0 1 [2%nat] [mk_ref 0%nat 0]) 1000 true).2.
Proof.
  assert (messages_covered env_round_trip) as Hc
    by (apply (bool_decide_unpack _); vm_compute; exact I).
  split; [exact Hc|].
  exact (store_keeps_messages_covered env_round_trip
           (mk_qinfo www_example_com 17 LDNS_RR_TYPE_A CLASS_IN) 1
           (mk_rep BIT_QR 1 300 1 0 0 1 [2%nat] [mk_ref 0%nat 0]) 1000 true
           Hc).
Defined.

(** ** The CNAME that the DNAME synthesis writes *)

Lemma dname_valid_walk_gt fuel dname len maxlen :
  Forall (fun b => 0 <= b) dname ->
  dname_valid_walk fuel dname len maxlen <> 0 ->
  len < dname_valid_walk fuel dname len maxlen.
Proof.
  revert dname len; induction fuel as [|fuel IH]; intros dname len Hb; simpl;
    [done|].
  destruct dname as [|labellen rest]; [done|].
  apply Forall_cons in Hb as [Hb0 Hb].
  destruct (Z.eqb_spec labellen 0).
  - destruct (_ || _); [done|lia].
  - destruct (_ || _); [done|]. intros Hne.
    pose proof (IH _ _ (Forall_drop _ _ _ Hb) Hne). lia.
Qed.

(** The walk reads no byte behind the end of the name it finds, and one
    round for each byte of the name is enough. *)
Lemma dname_valid_walk_take fuel fuel' dname len maxlen :
  Forall (fun b => 0 <= b) dname ->
  dname_valid_walk fuel dname len maxlen <> 0 ->
  let l := dname_valid_walk fuel dname len maxlen in
  (length (take (Z.to_nat (l - len)) dname) < fuel')%nat ->
  dname_valid_walk fuel' (take (Z.to_nat (l - len)) dname) len maxlen = l.
Proof.
  revert fuel' dname len; induction fuel as [|fuel IH];
    intros fuel' dname len Hb; [done|].
  destruct dname as [|labellen rest]; [done|].
  apply Forall_cons in Hb as [Hb0 Hb].
  intros Hne l. pose proof (dname_valid_walk_gt _ _ _ _
                              (Forall_cons_2 _ _ _ Hb0 Hb) Hne) as Hgt.
  fold l in Hgt. revert Hne Hgt. subst l. cbn [dname_valid_walk].
  destruct (Z.eqb_spec labellen 0) as [->|Hl0].
  - destruct (_ || _) eqn:Hchk; [done|]. intros _ _.
    replace (Z.to_nat (len + 1 - len)) with 1%nat by lia.
    cbn [take length]. rewrite take_0.
    destruct fuel' as [|fuel']; [simpl; lia|]. intros _.
    cbn [dname_valid_walk]. by rewrite Z.eqb_refl, Hchk.
  - destruct (_ || _) eqn:Hchk; [done|].
    set (len' := len + labellen + 1). intros Hne Hgt.
    pose proof (dname_valid_walk_gt _ _ _ _ (Forall_drop _ _ _ Hb) Hne)
      as Hgt'.
    set (l := dname_valid_walk fuel (drop (Z.to_nat labellen) rest) len'
                maxlen) in *.
    replace (Z.to_nat (l - len)) with (S (Z.to_nat (l - len - 1)))
      by (unfold len' in *; lia).
    cbn [take length].
    destruct fuel' as [|fuel']; [lia|]. intros Hfuel.
    cbn [dname_valid_walk].
    rewrite (proj2 (Z.eqb_neq _ _) Hl0), Hchk. fold len'.
    assert (drop (Z.to_nat labellen) (take (Z.to_nat (l - len - 1)) rest)
            = take (Z.to_nat (l - len')) (drop (Z.to_nat labellen) rest))
      as ->.
    { rewrite take_drop_commute. do 2 f_equal. clearbody l.
      unfold len' in *. lia. }
    apply (IH fuel' _ len' (Forall_drop _ _ _ Hb) Hne).
    fold l. rewrite length_take, length_drop.
    rewrite length_take in Hfuel. unfold len' in *. lia.
Qed.

(** Moving the start of the count moves the result. *)
Lemma dname_valid_walk_shift fuel dname len maxlen c :
  Forall (fun b => 0 <= b) dname ->
  dname_valid_walk fuel dname len maxlen <> 0 ->
  0 <= c ->
  dname_valid_walk fuel dname len maxlen + c <= LDNS_MAX_DOMAINLEN ->
  dname_valid_walk fuel dname (len + c) (maxlen + c)
    = dname_valid_walk fuel dname len maxlen + c.
Proof.
  revert dname len; induction fuel as [|fuel IH]; intros dname len Hb;
    [done|].
  destruct dname as [|labellen rest]; [done|].
  apply Forall_cons in Hb as [Hb0 Hb]. cbn [dname_valid_walk].
  destruct (Z.eqb_spec labellen 0) as [->|Hl0].
  - destruct (Z.gtb_spec (len + 1) maxlen); [done|].
    destruct (Z.gtb_spec (len + 1) LDNS_MAX_DOMAINLEN); [done|].
    cbn [orb]. intros _ Hc Hmax.
    rewrite gtb_false, gtb_false by lia. cbn [orb]. lia.
  - destruct (Z.gtb_spec (len + labellen + 1) maxlen); [done|].
    destruct (Z.gtb_spec (len + labellen + 1) LDNS_MAX_DOMAINLEN); [done|].
    cbn [orb]. intros Hne Hc Hmax.
    pose proof (dname_valid_walk_gt _ _ _ _ (Forall_drop _ _ _ Hb) Hne).
    rewrite gtb_false, gtb_false by lia. cbn [orb].
    replace (len + c + labellen + 1) with (len + labellen + 1 + c) by lia.
    by apply IH; [apply Forall_drop|..].
Qed.

(** The walk over labels put in front of a name. *)
Lemma dname_valid_walk_front front rest fuel len maxlen :
  Forall label_ok front ->
  let bytes := concat ((fun l => Z.of_nat (length l) :: l) <$> front) in
  len + Z.of_nat (length bytes) <= maxlen ->
  len + Z.of_nat (length bytes) <= LDNS_MAX_DOMAINLEN ->
  dname_valid_walk (length front + fuel) (bytes ++ rest) len maxlen
    = dname_valid_walk fuel rest (len + Z.of_nat (length bytes)) maxlen.
Proof.
  revert len; induction front as [|l front IH]; intros len Hok bytes;
    subst bytes.
  { simpl. intros _ _. by rewrite Z.add_0_r. }
  apply Forall_cons in Hok as [Hl Hok]. unfold label_ok in Hl.
  specialize (IH (len + Z.of_nat (length l) + 1) Hok). cbv zeta in IH.
  rewrite fmap_cons. cbn [concat]. rewrite <- !app_comm_cons, <- app_assoc.
  rewrite length_cons, length_app. intros Hmax Hdom.
  change (length (l :: front) + fuel)%nat with (S (length front + fuel)).
  cbn [dname_valid_walk].
  destruct (Z.eqb_spec (Z.of_nat (length l)) 0); [lia|].
  rewrite gtb_false, gtb_false by lia. cbn [orb].
  rewrite Nat2Z.id, drop_app_length.
  rewrite IH by lia. f_equal. lia.
Qed.

Lemma dname_valid_walk_fuel fuel fuel' dname len maxlen :
  dname_valid_walk fuel dname len maxlen <> 0 -> (fuel <= fuel')%nat ->
  dname_valid_walk fuel' dname len maxlen
    = dname_valid_walk fuel dname len maxlen.
Proof.
  revert fuel' dname len; induction fuel as [|fuel IH];
    intros fuel' dname len; [done|].
  destruct fuel' as [|fuel']; [lia|]. cbn [dname_valid_walk].
  destruct dname as [|labellen rest]; [done|].
  destruct (labellen =? 0); [done|]. destruct (_ || _); [done|].
  intros Hne Hle. apply IH; [done|lia].
Qed.

Lemma front_bytes_length (front : list (list Z)) :
  (length front
   <= length (concat ((fun l => Z.of_nat (length l) :: l) <$> front)))%nat.
Proof.
  induction front as [|l front IH]; [done|].
  rewrite fmap_cons. cbn [concat].
  rewrite length_cons, length_app, length_cons. lia.
Qed.

Lemma ldns_uint16_round_trip x rest :
  0 <= x < 256 -> ldns_read_uint16 (ldns_write_uint16 x ++ rest) = x.
Proof.
  intros Hx. unfold ldns_read_uint16, ldns_write_uint16. cbn [app nth].
  rewrite Z.shiftr_div_pow2, Z.div_small by lia.
  change (Z.land 0 255) with 0. change (Z.shiftl 0 8) with 0.
  rewrite Z.lor_0_l. change 255 with (Z.ones 8).
  rewrite Z.land_ones by lia. apply Z.mod_small. lia.
Qed.

Section SynthesisFacts.
Context `{Host}.

Lemma ntohs_htons_cname :
  ntohs (htons LDNS_RR_TYPE_CNAME) = LDNS_RR_TYPE_CNAME.
Proof. unfold ntohs, htons. by destruct big_endian. Qed.

Lemma get_cname_target_valid rrset dtarg dtarglen :
  get_cname_target rrset = Some (dtarg, dtarglen) ->
  dname_valid dtarg dtarglen = dtarglen.
Proof.
  unfold get_cname_target.
  destruct (_ && _); [done|].
  destruct (d_count (entry_data rrset) <? 1); [done|].
  destruct (rr_len (entry_data rrset)) as [|len0 lens]; [done|].
  destruct (rr_data (entry_data rrset)) as [|data0 datas]; [done|].
  destruct (len0 <? 3); [done|].
  destruct (negb (_ =? len0 - 2)); [done|].
  destruct (Z.eqb_spec (dname_valid (drop 2 data0) (ldns_read_uint16 data0))
              (ldns_read_uint16 data0)) as [Ev|]; simpl; [|done].
  by intros [= <- <-].
Qed.

(** A valid name behind labels is a valid name. *)
Lemma dname_valid_front front dtarg dtarglen :
  let bytes := concat ((fun l => Z.of_nat (length l) :: l) <$> front) in
  let target := take (Z.to_nat dtarglen) dtarg in
  Forall label_ok front ->
  Forall (fun b => 0 <= b) dtarg ->
  dname_valid dtarg dtarglen = dtarglen -> dtarglen <> 0 ->
  Z.of_nat (length bytes) + dtarglen <= LDNS_MAX_DOMAINLEN ->
  dname_valid (bytes ++ target) (Z.of_nat (length bytes) + dtarglen)
    = Z.of_nat (length bytes) + dtarglen.
Proof.
  intros bytes target Hfront Hb Hv Hne Hmax. unfold dname_valid in *.
  assert (dname_valid_walk (S (length dtarg)) dtarg 0 dtarglen <> 0) as Hne0
    by (by rewrite Hv).
  pose proof (dname_valid_walk_gt _ _ _ _ Hb Hne0) as Hpos.
  rewrite Hv in Hpos.
  pose proof (dname_valid_walk_take _ (S (length target)) _ _ _ Hb Hne0)
    as V1.
  cbv zeta in V1. rewrite Hv, Z.sub_0_r in V1. fold target in V1.
  specialize (V1 ltac:(lia)).
  assert (Forall (fun b => 0 <= b) target) as Hbt by (by apply Forall_take).
  pose proof (dname_valid_walk_shift (S (length target)) target 0 dtarglen
                (Z.of_nat (length bytes)) Hbt) as V2.
  rewrite V1 in V2. specialize (V2 Hne ltac:(lia) ltac:(lia)).
  pose proof (dname_valid_walk_front front target (S (length target)) 0
                (Z.of_nat (length bytes) + dtarglen) Hfront) as V3.
  cbv zeta in V3. fold bytes in V3. specialize (V3 ltac:(lia) ltac:(lia)).
  rewrite (Z.add_comm dtarglen) in V2. rewrite V2 in V3.
  etrans; [|exact V3]. apply dname_valid_walk_fuel; [rewrite V3; lia|].
  rewrite length_app. pose proof (front_bytes_length front) as Hfl.
  fold bytes in Hfl. lia.
Qed.

(** X12. The CNAME that the DNAME synthesis writes is one that
    [get_cname_target] reads back. For a query name made of the labels
    [front] before the owner of the DNAME, a DNAME RRset whose target
    [get_cname_target] accepts, and a synthesized name of at most 255
    bytes, the record that [synth_dname_msg] builds has a length, a
    16-bit prefix and a name that agree: read by [get_cname_target] it
    gives the labels in [front] followed by the target of the DNAME,
    and the length of that. *)
Theorem synthesized_cname_reads_back rrset front back ty cl dtarg dtarglen :
  let q := mk_qinfo (wire (front ++ back))
             (Z.of_nat (length (wire (front ++ back)))) ty cl in
  let bytes := concat ((fun l => Z.of_nat (length l) :: l) <$> front) in
  Forall label_ok front ->
  qname_len q <= LDNS_MAX_DOMAINLEN ->
  rk_dname_len (rk rrset) = Z.of_nat (length (wire back)) ->
  get_cname_target rrset = Some (dtarg, dtarglen) ->
  Forall (fun b => 0 <= b) dtarg ->
  synth_newlen rrset q dtarglen <= LDNS_MAX_DOMAINLEN ->
  get_cname_target
    (synth_cname rrset q (synth_newname rrset q dtarg dtarglen)
       (synth_newlen rrset q dtarglen))
  = Some (bytes ++ take (Z.to_nat dtarglen) dtarg,
          Z.of_nat (length bytes) + dtarglen).
Proof.
  intros q bytes Hfront Hq Howner Ht Hb Hlen.
  destruct (get_cname_target_some _ _ _ Ht) as (Hd & Hdl & _).
  pose proof (get_cname_target_valid _ _ _ Ht) as Hv.
  unfold LDNS_MAX_DOMAINLEN in *.
  assert (qname q = bytes ++ wire back) as Hname by apply wire_app.
  assert (qname_len q = Z.of_nat (length bytes) + Z.of_nat (length (wire back)))
    as Hqlen.
  { unfold q. cbn [qname_len]. rewrite wire_app, length_app. fold bytes.
    lia. }
  rewrite Hqlen in Hq.
  assert (synth_newlen rrset q dtarglen = Z.of_nat (length bytes) + dtarglen)
    as Enewlen.
  { unfold synth_newlen, wrap_size. rewrite Howner, Hqlen.
    rewrite Z.mod_small by lia. lia. }
  assert (synth_newname rrset q dtarg dtarglen
          = bytes ++ take (Z.to_nat dtarglen) dtarg) as Enewname.
  { unfold synth_newname, wrap_size. rewrite Howner, Hqlen, Hname.
    rewrite Z.mod_small by lia.
    replace (Z.to_nat (Z.of_nat (length bytes) + Z.of_nat (length (wire back))
                       - Z.of_nat (length (wire back))))
      with (length bytes) by lia.
    by rewrite take_app_length. }
  rewrite Enewlen in Hlen |- *. rewrite Enewname.
  set (target := take (Z.to_nat dtarglen) dtarg).
  set (n := Z.of_nat (length bytes) + dtarglen) in *.
  assert (length target = Z.to_nat dtarglen) as Htl
    by (unfold target; rewrite length_take; lia).
  unfold get_cname_target, synth_cname.
  cbn [rk rk_type entry_data d_count rr_len rr_data].
  rewrite ntohs_htons_cname.
  change (LDNS_RR_TYPE_CNAME =? LDNS_RR_TYPE_CNAME) with true.
  change (1 <? 1) with false. cbn [negb andb].
  assert (wrap_size (n + 2) = n + 2) as ->
    by (apply Z.mod_small; unfold n; lia).
  destruct (Z.ltb_spec (n + 2) 3); [unfold n in *; lia|].
  rewrite ldns_uint16_round_trip by (unfold n; lia).
  replace (n + 2 - 2) with n by lia. rewrite Z.eqb_refl. cbn [negb].
  unfold ldns_write_uint16. cbn [app drop].
  rewrite (take_ge (bytes ++ target)) by (rewrite length_app; lia).
  rewrite drop_0.
  pose proof (dname_valid_front front dtarg dtarglen Hfront Hb Hv
                ltac:(lia)
                ltac:(unfold LDNS_MAX_DOMAINLEN; fold bytes;
                      unfold n in Hlen; lia)) as Ev.
  fold bytes target n in Ev. by rewrite Ev, Z.eqb_refl.
Qed.

End SynthesisFacts.

(** www.example.com. under the DNAME of example.com. to example.net.: the
    synthesized CNAME is read back as www.example.net. *)
Lemma synthesized_cname_reads_back_witness :
  let q := mk_qinfo (wire ([lbl_www] ++ [lbl_example; lbl_com]))
             (Z.of_nat (length (wire ([lbl_www] ++ [lbl_example; lbl_com]))))
             LDNS_RR_TYPE_A CLASS_IN in
  get_cname_target (H:=example_host) dname_example_com
    = Some (example_net, 13) /\
  get_cname_target (H:=example_host)
    (synth_cname (H:=example_host) dname_example_com q
       (synth_newname dname_example_com q example_net 13)
       (synth_newlen dname_example_com q 13))
  = Some (concat ((fun l => Z.of_nat (length l) :: l) <$> [lbl_www]) ++
            take (Z.to_nat 13) example_net,
          Z.of_nat
            (length (concat ((fun l => Z.of_nat (length l) :: l)
                               <$> [lbl_www]))) + 13).
Proof.
  split; [vm_compute; reflexivity|].
  apply (synthesized_cname_reads_back (H:=example_host) dname_example_com
           [lbl_www] [lbl_example; lbl_com] LDNS_RR_TYPE_A CLASS_IN
           example_net 13).
  - repeat constructor; vm_compute; lia.
  - apply (bool_decide_unpack _). vm_compute. exact I.
  - vm_compute; reflexivity.
  - vm_compute; reflexivity.
  - apply (bool_decide_unpack _). vm_compute. exact I.
  - apply (bool_decide_unpack _). vm_compute. exact I.
Defined.

(** ** The packed layout of RRset data *)

Lemma rdata_bytes_nonneg lens :
  Forall (fun len => 0 <= len) lens -> 0 <= rdata_bytes lens.
Proof.
  induction 1 as [|len lens Hlen _ IH]; simpl; [done|].
  unfold rdata_bytes in *. simpl. lia.
Qed.

Lemma rdata_bytes_take lens i len :
  lens !! i = Some len ->
  rdata_bytes (take (S i) lens) = rdata_bytes (take i lens) + len.
Proof.
  revert i; induction lens as [|l lens IH]; intros [|i]; try done.
  - intros [= ->]. unfold rdata_bytes. cbn [take foldr].
    rewrite take_0. cbn [foldr]. lia.
  - intros Hi. cbn [take]. unfold rdata_bytes in *.
    cbn [foldr]. rewrite (IH i Hi). lia.
Qed.

Lemma rdata_bytes_take_le lens i :
  Forall (fun len => 0 <= len) lens ->
  rdata_bytes (take i lens) <= rdata_bytes lens.
Proof.
  intros Hl. revert i; induction Hl as [|len lens Hlen Hl IH]; intros [|i];
    unfold rdata_bytes in *; simpl; try done.
  - pose proof (rdata_bytes_nonneg lens Hl). unfold rdata_bytes in *. lia.
  - specialize (IH i). lia.
Qed.

Lemma fixup_rdata_length lens nextrdata :
  length (fixup_rdata lens nextrdata) = length lens.
Proof.
  revert nextrdata; induction lens as [|l lens IH]; intros z; simpl; [done|].
  by rewrite IH.
Qed.

(** Pointer [i] is behind the records before it. *)
Lemma fixup_rdata_lookup lens nextrdata i len :
  Forall (fun len => 0 <= len) lens ->
  0 <= nextrdata -> nextrdata + rdata_bytes lens < 2 ^ 64 ->
  lens !! i = Some len ->
  fixup_rdata lens nextrdata !! i
    = Some (nextrdata + rdata_bytes (take i lens)).
Proof.
  intros Hl. revert nextrdata i.
  induction Hl as [|l lens Hlen Hl IH]; intros nextrdata i Hn Hmax; [done|].
  pose proof (rdata_bytes_nonneg lens Hl) as Hpos.
  unfold rdata_bytes in Hmax, Hpos. cbn [foldr] in Hmax.
  destruct i as [|i]; cbn [fixup_rdata take].
  - intros _. unfold rdata_bytes. simpl. f_equal. lia.
  - simpl. intros Hi. unfold wrap_size. rewrite Z.mod_small by lia.
    rewrite IH; [|lia|unfold rdata_bytes; lia|done].
    unfold rdata_bytes. cbn [foldr]. f_equal. lia.
Qed.

(** X13. The size that [packed_rrset_sizeof] computes covers the block
    that [packed_rrset_ptr_fixup] lays out. For data with at least one
    record, as many lengths as records, and a block that fits the
    address space: the three arrays follow the structure without a gap,
    the first record starts where the array of TTLs ends, every record
    starts where the one before it ends, no record reaches beyond the
    computed size, and the size is the structure, 20 bytes of arrays for
    each record, and the bytes of the records. *)
Theorem packed_size_covers_layout hdr d :
  let total := d_count d + d_rrsig_count d in
  let lay := packed_rrset_ptr_fixup hdr d in
  let size := hdr + 20 * total + rdata_bytes (rr_len d) in
  0 <= hdr -> 0 <= d_count d -> 0 <= d_rrsig_count d -> 0 < total ->
  Z.of_nat (length (rr_len d)) = total ->
  Forall (fun len => 0 <= len) (rr_len d) ->
  size < 2 ^ 64 ->
  packed_rrset_sizeof (at_rdata lay) d = Some size /\
  at_rr_len lay = hdr /\
  at_rr_data lay = hdr + 8 * total /\
  at_rr_ttl lay = hdr + 16 * total /\
  length (at_rdata lay) = length (rr_len d) /\
  head (at_rdata lay) = Some (hdr + 20 * total) /\
  forall i p len,
    at_rdata lay !! i = Some p -> rr_len d !! i = Some len ->
    hdr + 20 * total <= p /\ p + len <= size /\
    forall p', at_rdata lay !! S i = Some p' -> p' = p + len.
Proof.
  intros total lay size Hhdr Hc Hs Htotal Hlen Hl Hmax.
  pose proof (rdata_bytes_nonneg _ Hl) as Hpos.
  assert (hdr + 20 * total + rdata_bytes (rr_len d) < 2 ^ 64) as Hmax'
    by exact Hmax.
  assert (forall x, 0 <= x <= 20 * total -> wrap_size (hdr + x) = hdr + x)
    as Hsmall by (intros x Hx; apply Z.mod_small; lia).
  assert (wrap_size total = total) as Ewrap
    by (apply Z.mod_small; lia).
  assert (take (Z.to_nat total) (rr_len d) = rr_len d) as Etake
    by (apply take_ge; lia).
  assert (at_rdata lay = fixup_rdata (rr_len d) (hdr + 20 * total)) as Elay.
  { unfold lay, packed_rrset_ptr_fixup. cbn [at_rdata]. fold total.
    rewrite Ewrap, Etake, (Hsmall (8 * total)) by lia.
    rewrite <- Z.add_assoc, (Hsmall (8 * total + 8 * total)) by lia.
    rewrite <- Z.add_assoc, (Hsmall (8 * total + 8 * total + 4 * total))
      by lia.
    f_equal. lia. }
  assert (forall i len, rr_len d !! i = Some len ->
            at_rdata lay !! i
              = Some (hdr + 20 * total + rdata_bytes (take i (rr_len d))))
    as Hat.
  { intros i len Hi. rewrite Elay.
    by apply (fixup_rdata_lookup _ _ i len); [|lia|lia|]. }
  assert (exists last, rr_len d !! Z.to_nat (total - 1) = Some last)
    as [last Hlast] by (apply lookup_lt_is_Some; lia).
  assert (packed_rrset_sizeof (at_rdata lay) d = Some size) as Esize.
  { assert (match at_rdata lay !! Z.to_nat (total - 1),
                  rr_len d !! Z.to_nat (total - 1) with
            | Some p, Some len => Some (wrap_size (p + len))
            | _, _ => None
            end = Some size) as Eat.
    { rewrite (Hat _ _ Hlast), Hlast. f_equal.
      rewrite <- Z.add_assoc, <- (rdata_bytes_take _ _ _ Hlast).
      rewrite (take_ge (rr_len d)) by lia.
      apply Z.mod_small. unfold size in *. lia. }
    unfold packed_rrset_sizeof.
    destruct (Z.gtb_spec (d_rrsig_count d) 0).
    - fold total. unfold wrap_size at 1 2.
      by rewrite (Z.mod_small (total - 1)) by lia.
    - assert (d_rrsig_count d = 0) as E0 by lia.
      unfold total in *. rewrite E0, Z.add_0_r in *.
      rewrite gtb_true by lia. unfold wrap_size at 1 2.
      by rewrite (Z.mod_small (d_count d - 1)) by lia. }
  assert (at_rr_data lay = hdr + 8 * total) as Edata.
  { unfold lay, packed_rrset_ptr_fixup. cbn [at_rr_data]. fold total.
    rewrite Ewrap. apply Hsmall. lia. }
  assert (at_rr_ttl lay = hdr + 16 * total) as Ettl.
  { unfold lay, packed_rrset_ptr_fixup. cbn [at_rr_ttl]. fold total.
    rewrite Ewrap, (Hsmall (8 * total)) by lia.
    rewrite <- Z.add_assoc, Hsmall by lia. lia. }
  split; [exact Esize|]. split; [done|]. split; [exact Edata|].
  split; [exact Ettl|].
  split.
  { by rewrite Elay, fixup_rdata_length. }
  split.
  { rewrite Elay. destruct (rr_len d); [simpl in Hlen; lia|done]. }
  intros i p len Hp Hi. rewrite (Hat i len Hi) in Hp. injection Hp as <-.
  pose proof (rdata_bytes_nonneg _ (Forall_take _ i _ Hl)).
  pose proof (rdata_bytes_take_le (rr_len d) (S i) Hl) as Hle.
  rewrite (rdata_bytes_take _ _ _ Hi) in Hle.
  split; [lia|]. split; [unfold size; lia|].
  intros p' Hp'.
  destruct (rr_len d !! S i) as [len'|] eqn:Hi'.
  - rewrite (Hat _ _ Hi') in Hp'. injection Hp' as <-.
    rewrite (rdata_bytes_take _ _ _ Hi). lia.
  - apply lookup_ge_None in Hi'. apply lookup_lt_Some in Hp'.
    rewrite Elay, fixup_rdata_length in Hp'. lia.
Qed.

(** The NS RRset of example.com., one record of 19 bytes, behind a
    structure of 56 bytes: a block of 95 bytes. *)
Lemma packed_size_covers_layout_witness :
  let d := entry_data ns_example_com in
  let total := d_count d + d_rrsig_count d in
  let lay := packed_rrset_ptr_fixup 56 d in
  let size := 56 + 20 * total + rdata_bytes (rr_len d) in
  size = 95 /\
  packed_rrset_sizeof (at_rdata lay) d = Some size /\
  at_rr_len lay = 56 /\
  at_rr_data lay = 56 + 8 * total /\
  at_rr_ttl lay = 56 + 16 * total /\
  length (at_rdata lay) = length (rr_len d) /\
  head (at_rdata lay) = Some (56 + 20 * total) /\
  forall i p len,
    at_rdata lay !! i = Some p -> rr_len d !! i = Some len ->
    56 + 20 * total <= p /\ p + len <= size /\
    forall p', at_rdata lay !! S i = Some p' -> p' = p + len.
Proof.
  split; [vm_compute; reflexivity|].
  apply (packed_size_covers_layout 56 (entry_data ns_example_com));
    apply (bool_decide_unpack _); vm_compute; exact I.
Defined.

(** ** The reverse names of the host tool (checkconf/unbound-host.c) *)

Section HostToolFacts.
Import Stdlib.Strings.String Stdlib.Strings.Ascii.
Import stdpp.strings stdpp.pretty.
Import unbound_host.
Local Open Scope Z_scope.

Lemma byte_cases (P : Z -> Prop) `{!forall b, Decision (P b)} :
  bool_decide (Forall P (seqZ 0 256)) = true ->
  forall b, 0 <= b < 256 -> P b.
Proof.
  intros Hall%bool_decide_eq_true b Hb.
  apply (proj1 (Forall_forall _ _) Hall). apply elem_of_seqZ. lia.
Qed.

Lemma address_nth n addr i :
  address n addr -> 0 <= nth i addr 0 < 256.
Proof.
  intros [_ Hb]. revert i; induction Hb as [|b addr Hb0 _ IH]; intros [|i];
    simpl; done.
Qed.

Lemma address_ext n a b :
  address n a -> address n b ->
  (forall i, (i < n)%nat -> nth i a 0 = nth i b 0) -> a = b.
Proof.
  intros [Ha _] [Hb _] Hnth. apply (nth_ext _ _ 0 0); [congruence|].
  intros i Hi. apply Hnth. by rewrite <- Ha.
Qed.

(** The two hex digits written for a byte give the byte back. *)
Lemma hex_digits_byte b :
  0 <= b < 256 ->
  hex_index (hex_at (Z.land b 15)) +
  16 * hex_index (hex_at (Z.shiftr (Z.land b 240) 4)) = b.
Proof.
  apply (byte_cases
           (fun b => hex_index (hex_at (Z.land b 15)) +
                     16 * hex_index (hex_at (Z.shiftr (Z.land b 240) 4)) = b)).
  vm_compute. reflexivity.
Qed.

Lemma isip6_loop_length i addr : length (isip6_loop i addr) = (4 * i)%nat.
Proof. induction i as [|i IH]; simpl; [done|]. rewrite IH. lia. Qed.

Lemma isip6_loop_inj n i a b rest :
  address n a -> address n b ->
  isip6_loop i a ++ rest = isip6_loop i b ++ rest ->
  forall j, (j < i)%nat -> nth j a 0 = nth j b 0.
Proof.
  intros Ha Hb. induction i as [|i IH]; [intros _ j; lia|].
  cbn [isip6_loop]. rewrite <- !app_comm_cons.
  intros [= Hlo Hhi Hrest] j Hj.
  destruct (decide (j = i)) as [->|Hne]; [|apply (IH Hrest); lia].
  rewrite <- (hex_digits_byte (nth i a 0)) by apply (address_nth n), Ha.
  rewrite <- (hex_digits_byte (nth i b 0)) by apply (address_nth n), Hb.
  by rewrite Hlo, Hhi.
Qed.

(** X14. The reverse name of an IPv6 address. For every address that
    [inet_pton] hands over, sixteen bytes, [isip6] answers with a name
    of 72 characters, which with its NUL fits the buffer of 128 bytes;
    the name ends in [ip6.arpa], nothing of which is cut off; and two
    addresses with the same name are the same address. *)
Theorem isip6_reverse_name inet_pton nm addr :
  inet_pton nm = Some addr -> address 16 addr ->
  exists res,
    isip6 inet_pton nm = Some res /\
    length res = 72%nat /\
    drop 64 res = cstr "ip6.arpa" /\
    forall nm' addr',
      inet_pton nm' = Some addr' -> address 16 addr' ->
      isip6 inet_pton nm' = Some res -> addr' = addr.
Proof.
  intros Hnm Haddr. unfold isip6. rewrite Hnm. eexists. split; [done|].
  unfold isip6_name.
  change (snprintf (128 - 16 * 4) (cstr "ip6.arpa")) with (cstr "ip6.arpa").
  split; [|split].
  - rewrite length_app, isip6_loop_length. done.
  - rewrite drop_app_length'; [done|]. by rewrite isip6_loop_length.
  - intros nm' addr' Hnm' Haddr'. rewrite Hnm'. intros Heq.
    apply (address_ext 16); [done..|].
    apply (isip6_loop_inj 16 16 _ _ (cstr "ip6.arpa")); [done..|].
    apply (inj Some) in Heq. exact Heq.
Qed.

Lemma isip6_reverse_name_witness :
  exists res,
    isip6 example_inet_pton6 (cstr "2001:db8::1") = Some res /\
    length res = 72%nat /\
    drop 64 res = cstr "ip6.arpa" /\
    forall nm' addr',
      example_inet_pton6 nm' = Some addr' -> address 16 addr' ->
      isip6 example_inet_pton6 nm' = Some res ->
      addr' = [32; 1; 13; 184; 0; 0; 0; 0; 0; 0; 0; 0; 0; 0; 0; 1].
Proof.
  apply (isip6_reverse_name example_inet_pton6 (cstr "2001:db8::1")
           [32; 1; 13; 184; 0; 0; 0; 0; 0; 0; 0; 0; 0; 0; 0; 1]).
  - vm_compute; reflexivity.
  - split; [reflexivity|]. apply (bool_decide_unpack _). vm_compute. exact I.
Defined.

(** The decimal digits of a byte: at most three, no dot among them. *)
Lemma percent_u_byte b :
  0 <= b < 256 ->
  (length (percent_u b) <= 3)%nat /\ Forall (fun c => c <> dot) (percent_u b).
Proof.
  apply (byte_cases
           (fun b => (length (percent_u b) <= 3)%nat /\
                     Forall (fun c => c <> dot) (percent_u b))).
  vm_compute. reflexivity.
Qed.

Lemma percent_u_inj a b :
  0 <= a -> 0 <= b -> percent_u a = percent_u b -> a = b.
Proof.
  intros Ha Hb Heq. unfold percent_u, cstr in Heq.
  apply (f_equal string_of_list_ascii) in Heq.
  rewrite !string_of_list_ascii_of_string in Heq.
  apply (inj pretty) in Heq. lia.
Qed.

(** Text without a dot, then a dot: where the dot is tells the text. *)
Lemma dotted_inj s s' r r' :
  Forall (fun c => c <> dot) s -> Forall (fun c => c <> dot) s' ->
  s ++ dot :: r = s' ++ dot :: r' -> s = s' /\ r = r'.
Proof.
  intros Hs. revert s'. induction Hs as [|c s Hc Hs IH]; intros s' Hs'.
  - destruct Hs' as [|c' s' Hc' Hs']; simpl; [by intros [= ->]|].
    intros [= E _]. by destruct Hc'.
  - destruct Hs' as [|c' s' Hc' Hs']; simpl.
    + intros [= E _]. by destruct Hc.
    + intros [= -> Hrest]. destruct (IH _ Hs' Hrest) as [-> ->]. done.
Qed.

(** X15. The reverse name of an IPv4 address. For every address that
    [inet_pton] hands over, four bytes, the text that [isip4] formats has
    at most 28 characters, so [snprintf] cuts nothing off in the buffer
    of 32 bytes: the name is the four bytes in decimal, the last byte of
    the address first, and [.in-addr.arpa]. Two addresses with the same
    name are the same address. *)
Theorem isip4_reverse_name inet_pton nm addr :
  inet_pton nm = Some addr -> address 4 addr ->
  exists res,
    isip4 inet_pton nm = Some res /\
    res = percent_u (nth 3 addr 0) ++ [dot] ++ percent_u (nth 2 addr 0) ++
          [dot] ++ percent_u (nth 1 addr 0) ++ [dot] ++
          percent_u (nth 0 addr 0) ++ cstr ".in-addr.arpa" /\
    (length res <= 28)%nat /\
    forall nm' addr',
      inet_pton nm' = Some addr' -> address 4 addr' ->
      isip4 inet_pton nm' = Some res -> addr' = addr.
Proof.
  intros Hnm Haddr.
  assert (forall a, address 4 a ->
            isip4_name a
              = percent_u (nth 3 a 0) ++ [dot] ++ percent_u (nth 2 a 0) ++
                [dot] ++ percent_u (nth 1 a 0) ++ [dot] ++
                percent_u (nth 0 a 0) ++ cstr ".in-addr.arpa" /\
            (length (isip4_name a) <= 28)%nat) as Hname.
  { intros a Ha. unfold isip4_name, snprintf.
    destruct (percent_u_byte _ (address_nth 4 a 0 Ha)) as [H0 _].
    destruct (percent_u_byte _ (address_nth 4 a 1 Ha)) as [H1 _].
    destruct (percent_u_byte _ (address_nth 4 a 2 Ha)) as [H2 _].
    destruct (percent_u_byte _ (address_nth 4 a 3 Ha)) as [H3 _].
    set (full := percent_u (nth 3 a 0) ++ _).
    assert (length full <= 28)%nat as Hlen.
    { unfold full. rewrite !length_app.
      change (length (cstr ".in-addr.arpa")) with 13%nat. simpl. lia. }
    rewrite take_ge by lia. done. }
  unfold isip4. rewrite Hnm. eexists. split; [done|].
  destruct (Hname addr Haddr) as [Eres Hlen].
  split; [done|]. split; [done|].
  intros nm' addr' Hnm' Haddr'. rewrite Hnm'. intros [= Heq].
  destruct (Hname addr' Haddr') as [Eres' _].
  rewrite Eres, Eres' in Heq. cbn [app] in Heq.
  pose proof (fun i => proj2 (percent_u_byte _ (address_nth 4 addr i Haddr)))
    as Hd.
  pose proof (fun i => proj2 (percent_u_byte _ (address_nth 4 addr' i Haddr')))
    as Hd'.
  apply dotted_inj in Heq as [E3 Heq]; [|done..].
  apply dotted_inj in Heq as [E2 Heq]; [|done..].
  apply dotted_inj in Heq as [E1 Heq]; [|done..].
  change (cstr ".in-addr.arpa") with (dot :: cstr "in-addr.arpa") in Heq.
  apply dotted_inj in Heq as [E0 _]; [|done..].
  apply (address_ext 4); [done..|].
  intros i Hi.
  assert (forall j, percent_u (nth j addr' 0) = percent_u (nth j addr 0) ->
            nth j addr' 0 = nth j addr 0) as Hinj.
  { intros j. apply percent_u_inj.
    - apply (address_nth 4 addr' j Haddr').
    - apply (address_nth 4 addr j Haddr). }
  destruct i as [|[|[|[|i]]]]; [by apply Hinj..|lia].
Qed.

Lemma isip4_reverse_name_witness :
  exists res,
    isip4 example_inet_pton4 (cstr "192.0.2.1") = Some res /\
    res = percent_u (nth 3 [192; 0; 2; 1] 0) ++ [dot] ++
          percent_u (nth 2 [192; 0; 2; 1] 0) ++ [dot] ++
          percent_u (nth 1 [192; 0; 2; 1] 0) ++ [dot] ++
          percent_u (nth 0 [192; 0; 2; 1] 0) ++ cstr ".in-addr.arpa" /\
    (length res <= 28)%nat /\
    forall nm' addr',
      example_inet_pton4 nm' = Some addr' -> address 4 addr' ->
      isip4 example_inet_pton4 nm' = Some res -> addr' = [192; 0; 2; 1].
Proof.
  apply (isip4_reverse_name example_inet_pton4 (cstr "192.0.2.1")
           [192; 0; 2; 1]).
  - vm_compute; reflexivity.
  - split; [reflexivity|]. apply (bool_decide_unpack _). vm_compute. exact I.
Defined.

Example isip4_of_192_0_2_1 :
  isip4 example_inet_pton4 (cstr "192.0.2.1")
    = Some (cstr "1.2.0.192.in-addr.arpa").
Proof. vm_compute. reflexivity. Qed.

Example isip6_of_2001_db8_1 :
  isip6 example_inet_pton6 (cstr "2001:db8::1")
    = Some (cstr ("1.0.0.0.0.0.0.0.0.0.0.0.0.0.0.0." +:+
                  "0.0.0.0.0.0.0.0.8.b.d.0.1.0.0.2.ip6.arpa")).
Proof. vm_compute. reflexivity. Qed.

(** X16. The name that the host tool asks for. Given that [inet_pton]
    hands over four bytes for an IPv4 address: a name that is an address
    of either family comes back from [massage_qname] flagged as reverse,
    ends in [.in-addr.arpa] or in [ip6.arpa] and has at most 72
    characters; the IPv4 reading is tried first; and any other name comes
    back as it is, not flagged. *)
Theorem massage_qname_reverse inet_pton4 inet_pton6 nm :
  (forall a, inet_pton4 nm = Some a -> address 4 a) ->
  let (res, reverse) := massage_qname inet_pton4 inet_pton6 nm in
  match inet_pton4 nm, inet_pton6 nm with
  | Some a, _ =>
      reverse = true /\ res = isip4_name a /\
      cstr ".in-addr.arpa" `suffix_of` res /\ (length res <= 28)%nat
  | None, Some a =>
      reverse = true /\ res = isip6_name a /\
      cstr "ip6.arpa" `suffix_of` res /\ length res = 72%nat
  | None, None => reverse = false /\ res = nm
  end.
Proof.
  intros Hfour. unfold massage_qname.
  destruct (inet_pton4 nm) as [a|] eqn:E4.
  - destruct (isip4_reverse_name inet_pton4 nm a E4 (Hfour a eq_refl))
      as (res & Eres & Efull & Hlen & _).
    rewrite Eres. unfold isip4 in Eres. rewrite E4 in Eres.
    injection Eres as Eres. rewrite Eres. split_and!; try done.
    rewrite Efull.
    exists (percent_u (nth 3 a 0) ++ [dot] ++ percent_u (nth 2 a 0) ++
            [dot] ++ percent_u (nth 1 a 0) ++ [dot] ++
            percent_u (nth 0 a 0)).
    by rewrite <- !app_assoc.
  - unfold isip4. rewrite E4.
    destruct (inet_pton6 nm) as [a|] eqn:E6; unfold isip6; rewrite E6;
      [|done].
    split_and!; [done..| |].
    + by eexists.
    + unfold isip6_name. by rewrite length_app, isip6_loop_length.
Qed.

Lemma massage_qname_reverse_witness :
  let (res, reverse) :=
    massage_qname example_inet_pton4 example_inet_pton6 (cstr "192.0.2.1") in
  match example_inet_pton4 (cstr "192.0.2.1"),
        example_inet_pton6 (cstr "192.0.2.1") with
  | Some a, _ =>
      reverse = true /\ res = isip4_name a /\
      cstr ".in-addr.arpa" `suffix_of` res /\ (length res <= 28)%nat
  | None, Some a =>
      reverse = true /\ res = isip6_name a /\
      cstr "ip6.arpa" `suffix_of` res /\ length res = 72%nat
  | None, None => reverse = false /\ res = cstr "192.0.2.1"
  end.
Proof.
  apply (massage_qname_reverse example_inet_pton4 example_inet_pton6
           (cstr "192.0.2.1")).
  intros a [= <-]. split; [reflexivity|].
  apply (bool_decide_unpack _). vm_compute. exact I.
Defined.

Lemma print_fields_live rdf count st :
  rd_live (print_fields rdf count st) = rd_live st /\
  rr_live (print_fields rdf count st) = rr_live st /\
  printed (print_fields rdf count st)
    = printed st ++
      concat ((fun i => [cstr " "; rdf i]) <$> seq 0 count).
Proof.
  unfold print_fields. generalize 0%nat. revert st.
  induction count as [|count IH]; intros st s; cbn [seq foldl].
  { by rewrite app_nil_r. }
  destruct (IH (printf (rdf s) (printf (cstr " ") st)) (S s))
    as (-> & -> & ->).
  split_and!; [done..|]. rewrite fmap_cons. cbn [concat printf printed].
  by rewrite <- !app_assoc.
Qed.

(** X17. [print_rd] releases its buffer twice when the conversion fails.
    With both allocations done, [print_rd] returns, with neither block
    allocated and a blank and the text of each field printed, exactly
    when [ldns_wire2rdf] answers [LDNS_STATUS_OK]; on any other answer
    it frees [rd], prints [error_printing_data], goes on to print the
    fields and then hands [rd] to [free] a second time. Without one of
    the allocations it leaves through [exit(1)]. *)
Theorem print_rd_frees_twice_on_error malloc_ok rr_ok status_ok count rdf :
  print_rd malloc_ok rr_ok status_ok count rdf =
  if negb (malloc_ok && rr_ok) then Exited
  else if status_ok then
    Returned (mk_rd_state false false
                (concat ((fun i => [cstr " "; rdf i]) <$> seq 0 count)))
  else FreedTwice.
Proof.
  unfold print_rd. destruct malloc_ok, rr_ok; try done.
  cbn [negb orb andb]. destruct status_ok; cbn [fmap option_fmap option_map
    free_rd rd_live].
  - destruct (print_fields_live rdf count (mk_rd_state true true []))
      as (Hrd & _ & Hout).
    cbn [rd_live rr_live printed app] in *. unfold free_rd.
    cbn [rd_live rr_live printed]. by rewrite Hrd, Hout.
  - destruct (print_fields_live rdf count
                (printf (cstr "error_printing_data")
                   (mk_rd_state false true []))) as (Hrd & _ & _).
    unfold free_rd. cbn [rd_live rr_live printed printf] in *.
    by rewrite Hrd.
Qed.

End HostToolFacts.

(** ** A fresh reply, stored and looked up *)

Lemma ttl_shift_heap (now : Z) (keys : list ptr)
    (h : gmap ptr ub_packed_rrset_key) (p : ptr) :
  NoDup keys ->
  foldl
    (fun h p =>
       match h !! p with
       | Some k =>
           <[p := key_with_data k
                    (packed_rrset_ttl_add (entry_data k) now)]> h
       | None => h
       end) h keys !! p
  = if decide (p ∈ keys)
    then (fun k => key_with_data k (packed_rrset_ttl_add (entry_data k) now))
           <$> h !! p
    else h !! p.
Proof.
  intros Hnd. revert h. induction Hnd as [|q keys Hq Hnd IH]; intros h.
  { cbn [foldl].
    destruct (decide (p ∈ [])) as [Hin|]; [by apply elem_of_nil in Hin|done]. }
  cbn [foldl]. rewrite IH.
  destruct (decide (p = q)) as [->|Hne].
  - destruct (decide (q ∈ keys)) as [?|_]; [done|].
    destruct (decide (q ∈ q :: keys)) as [_|Hn]; [|exfalso; apply Hn; left].
    destruct (h !! q) as [k|] eqn:Hk; [by rewrite lookup_insert_eq|].
    by rewrite Hk.
  - assert (match h !! q with
            | Some k =>
                <[q := key_with_data k
                         (packed_rrset_ttl_add (entry_data k) now)]> h
            | None => h
            end !! p = h !! p) as ->.
    { destruct (h !! q); [by rewrite lookup_insert_ne|done]. }
    destruct (decide (p ∈ keys)) as [Hin|Hnin],
             (decide (p ∈ q :: keys)) as [Hin'|Hnin']; try done.
    + exfalso. apply Hnin'. by right.
    + exfalso. by apply elem_of_cons in Hin' as [?|?].
Qed.

Lemma fresh_reply_pointers env rep ks :
  fresh_reply env rep ks ->
  length ks = length (rrsets rep) /\
  Z.to_nat (rrset_count rep) = length (rrsets rep) /\
  NoDup (rrsets rep) /\
  (forall p, p ∈ rrsets rep -> p ∉ rrset_cache env).
Proof.
  intros (Hcount & Hks & Hdist & Hfresh).
  pose proof (Forall2_length _ _ _ Hks) as Hlen.
  split; [done|]. split; [lia|]. split.
  - apply NoDup_alt. intros i j p Hi Hj.
    destruct (decide (i = j)) as [|Hne]; [done|exfalso].
    destruct (Forall2_lookup_l _ _ _ _ _ Hks Hi) as (ki & Hki & Hpi).
    destruct (Forall2_lookup_l _ _ _ _ _ Hks Hj) as (kj & Hkj & Hpj).
    apply (Hdist i j ki kj Hne Hki Hkj).
    rewrite Hpi in Hpj. injection Hpj as <-. apply ub_rrset_compare_refl.
  - intros p [i Hi]%list_elem_of_lookup Hin.
    destruct (Forall2_lookup_l _ _ _ _ _ Hks Hi) as (k & Hk & Hp).
    apply (proj1 (Forall_forall _ _) Hfresh k);
      [by apply list_elem_of_lookup_2 in Hk|].
    exists p, k. split_and!; [done..|]. apply ub_rrset_compare_refl.
Qed.

Lemma store_step_progress env0 now ps ks i env rep :
  length ks = length ps -> NoDup ps ->
  (forall i j ki kj, i <> j -> ks !! i = Some ki -> ks !! j = Some kj ->
     ub_rrset_compare (rk ki) (rk kj) <> 0) ->
  Forall (fun k => ~ rrset_cached env0 (rk k)) ks ->
  (forall p, p ∈ ps -> p ∉ rrset_cache env0) ->
  (i < length ps)%nat ->
  store_progress env0 now ps ks i env rep ->
  store_progress env0 now ps ks (S i)
    (store_rrsets_step now (env, rep) i).1
    (store_rrsets_step now (env, rep) i).2.
Proof.
  intros Hlen Hnd Hdist Hfresh Hout Hi
    (Hm & Ht & Hid & Hheap & Hother & Hrr & Hreflen & Href).
  destruct (lookup_lt_is_Some_2 ps i Hi) as [p Hp].
  destruct (lookup_lt_is_Some_2 ks i ltac:(lia)) as [k Hk].
  pose proof (Hheap i p k Hp Hk) as Hpk.
  rewrite decide_False in Hpk by lia.
  set (k' := key_with_data k (packed_rrset_ttl_add (entry_data k) now)) in *.
  assert (rrset_cache_find env (rk k') = None) as Hfind.
  { unfold rrset_cache_find.
    assert (list_find
              (fun q =>
                 match heap env !! q with
                 | Some e => ub_rrset_compare (rk e) (rk k') =? 0
                 | None => false
                 end = true) (rrset_cache env) = None) as ->; [|done].
    apply list_find_None, Forall_forall. intros q Hq.
    destruct (Ht q Hq) as [Hin|Hin].
    - apply list_elem_of_lookup in Hin as [j Hj].
      apply lookup_take_Some in Hj as [Hj Hji].
      destruct (lookup_lt_is_Some_2 ks j) as [kj Hkj];
        [apply lookup_lt_Some in Hj; lia|].
      rewrite (Hheap j q kj Hj Hkj), decide_True by done.
      cbn [stored_key key_with_id key_with_data rk k'].
      apply not_true_iff_false, Z.eqb_neq, (Hdist j i); [lia|done..].
    - assert (q ∉ ps) as Hq' by (intros Hq'; by apply (Hout q)).
      rewrite (Hother q Hq').
      destruct (heap env0 !! q) as [e|] eqn:He; [|done].
      apply not_true_iff_false, Z.eqb_neq. intros Hc.
      apply (proj1 (Forall_forall _ _) Hfresh k);
        [by apply list_elem_of_lookup_2 in Hk|].
      by exists q, e. }
  unfold store_rrsets_step. rewrite Hrr, Hp.
  unfold rrset_cache_update. cbn [ref_key]. rewrite Hpk, Hfind.
  unfold store_progress.
  cbn -[key_with_id key_with_data packed_rrset_ttl_add stored_key
        Z.add Z.of_nat].
  split_and!.
  - done.
  - intros q [->|Hq]%elem_of_cons.
    + left. apply list_elem_of_lookup. exists i.
      apply lookup_take_Some. split; [done|lia].
    + destruct (Ht q Hq) as [Hin|Hin]; [|by right].
      left. apply list_elem_of_lookup in Hin as [j Hj].
      apply lookup_take_Some in Hj as [Hj Hji].
      apply list_elem_of_lookup. exists j.
      apply lookup_take_Some. split; [done|lia].
  - lia.
  - intros j q kj Hj Hkj.
    destruct (decide (j = i)) as [->|Hne].
    + rewrite Hp in Hj. injection Hj as <-.
      rewrite Hk in Hkj. injection Hkj as <-.
      rewrite lookup_insert_eq, decide_True by lia.
      unfold stored_key, k'. by rewrite Hid.
    + assert (q <> p) as Hqp.
      { intros ->. apply Hne. by apply (NoDup_lookup ps j i p). }
      rewrite lookup_insert_ne by done. rewrite (Hheap j q kj Hj Hkj).
      destruct (decide (j < i)%nat), (decide (j < S i)%nat); try done; lia.
  - intros q Hq. rewrite lookup_insert_ne; [by apply Hother|].
    intros <-. apply Hq. by apply list_elem_of_lookup_2 in Hp.
  - done.
  - by rewrite length_insert.
  - intros j q Hj Hq.
    destruct (decide (j = i)) as [->|Hne].
    + rewrite Hp in Hq. injection Hq as <-.
      rewrite list_lookup_insert_eq by lia. by rewrite Hid.
    + rewrite list_lookup_insert_ne by done. apply Href; [lia|done].
Qed.

Lemma store_loop_progress env0 now ps ks m i env rep :
  length ks = length ps -> NoDup ps ->
  (forall i j ki kj, i <> j -> ks !! i = Some ki -> ks !! j = Some kj ->
     ub_rrset_compare (rk ki) (rk kj) <> 0) ->
  Forall (fun k => ~ rrset_cached env0 (rk k)) ks ->
  (forall p, p ∈ ps -> p ∉ rrset_cache env0) ->
  (i + m <= length ps)%nat ->
  store_progress env0 now ps ks i env rep ->
  store_progress env0 now ps ks (i + m)
    (foldl (store_rrsets_step now) (env, rep) (seq i m)).1
    (foldl (store_rrsets_step now) (env, rep) (seq i m)).2.
Proof.
  intros Hlen Hnd Hdist Hfresh Hout. revert i env rep.
  induction m as [|m IH]; intros i env rep Hi Hprog; cbn [seq foldl].
  { by rewrite Nat.add_0_r. }
  pose proof (store_step_progress env0 now ps ks i env rep Hlen Hnd Hdist
                Hfresh Hout ltac:(lia) Hprog) as Hstep.
  destruct (store_rrsets_step now (env, rep) i) as [env1 rep1].
  replace (i + S m)%nat with (S i + m)%nat by lia.
  apply IH; [lia|done].
Qed.

Lemma store_rrsets_loop_header now l env rep :
  rep_header (foldl (store_rrsets_step now) (env, rep) l).2 = rep_header rep.
Proof.
  revert env rep; induction l as [|i l IH]; intros env rep; [done|].
  cbn [foldl].
  destruct (store_rrsets_step now (env, rep) i) as [env1 rep1] eqn:Hstep.
  rewrite IH. unfold store_rrsets_step in Hstep.
  destruct (rrsets rep !! i) as [p|]; [|by injection Hstep as <- <-].
  destruct (rrset_cache_update env _ now) as [[env' r'] in_cache].
  injection Hstep as <- <-. by destruct in_cache.
Qed.

Lemma fmap_ref_key (f : ptr -> Z) (l : list ptr) :
  ref_key <$> ((fun p => mk_ref p (f p)) <$> l) = l.
Proof. induction l as [|p l IH]; [done|]. rewrite !fmap_cons, IH. done. Qed.

(** What the store makes of a fresh reply with a TTL other than 0. *)
Lemma store_fresh_reply env q hash rep ks now :
  fresh_reply env rep ks -> rep_ttl rep <> 0 ->
  let env' := (dns_cache_store_msg env q hash rep now true).1 in
  exists e rest,
    msg_cache env' = e :: rest /\
    me_key e = q /\ me_hash e = hash /\
    rep_header (me_data e)
      = (rep_flags rep, qdcount rep, wrap32 (rep_ttl rep + now),
         an_numrrsets rep, ns_numrrsets rep, ar_numrrsets rep,
         rrset_count rep) /\
    rrsets (me_data e) = rrsets rep /\
    (forall rf, rf ∈ take (length ks) (ref (me_data e)) ->
       exists j p, rrsets rep !! j = Some p /\
                   rf = mk_ref p (next_id env + Z.of_nat j)) /\
    (forall j p k, rrsets rep !! j = Some p -> ks !! j = Some k ->
       heap env' !! p = Some (stored_key k now (next_id env + Z.of_nat j))).
Proof.
  intros Hfresh Httl.
  destruct (fresh_reply_pointers env rep ks Hfresh)
    as (Hlen & Hn & Hnd & Hout).
  destruct Hfresh as (Hcount & Hks & Hdist & Hnew).
  unfold dns_cache_store_msg. rewrite Hn, firstn_all.
  set (ps := rrsets rep) in *.
  set (repa := rep_with_ref rep _).
  set (repb := reply_info_sortref env repa).
  assert (Z.to_nat (rrset_count repb) = length ps) as Hnb by exact Hn.
  assert (ref_key <$> take (length ps) (ref repb) ≡ₚ ps) as Hkeys.
  { pose proof (sortref_take env repa) as Hs.
    change (rrset_count repa) with (rrset_count rep) in Hs.
    rewrite Hn in Hs. fold repb in Hs. rewrite Hs.
    unfold repa. cbn [ref rep_with_ref].
    rewrite take_ge by (by rewrite length_fmap).
    by rewrite fmap_ref_key. }
  assert (length (ref repb) = length ps) as Hreflen.
  { unfold repb, reply_info_sortref. cbn [ref rep_with_ref].
    rewrite length_app, (Permutation_length (ref_sort_perm _ _)),
      <- length_app, take_drop.
    unfold repa. cbn [ref rep_with_ref]. by rewrite length_fmap. }
  unfold reply_info_set_ttls. rewrite Hnb.
  set (h1 := foldl _ (heap env) _).
  set (env1 := env_with_heap env h1).
  set (rep1 := rep_with_ttl repb _).
  assert (store_progress env now ps ks 0 env1 rep1) as Hstart.
  { split_and!; try done.
    - intros q' Hq. by right.
    - cbn [next_id env1 env_with_heap]. lia.
    - intros j p k Hp Hk. cbn [heap env1 env_with_heap]. unfold h1.
      rewrite ttl_shift_heap by apply NoDup_remove_dups.
      rewrite decide_True.
      2:{ apply elem_of_remove_dups. rewrite Hkeys.
          by apply list_elem_of_lookup_2 in Hp. }
      destruct (Forall2_lookup_l _ _ _ _ _ Hks Hp) as (k0 & Hk0 & ->).
      rewrite Hk in Hk0. by injection Hk0 as <-.
    - intros q' Hq. cbn [heap env1 env_with_heap]. unfold h1.
      rewrite ttl_shift_heap by apply NoDup_remove_dups.
      rewrite decide_False; [done|].
      rewrite elem_of_remove_dups, Hkeys. done.
    - intros j p Hj. lia. }
  unfold store_rrsets.
  change (rrset_count rep1) with (rrset_count rep). rewrite Hn.
  pose proof (store_loop_progress env now ps ks (length ps) 0 env1 rep1 Hlen
                Hnd Hdist Hnew Hout ltac:(lia) Hstart) as Hend.
  pose proof (store_rrsets_loop_header now (seq 0 (length ps)) env1 rep1)
    as Hhead.
  destruct (foldl (store_rrsets_step now) (env1, rep1) (seq 0 (length ps)))
    as [env2 rep2].
  cbn [fst snd Nat.add] in Hend, Hhead.
  destruct Hend as (Hm & _ & _ & Hheap & _ & Hrr & Hreflen2 & Href).
  rewrite (proj2 (Z.eqb_neq _ _) Httl).
  cbn [query_info_entrysetup fst msg_cache heap slabhash_insert].
  eexists _, _. split; [reflexivity|]. cbn [me_key me_hash me_data].
  split; [done|]. split; [done|]. split.
  { change (rep_header (reply_info_sortref env2 rep2))
      with (rep_header rep2). by rewrite Hhead. }
  split; [done|]. split.
  - intros rf Hrf.
    assert (Z.to_nat (rrset_count rep2) = length ks) as Hn2.
    { injection Hhead as _ _ _ _ _ _ ->. change (rrset_count rep1)
        with (rrset_count rep). lia. }
    rewrite <- Hn2, sortref_take, Hn2 in Hrf.
    apply list_elem_of_lookup in Hrf as [j Hj].
    apply lookup_take_Some in Hj as [Hj Hjn].
    destruct (lookup_lt_is_Some_2 ps j ltac:(lia)) as [p Hp].
    exists j, p. split; [done|].
    rewrite (Href j p ltac:(lia) Hp) in Hj. by injection Hj as <-.
  - intros j p k Hp Hk. rewrite (Hheap j p k Hp Hk).
    rewrite decide_True; [done|]. apply lookup_lt_Some in Hp. lia.
Qed.

Lemma omap_imap {A B C} (g : A -> option C) (f : nat -> B -> C)
    (l : list A) (k : list B) :
  length k = length l ->
  (forall j a b, l !! j = Some a -> k !! j = Some b -> g a = Some (f j b)) ->
  omap g l = imap f k.
Proof.
  revert f k; induction l as [|a l IH]; intros f [|b k] Hlen Hg; try done.
  cbn [omap list_omap imap]. rewrite (Hg 0%nat a b) by done.
  f_equal. apply IH; [by injection Hlen|].
  intros j a' b' Ha Hb. by apply (Hg (S j)).
Qed.

Lemma query_info_compare_refl q : query_info_compare q q = true.
Proof.
  unfold query_info_compare. rewrite !Z.eqb_refl.
  by rewrite (proj2 (query_dname_compare_zero _ _) eq_refl).
Qed.

Section RoundTrip.
Context `{Host}.

(** X18. A fresh reply that is stored is served back. A reply with a TTL
    other than 0, whose RRsets have keys that differ from one another and
    that the RRset cache does not hold yet, is stored at time [now] under
    the hash of its question. A lookup of that question at a time [now']
    at which neither the reply nor one of its RRsets has expired, with
    room in the region for the message and three allocations per RRset,
    is answered from the message cache: the message has the question,
    the flags and the counts of the reply; its RRsets are, in the order
    of the reply, the copies of the stored RRsets, with the ids the store
    gave out, the records of the reply and each TTL the stored expiry
    time less [now']; the TTL of the message itself is the expiry time
    of the reply, not the seconds that remain. *)
Theorem fresh_reply_round_trip env nm nmlen ty cl reply ks now now' r :
  let q := mk_qinfo nm nmlen ty cl in
  let env' := (dns_cache_store_msg env q (query_info_hash q) reply now true).1 in
  fresh_reply env reply ks ->
  rep_ttl reply <> 0 ->
  now' <= wrap32 (rep_ttl reply + now) ->
  Forall (fun k => now' < wrap32 (d_ttl (entry_data k) + now)) ks ->
  region_ok (4 + 3 * length ks) r = true ->
  exists msg,
    dns_cache_lookup env' nm nmlen ty cl now' r
      = (Some msg, drop (4 + 3 * length ks) r) /\
    qinfo msg = qinfo_copy q /\
    rep_header (rep msg)
      = (rep_flags reply, qdcount reply, wrap32 (rep_ttl reply + now),
         an_numrrsets reply, ns_numrrsets reply, ar_numrrsets reply,
         rrset_count reply) /\
    rrsets (rep msg)
      = imap (fun j k =>
                rrset_copy (stored_key k now (next_id env + Z.of_nat j)) now')
          ks /\
    Forall2
      (fun ck k =>
         rr_len (entry_data ck) = rr_len (entry_data k) /\
         rr_data (entry_data ck) = rr_data (entry_data k) /\
         d_ttl (entry_data ck)
           = wrap32 (d_ttl (entry_data k) + (now - now')))
      (rrsets (rep msg)) ks.
Proof.
  intros q env' Hfresh Httl Hrep Hlive Hmem.
  destruct (store_fresh_reply env q (query_info_hash q) reply ks now Hfresh Httl)
    as (e & rest & Hmc & Hkey & Hhash & Hhead & Hrr & Hrefs & Hheap).
  fold env' in Hmc, Hheap.
  destruct (fresh_reply_pointers env reply ks Hfresh) as (Hlen & Hn & _ & _).
  injection Hhead as Hflags Hqd Hrttl Han Hns Har Hcount.
  set (served := imap (fun j k =>
                         rrset_copy
                           (stored_key k now (next_id env + Z.of_nat j)) now')
                   ks).
  assert (Z.to_nat (rrset_count (me_data e)) = length ks) as Hne
    by (rewrite Hcount; lia).
  assert (take (length ks) (rrsets (me_data e)) = rrsets reply) as Hkeys
    by (rewrite Hrr; apply take_ge; lia).
  assert (rrset_array_lock env' (ref (me_data e)) (rrset_count (me_data e))
            now' = true) as Hlock.
  { unfold rrset_array_lock. rewrite Hne. apply forallb_forall.
    intros rf Hrf%list_elem_of_In.
    destruct (Hrefs rf Hrf) as (j & p & Hp & ->).
    destruct (lookup_lt_is_Some_2 ks j) as [k Hk];
      [apply lookup_lt_Some in Hp; lia|].
    cbn [ref_key ref_id]. rewrite (Hheap j p k Hp Hk).
    cbn [stored_key key_with_id key_with_data id entry_data
         packed_rrset_ttl_add d_ttl].
    rewrite Z.eqb_refl. cbn [andb].
    apply Z.gtb_lt.
    apply (proj1 (Forall_forall _ _) Hlive k).
    by apply list_elem_of_lookup_2 in Hk. }
  assert (Forall (fun p => is_Some (heap env' !! p)) (rrsets reply)) as Hsome.
  { apply Forall_forall. intros p [j Hp]%list_elem_of_lookup.
    destruct (lookup_lt_is_Some_2 ks j) as [k Hk];
      [apply lookup_lt_Some in Hp; lia|].
    rewrite (Hheap j p k Hp Hk). by eexists. }
  assert (omap (fun p => (fun k => rrset_copy k now') <$> heap env' !! p)
            (rrsets reply) = served) as Hserved.
  { apply omap_imap; [done|]. intros j p k Hp Hk.
    by rewrite (Hheap j p k Hp Hk). }
  assert (takes (tomsg env' e (me_data e) now') (4 + 3 * length ks)
            {| qinfo := qinfo_copy q;
               rep := mk_rep (rep_flags reply) (qdcount reply)
                        (wrap32 (rep_ttl reply + now)) (an_numrrsets reply)
                        (ns_numrrsets reply) (ar_numrrsets reply)
                        (rrset_count reply) served [] |}) as Htakes.
  { unfold tomsg. rewrite Hrttl, gtb_false by lia.
    rewrite Hkey.
    apply (takes_bind _ _ 4 _ _ _ (takes_gen_dns_msg _ _)).
    rewrite Hlock. cbn [negb]. rewrite Hne, Hkeys.
    rewrite <- (Nat.add_0_r (3 * length ks)), Hlen.
    apply (takes_bind _ _ _ 0 _ _
             (takes_copy_rrsets env' (rrsets reply) now' Hsome)).
    rewrite Hserved, Hflags, Hqd, Han, Hns, Har, Hcount.
    apply takes_ret. }
  eexists. split.
  { apply dns_cache_lookup_message. unfold lookup_message.
    fold q. unfold slabhash_lookup. rewrite Hmc. cbn [list_find].
    rewrite decide_True.
    2:{ by rewrite Hhash, Hkey, Z.eqb_refl, query_info_compare_refl. }
    cbn [fmap option_fmap option_map snd].
    apply (takes_ok _ _ _ _ Htakes Hmem). }
  cbn [qinfo rep rrsets]. split; [done|]. split; [done|]. split; [done|].
  unfold served. apply Forall2_same_length_lookup. split.
  { by rewrite length_imap. }
  intros j ck k Hck Hk. rewrite list_lookup_imap, Hk in Hck.
  injection Hck as <-.
  cbn [rrset_copy stored_key key_with_id key_with_data entry_data
       packed_rrset_ttl_add rr_len rr_data d_ttl].
  split; [done|]. split; [done|]. apply wrap32_add_sub.
Qed.

End RoundTrip.

(** The reply of [reply_two_rrsets] stored at time 1000 and looked up at
    time 1010. *)
Lemma fresh_reply_round_trip_witness :
  let q := mk_qinfo example_com 13 LDNS_RR_TYPE_A CLASS_IN in
  let ks := [a_example_com_fresh; ns_example_com_fresh] in
  let env' :=
    (dns_cache_store_msg env_two_fresh q
       (query_info_hash (H:=example_host) q) reply_two_rrsets 1000 true).1 in
  exists msg,
    dns_cache_lookup (H:=example_host) env' example_com 13 LDNS_RR_TYPE_A
      CLASS_IN 1010 [] = (Some msg, drop (4 + 3 * length ks) []) /\
    qinfo msg = qinfo_copy q /\
    rep_header (rep msg)
      = (rep_flags reply_two_rrsets, qdcount reply_two_rrsets,
         wrap32 (rep_ttl reply_two_rrsets + 1000),
         an_numrrsets reply_two_rrsets, ns_numrrsets reply_two_rrsets,
         ar_numrrsets reply_two_rrsets, rrset_count reply_two_rrsets) /\
    rrsets (rep msg)
      = imap (fun j k =>
                rrset_copy
                  (stored_key k 1000 (next_id env_two_fresh + Z.of_nat j))
                  1010)
          ks /\
    Forall2
      (fun ck k =>
         rr_len (entry_data ck) = rr_len (entry_data k) /\
         rr_data (entry_data ck) = rr_data (entry_data k) /\
         d_ttl (entry_data ck)
           = wrap32 (d_ttl (entry_data k) + (1000 - 1010)))
      (rrsets (rep msg)) ks.
Proof.
  apply (fresh_reply_round_trip (H:=example_host) env_two_fresh example_com
           13 LDNS_RR_TYPE_A CLASS_IN reply_two_rrsets
           [a_example_com_fresh; ns_example_com_fresh] 1000 1010 []).
  - split_and!.
    + reflexivity.
    + repeat constructor.
    + intros [|[|i]] [|[|j]] ki kj Hne; try done; intros [= <-] [= <-];
        vm_compute; discriminate.
    + repeat constructor; intros (p & e & Hp & _);
        by apply elem_of_nil in Hp.
  - apply (bool_decide_unpack _). vm_compute. exact I.
  - apply (bool_decide_unpack _). vm_compute. exact I.
  - apply (bool_decide_unpack _). vm_compute. exact I.
  - reflexivity.
Defined.

Example scenario_two_rrsets :
  let env' :=
    (dns_cache_store_msg env_two_fresh
       (mk_qinfo example_com 13 LDNS_RR_TYPE_A CLASS_IN)
       (query_info_hash (H:=example_host)
          (mk_qinfo example_com 13 LDNS_RR_TYPE_A CLASS_IN))
       reply_two_rrsets 1000 true).1 in
  exists msg,
    dns_cache_lookup (H:=example_host) env' example_com 13 LDNS_RR_TYPE_A
      CLASS_IN 1010 [] = (Some msg, []) /\
    (rr_ttl ∘ entry_data <$> rrsets (rep msg)) = [[290]; [50]] /\
    (id <$> rrsets (rep msg)) = [1; 2].
Proof. eexists. split_and!; vm_compute; reflexivity. Qed.
